(** * Device-name reprocessor: the bounded-concurrency update pipeline

    Shallow embedding of the script that streams login rows from a CSV
    file and rewrites the [name] and [os] attributes of the matching
    device records in DynamoDB ([getOsFromSourceApp], [isValidRow],
    [shouldUpdateItem], [updateItemWithOs], [processRow],
    [processCsvFile], [main]).

    Conventions of the model:
    - JS strings are sequences of ASCII characters; [toLowerCase] folds
      [A-Z] only.
    - JS numbers that count things are [nat]; [parseInt] returns
      [option Z] with [None] for [NaN].
    - The asynchronous run is a state machine driven by the events the
      event loop delivers (a row from the stream, a reply from the store,
      the resolution of [Promise.allSettled], the end of the stream).
    - A store reply may arrive at any suspension of the main coroutine,
      in any order.  The promises of [batch] get their handlers when
      [Promise.allSettled] is called on them, and the script installs no
      unhandledRejection hook, so what a failed update does while the
      loop waits for the next row depends on the runtime.  Node.js 12 to
      14 only warn by default and the promise stays rejected in [batch];
      Node.js 15 and later raise the rejection as an uncaught exception
      and the process ends with exit code 1.  The README asks for
      Node.js 12+, so the environment records which of the two applies.
    - [parseInt] is computed on exact integers.
    - Log lines are kept without their timestamps.

    Two more scripts of the repository are embedded after the pipeline:
    the sequential version of the reprocessor (process_device_names.js,
    module [Seq]), which reads each item before it updates it, and the
    client provisioning script (modules [Clients] and [ClientsV1]), which
    derives client records from the names of the listed secrets. *)

From Stdlib Require Import ZArith Ascii String List Bool Lia.
From stdpp Require Import base option list gmap strings.
Import ListNotations.

Local Open Scope string_scope.
Local Open Scope list_scope.

(** ** Strings *)

Module Str.

(** [String.prototype.toLowerCase], on ASCII. *)
Definition lower_ascii (c : ascii) : ascii :=
  let n := nat_of_ascii c in
  if (65 <=? n)%nat && (n <=? 90)%nat then ascii_of_nat (n + 32) else c.

Fixpoint toLowerCase (s : string) : string :=
  match s with
  | EmptyString => EmptyString
  | String c s' => String (lower_ascii c) (toLowerCase s')
  end.

(** [String.prototype.includes]: [sub] occurs in [s] at some position. *)
Fixpoint includes (s sub : string) : bool :=
  String.prefix sub s ||
  match s with
  | EmptyString => false
  | String _ s' => includes s' sub
  end.

(** JS truthiness of a value that is a string or [undefined]. *)
Definition truthy (v : option string) : bool :=
  match v with
  | Some (String _ _) => true
  | _ => false
  end.

(** [v || d] for a value that is a string or [undefined]. *)
Definition or_else (v : option string) (d : string) : string :=
  match v with
  | Some (String c s) => String c s
  | _ => d
  end.

(** The string a template literal interpolates for a field. *)
Definition interp (v : option string) : string :=
  match v with
  | Some s => s
  | None => "undefined"
  end.

Definition is_whitespace (c : ascii) : bool :=
  let n := nat_of_ascii c in
  (n =? 32)%nat || ((9 <=? n)%nat && (n <=? 13)%nat).

Fixpoint trim_start (s : string) : string :=
  match s with
  | String c s' => if is_whitespace c then trim_start s' else s
  | EmptyString => EmptyString
  end.

(** Value of [c] as a digit in the given radix (10 or 16). *)
Definition digit_value (radix : Z) (c : ascii) : option Z :=
  let n := Z.of_nat (nat_of_ascii c) in
  let v :=
    if (48 <=? n)%Z && (n <=? 57)%Z then Some (n - 48)%Z
    else if (97 <=? n)%Z && (n <=? 122)%Z then Some (n - 87)%Z
    else if (65 <=? n)%Z && (n <=? 90)%Z then Some (n - 55)%Z
    else None in
  match v with
  | Some d => if (d <? radix)%Z then Some d else None
  | None => None
  end.

(** Longest prefix of digits; [acc] is [None] until a digit was read. *)
Fixpoint parse_digits (radix : Z) (s : string) (acc : option Z) : option Z :=
  match s with
  | EmptyString => acc
  | String c s' =>
      match digit_value radix c with
      | Some d => parse_digits radix s' (Some (default 0%Z acc * radix + d)%Z)
      | None => acc
      end
  end.

(** An optional sign, then an optional "0x" / "0X" prefix. *)
Definition split_sign (s : string) : Z * string :=
  match s with
  | String "-" r => ((-1)%Z, r)
  | String "+" r => (1%Z, r)
  | _ => (1%Z, s)
  end.

Definition split_radix (s : string) : Z * string :=
  match s with
  | String "0" (String "x" r) => (16%Z, r)
  | String "0" (String "X" r) => (16%Z, r)
  | _ => (10%Z, s)
  end.

(** [parseInt(s)] without a radix argument; [None] is [NaN]. *)
Definition parseInt (s : string) : option Z :=
  let '(sign, s2) := split_sign (trim_start s) in
  let '(radix, s3) := split_radix s2 in
  Z.mul sign <$> parse_digits radix s3 None.

(** [s.split(c)] for a one-character separator. *)
Fixpoint split (c : ascii) (s : string) : list string :=
  match s with
  | EmptyString => [EmptyString]
  | String a s' =>
      if Ascii.eqb a c then EmptyString :: split c s'
      else match split c s' with
           | w :: ws => String a w :: ws
           | [] => [String a EmptyString]
           end
  end.

End Str.

(** ** Module-level configuration *)

(** What the runtime does with a promise that is rejected while no
    handler is attached to it (the --unhandled-rejections mode). *)
Inductive rejections :=
| WarnOnUnhandled      (* default of Node.js 12 to 14: a warning, the run goes on *)
| ThrowOnUnhandled.    (* default of Node.js 15 and later: uncaught exception, exit code 1 *)

(** The environment variables the script reads, and the mode of the
    runtime it is started with. *)
Record process_env := {
  env_ENV : option string;
  env_FILE_PATH : option string;
  env_CONCURRENCY_LIMIT : option string;
  unhandled_rejections : rejections;
}.

(** [const ENV = process.env.ENV || "qa"] *)
Definition ENV (e : process_env) : string := Str.or_else (env_ENV e) "qa".

(** [const TABLE_NAME = `${ENV}-user`] *)
Definition TABLE_NAME (e : process_env) : string := ENV e +:+ "-user".

(** [const CONCURRENCY_LIMIT = parseInt(process.env.CONCURRENCY_LIMIT || "20")] *)
Definition CONCURRENCY_LIMIT (e : process_env) : option Z :=
  Str.parseInt (Str.or_else (env_CONCURRENCY_LIMIT e) "20").

(** [n >= limit] on JS numbers: false whenever [limit] is [NaN]. *)
Definition ge_number (n : nat) (limit : option Z) : bool :=
  match limit with
  | Some w => (w <=? Z.of_nat n)%Z
  | None => false
  end.

(** ** Rows and the classifier *)

Record row := {
  suid : option string;
  zid : option string;
  sourceApp : option string;
}.

Definition getOsFromSourceApp (sourceApp : string) : option string :=
  let sourceApp := Str.toLowerCase sourceApp in
  if Str.includes sourceApp "mac" then Some "Mac"
  else if Str.includes sourceApp "windows" then Some "Windows"
  else None.

Definition isValidRow (r : row) : bool :=
  Str.truthy (suid r) && Str.truthy (zid r) && Str.truthy (sourceApp r).

(** ** The external store

    The table behind [docClient.update] is outside the script.  It is
    modelled as DynamoDB's [UpdateItem] as far as the script uses it: an
    update expression made of [SET] actions whose operands are
    placeholders, applied to the item with the given key (created with
    its key attributes when absent), no condition expression. *)

Module Dynamo.

Record update_params := {
  TableName : string;
  Key : string * string;                          (* pk, sk *)
  UpdateExpression : string;
  ExpressionAttributeNames : gmap string string;
  ExpressionAttributeValues : gmap string string;
}.

(** Items are attribute maps; the store maps (table, (pk, sk)) to items. *)
Abbreviation item := (gmap string string).
Abbreviation store := (gmap (string * (string * string)) (gmap string string)).

Fixpoint strip_comma (s : string) : string :=
  match s with
  | EmptyString => EmptyString
  | String "," EmptyString => EmptyString
  | String c s' => String c (strip_comma s')
  end.

Fixpoint parse_set_clauses (toks : list string) : option (list (string * string)) :=
  match toks with
  | [] => Some []
  | lhs :: eq :: rhs :: rest =>
      if String.eqb eq "=" then cons (lhs, strip_comma rhs) <$> parse_set_clauses rest
      else None
  | _ => None
  end.

Definition parse_update_expression (e : string) : option (list (string * string)) :=
  match Str.split " " e with
  | kw :: toks => if String.eqb kw "SET" then parse_set_clauses toks else None
  | [] => None
  end.

Definition resolve (p : update_params) (c : string * string) : option (string * string) :=
  n ← ExpressionAttributeNames p !! c.1;
  v ← ExpressionAttributeValues p !! c.2;
  Some (n, v).

Definition key_item (k : string * string) : item :=
  <["pk" := k.1]> (<["sk" := k.2]> ∅).

Definition assign (it : item) (c : string * string) : item := <[c.1 := c.2]> it.

(** The stored state after a successful [update(p)]; [None] when the
    request is malformed (the store answers with a validation error). *)
Definition update (p : update_params) (db : store) : option store :=
  clauses ← parse_update_expression (UpdateExpression p);
  sets ← mapM (resolve p) clauses;
  let k := (TableName p, Key p) in
  let old := default (key_item (Key p)) (db !! k) in
  Some (<[k := foldl assign old sets]> db).

End Dynamo.

(** ** Observable output *)

Inductive level := INFO | WARN | ERROR.

#[global] Instance level_eq_dec : EqDecision level.
Proof. solve_decision. Defined.

Inductive message :=
| MsgProcessing (suid zid sourceApp : string)  (* Processing suid=.., zid=.., sourceApp=.. *)
| MsgSkipping (suid zid : string)     (* Skipping update for suid=.., zid=.. as name already includes OS *)
| MsgNoOs (suid zid : string)         (* No OS detected for suid=.., zid=.. *)
| MsgMissing (r : row)                (* Skipping record with missing data: .. *)
| MsgProgress (n : nat)               (* Processed n records *)
| MsgCsvComplete (processed updated : nat) (* CSV complete: Processed .., Updated .. *)
| MsgNotFound (path : string)         (* CSV file not found: .. *)
| MsgStarting (table path : string)   (* Starting process with table .. and file .. *)
| MsgSummary                          (* Process summary: *)
| MsgTotalProcessed (n : nat)         (*   - Total records processed from CSV: .. *)
| MsgTotalUpdated (n : nat)           (*   - Total records updated: .. *)
| MsgSetSize (n : nat)                (* Processed devices in set :: .. *)
| MsgExecutionTime                    (* Execution time: .. seconds *)
| MsgUnhandled.                       (* Unhandled exception: *)

Inductive output :=
| Log (l : level) (m : message)            (* logger.info / warn / error *)
| Update (p : Dynamo.update_params).       (* docClient.update(p).promise() *)

(** ** Promises held in [batch] *)

Inductive promise :=
| Pending (p : Dynamo.update_params) (zid : string)
    (* processRow is suspended at [await updateItemWithOs(..)] *)
| Fulfilled (updated : bool)               (* resolved with { updated } *)
| Rejected.                                (* the update threw *)

Definition is_pending (t : promise) : bool :=
  match t with Pending _ _ => true | _ => false end.

(** [res.status === "fulfilled" && res.value.updated] *)
Definition counts_as_updated (t : promise) : bool :=
  match t with Fulfilled true => true | _ => false end.

(** Where the main coroutine is suspended. *)
Inductive control :=
| Reading                 (* at [for await (const row of input)] *)
| Settling                (* at [await Promise.allSettled(batch)] inside the loop *)
| Flushing                (* at [await Promise.allSettled(batch)] after the loop *)
| Exited (code : nat).    (* process.exit(code) *)

Record state := {
  processedDevices : gset string;
  db : gmap (string * (string * string)) (gmap string string);
  batch : list promise;
  processedCount : nat;
  updatedCount : nat;
  pc : control;
  trace : list output;     (* oldest first *)
}.

Definition emit (o : output) (st : state) : state :=
  {| processedDevices := processedDevices st; db := db st; batch := batch st;
     processedCount := processedCount st; updatedCount := updatedCount st;
     pc := pc st; trace := trace st ++ [o] |}.

Definition set_pc (c : control) (st : state) : state :=
  {| processedDevices := processedDevices st; db := db st; batch := batch st;
     processedCount := processedCount st; updatedCount := updatedCount st;
     pc := c; trace := trace st |}.

Definition set_batch (b : list promise) (st : state) : state :=
  {| processedDevices := processedDevices st; db := db st; batch := b;
     processedCount := processedCount st; updatedCount := updatedCount st;
     pc := pc st; trace := trace st |}.

Definition set_counts (p u : nat) (st : state) : state :=
  {| processedDevices := processedDevices st; db := db st; batch := batch st;
     processedCount := p; updatedCount := u;
     pc := pc st; trace := trace st |}.

Definition set_store (d : gmap (string * (string * string)) (gmap string string))
    (s : gset string) (st : state) : state :=
  {| processedDevices := s; db := d; batch := batch st;
     processedCount := processedCount st; updatedCount := updatedCount st;
     pc := pc st; trace := trace st |}.

(** Number of store updates sent and not yet answered. *)
Definition outstanding (st : state) : nat :=
  length (filter (λ t, is_pending t = true) (batch st)).

(** The store calls made so far, in order. *)
Definition calls (tr : list output) : list Dynamo.update_params :=
  omap (λ o, match o with Update p => Some p | Log _ _ => None end) tr.

(** ** The pipeline *)

(** What the event loop can deliver to the script. *)
Inductive event :=
| RowRead (r : row)                 (* the CSV stream yields a row *)
| StreamEnd                         (* the CSV stream is exhausted *)
| StreamError                       (* the CSV stream throws *)
| StoreReply (i : nat) (ok : bool)  (* the update of batch[i] succeeds / throws *)
| AllSettled.                       (* Promise.allSettled(batch) resolves *)

Section Pipeline.

Variable e : process_env.

Definition shouldUpdateItem (st : state) (zid : string) : bool :=
  negb (bool_decide (zid ∈ processedDevices st)).

(** The request [updateItemWithOs] builds. *)
Definition updateParams (suid zid osValue : string) : Dynamo.update_params :=
  let newName := "Desktop Agent (" +:+ osValue +:+ ")" in
  {| Dynamo.TableName := TABLE_NAME e;
     Dynamo.Key := (suid, "device#" +:+ zid);
     Dynamo.UpdateExpression := "SET #name = :name, #os = :os";
     Dynamo.ExpressionAttributeNames := <["#name" := "name"]> (<["#os" := "os"]> ∅);
     Dynamo.ExpressionAttributeValues :=
       <[":name" := newName]> (<[":os" := Str.toLowerCase osValue]> ∅) |}.

(** [updateItemWithOs] up to its [await]: the request is sent. *)
Definition updateItemWithOs (suid zid osValue : string) (st : state) : state :=
  emit (Update (updateParams suid zid osValue)) st.

(** [processRow] up to its first suspension: the new state and the
    promise it returns.  Only called on rows that passed [isValidRow],
    whose three fields are strings. *)
Definition processRow (r : row) (st : state) : state * promise :=
  let suid := Str.interp (suid r) in
  let zid := Str.interp (zid r) in
  let sourceApp := Str.interp (sourceApp r) in
  let st := emit (Log INFO (MsgProcessing suid zid sourceApp)) st in
  if negb (shouldUpdateItem st zid) then
    (emit (Log INFO (MsgSkipping suid zid)) st, Fulfilled false)
  else
    match getOsFromSourceApp sourceApp with
    | None => (emit (Log INFO (MsgNoOs suid zid)) st, Fulfilled false)
    | Some osValue =>
        (updateItemWithOs suid zid osValue st,
         Pending (updateParams suid zid osValue) zid)
    end.

(** [processRow] resumed after the [await]: [processedDevices.add(zid)]
    and [return { updated: true }] when the update succeeded, a rejected
    promise when it threw. *)
Definition resume (i : nat) (ok : bool) (st : state) : option state :=
  match batch st !! i with
  | Some (Pending p zid) =>
      if ok then
        db' ← Dynamo.update p (db st);
        Some (set_batch (<[i := Fulfilled true]> (batch st))
                (set_store db' ({[zid]} ∪ processedDevices st) st))
      else Some (set_batch (<[i := Rejected]> (batch st)) st)
  | _ => None
  end.

(** [results.forEach(res => { if (..) updatedCount++ })] *)
Definition count_results (st : state) : state :=
  set_counts (processedCount st)
    (updatedCount st + length (filter (λ t, counts_as_updated t = true) (batch st))) st.

(** [if (processedCount % 1000 === 0) logger.info(..)] *)
Definition log_progress (st : state) : state :=
  if (processedCount st mod 1000 =? 0)%nat
  then emit (Log INFO (MsgProgress (processedCount st))) st
  else st.

(** The end of [processCsvFile] and the rest of [main]. *)
Definition finish (st : state) : state :=
  let st := emit (Log INFO (MsgCsvComplete (processedCount st) (updatedCount st))) st in
  let st := emit (Log INFO MsgSummary) st in
  let st := emit (Log INFO (MsgTotalProcessed (processedCount st))) st in
  let st := emit (Log INFO (MsgTotalUpdated (updatedCount st))) st in
  let st := emit (Log INFO (MsgSetSize (size (processedDevices st)))) st in
  let st := emit (Log INFO MsgExecutionTime) st in
  set_pc (Exited 0) st.

(** One loop iteration of [processCsvFile] up to its next suspension. *)
Definition on_row (r : row) (st : state) : state :=
  let st := set_counts (S (processedCount st)) (updatedCount st) st in
  if negb (isValidRow r) then emit (Log WARN (MsgMissing r)) st
  else
    let '(st, p) := processRow r st in
    let st := set_batch (batch st ++ [p]) st in
    if ge_number (length (batch st)) (CONCURRENCY_LIMIT e)
    then set_pc Settling st
    else log_progress st.

(** The store answers the update of [batch[i]].  While the main coroutine
    waits for the next row, [Promise.allSettled] has not been called on
    the promises of [batch] and nothing else handles them: a rejection
    at that point is unhandled, and a runtime that throws on unhandled
    rejections ends the process with exit code 1, nothing more being
    logged.  Once the main coroutine awaits [Promise.allSettled(batch)]
    every promise of [batch] has a handler. *)
Definition reply (i : nat) (ok : bool) (st : state) : option state :=
  st' ← resume i ok st;
  match pc st, ok, unhandled_rejections e with
  | Reading, false, ThrowOnUnhandled => Some (set_pc (Exited 1) st')
  | _, _, _ => Some st'
  end.

Definition step (st : state) (ev : event) : option state :=
  match pc st, ev with
  | Exited _, _ => None
  | _, StoreReply i ok => reply i ok st
  | Reading, RowRead r => Some (on_row r st)
  | Reading, StreamEnd =>
      if (0 <? length (batch st))%nat then Some (set_pc Flushing st)
      else Some (finish st)
  | Reading, StreamError =>
      Some (set_pc (Exited 1) (emit (Log ERROR MsgUnhandled) st))
  | Settling, AllSettled =>
      if (outstanding st =? 0)%nat
      then Some (log_progress (set_pc Reading (set_batch [] (count_results st))))
      else None
  | Flushing, AllSettled =>
      if (outstanding st =? 0)%nat then Some (finish (count_results st)) else None
  | _, _ => None
  end.

Fixpoint run (st : state) (evs : list event) : option state :=
  match evs with
  | [] => Some st
  | ev :: evs' => st' ← step st ev; run st' evs'
  end.

(** [main] up to [processCsvFile]'s first suspension. *)
Definition main (existsSync : string → bool)
    (db0 : gmap (string * (string * string)) (gmap string string)) : state :=
  let csvFilePath := Str.or_else (env_FILE_PATH e) "./logs-insights-results.csv" in
  let st0 := {| processedDevices := ∅; db := db0; batch := [];
                processedCount := 0; updatedCount := 0; pc := Reading; trace := [] |} in
  if negb (existsSync csvFilePath)
  then set_pc (Exited 1) (emit (Log ERROR (MsgNotFound csvFilePath)) st0)
  else emit (Log INFO (MsgStarting (TABLE_NAME e) csvFilePath)) st0.

End Pipeline.

(** ** Schedules and sample data *)

Section Schedules.

Variable e : process_env.

(** The last promise pushed is still waiting for the store. *)
Definition last_is_pending (st : state) : bool :=
  match last (batch st) with
  | Some t => is_pending t
  | None => false
  end.

(** The schedule in which the store answers every update before the next
    row is read: the boolean paired with a row says whether its update
    (if the row leads to one) succeeds. *)
Fixpoint eager (st : state) (rows : list (row * bool)) : list event :=
  match rows with
  | [] => StreamEnd :: (if (0 <? length (batch st))%nat then [AllSettled] else [])
  | (r, ok) :: rest =>
      let st1 := on_row e r st in
      let reply :=
        if isValidRow r && last_is_pending st1
        then [StoreReply (length (batch st1) - 1) ok] else [] in
      let st2 := default st1 (run e st1 reply) in
      let settle := match pc st2 with Settling => [AllSettled] | _ => [] end in
      let st3 := default st2 (run e st2 settle) in
      RowRead r :: reply ++ settle ++ eager st3 rest
  end.

(** The replies to the updates of [b] that still wait for the store,
    oldest first, where [b] starts at index [k] of the batch; the store
    fails the requests that [fails] selects. *)
Fixpoint answers (fails : Dynamo.update_params → bool) (k : nat) (b : list promise)
    : list event :=
  match b with
  | [] => []
  | Pending p _ :: b' => StoreReply k (negb (fails p)) :: answers fails (S k) b'
  | _ :: b' => answers fails (S k) b'
  end.

(** The schedule in which the store answers only while the script waits
    in [Promise.allSettled]: the updates of a window are answered once
    the window is full, those of the last window after the end of the
    stream. *)
Fixpoint windowed (fails : Dynamo.update_params → bool) (st : state) (rows : list row)
    : list event :=
  match rows with
  | [] =>
      StreamEnd :: (if (0 <? length (batch st))%nat
                    then answers fails 0 (batch st) ++ [AllSettled] else [])
  | r :: rest =>
      let st1 := on_row e r st in
      let settle := match pc st1 with
                    | Settling => answers fails 0 (batch st1) ++ [AllSettled]
                    | _ => []
                    end in
      let st2 := default st1 (run e st1 settle) in
      RowRead r :: settle ++ windowed fails st2 rest
  end.

End Schedules.

(** A row leads to a store update when nothing has been marked yet. *)
Definition classifiable (r : row) : bool :=
  isValidRow r && bool_decide (getOsFromSourceApp (Str.interp (sourceApp r)) ≠ None).

(** A value of the CONCURRENCY_LIMIT variable that is set and does not
    start (after blanks and a sign) with a decimal digit. *)
Definition non_numeric (s : string) : bool :=
  match s with
  | EmptyString => false
  | _ =>
      match (Str.split_sign (Str.trim_start s)).2 with
      | EmptyString => true
      | String c _ => negb (bool_decide (is_Some (Str.digit_value 10 c)))
      end
  end.

Definition mk_row (s z a : string) : row :=
  {| suid := Some s; zid := Some z; sourceApp := Some a |}.

(** No variable set, on a runtime that warns about unhandled rejections. *)
Definition env_default : process_env :=
  {| env_ENV := None; env_FILE_PATH := None; env_CONCURRENCY_LIMIT := None;
     unhandled_rejections := WarnOnUnhandled |}.

Definition env_limit (w : string) : process_env :=
  {| env_ENV := None; env_FILE_PATH := None; env_CONCURRENCY_LIMIT := Some w;
     unhandled_rejections := WarnOnUnhandled |}.

(** No variable set, on a runtime that throws on unhandled rejections. *)
Definition env_throw : process_env :=
  {| env_ENV := None; env_FILE_PATH := None; env_CONCURRENCY_LIMIT := None;
     unhandled_rejections := ThrowOnUnhandled |}.

Definition file_present (path : string) : bool := true.
Definition file_absent (path : string) : bool := false.

(** Three Mac rows, two Windows rows, one unknown source, one row with an
    empty suid, and a second row for the first device. *)
Definition scenario_rows : list row :=
  [ mk_row "u1" "z1" "mac"; mk_row "u2" "z2" "MacOS 14"; mk_row "u3" "z3" "agent-Mac";
    mk_row "u4" "z4" "windows"; mk_row "u5" "z5" "Windows 11";
    mk_row "u6" "z6" "linux"; mk_row "" "z7" "mac"; mk_row "u1" "z1" "mac" ].

(** What the final log lines report: rows processed, rows updated. *)
Definition summary (st : state) : nat * nat := (processedCount st, updatedCount st).

Definition logged (l : level) (tr : list output) : list message :=
  omap (λ o, match o with Log l' m => if decide (l = l') then Some m else None | _ => None end) tr.

(** ** Predicates used in the statements *)

(** [sub] occurs somewhere inside [s]. *)
Definition occurs (sub s : string) : Prop :=
  ∃ pre post, s = pre +:+ sub +:+ post.

(** The script is suspended, not exited. *)
Definition running (st : state) : Prop :=
  pc st = Reading ∨ pc st = Settling ∨ pc st = Flushing.

(** A task the store can answer either way: its request is well formed. *)
Definition sendable (t : promise) : Prop :=
  match t with
  | Pending p _ => ∀ d, is_Some (Dynamo.update p d)
  | _ => True
  end.

(** What holds of the batch between steps when the limit is the number [W]. *)
Definition window_inv (W : Z) (st : state) : Prop :=
  (Z.of_nat (length (batch st)) ≤ Z.max W 1)%Z
  ∧ (pc st = Reading → batch st = [] ∨ (Z.of_nat (length (batch st)) < W)%Z)
  ∧ (pc st = Exited 0 → outstanding st = 0).

(** The rows a script delivers, in order. *)
Definition rows_of (evs : list event) : list row :=
  omap (λ ev, match ev with RowRead r => Some r | _ => None end) evs.

(** The scenario with every update still in flight when the stream ends
    (one window of the default size), all of them succeeding. *)
Definition scenario_in_flight : list event :=
  map RowRead scenario_rows
  ++ [StreamEnd; StoreReply 0 true; StoreReply 1 true; StoreReply 2 true;
      StoreReply 3 true; StoreReply 4 true; StoreReply 6 true; AllSettled].

Definition scenario_all_ok : list (row * bool) := map (λ r, (r, true)) scenario_rows.

(** ** Accounting over scripts *)

(** The store replies of a script that report success. *)
Definition is_success (ev : event) : bool :=
  match ev with StoreReply _ true => true | _ => false end.

Definition successes (evs : list event) : nat :=
  length (filter (λ ev, is_success ev = true) evs).

(** Promises of a batch that [results.forEach] will count. *)
Definition fulfilled_updates (b : list promise) : nat :=
  length (filter (λ t, counts_as_updated t = true) b).

(** The numbers of the "Processed n records" lines, in order. *)
Definition progress_lines (tr : list output) : list nat :=
  omap (λ o, match o with Log INFO (MsgProgress n) => Some n | _ => None end) tr.

(** A request as [processRow] sends them: for a row with a non-empty
    suid and zid, with an OS tag the classifier can return. *)
Definition row_request (e : process_env) (p : Dynamo.update_params) : Prop :=
  ∃ s z o, p = updateParams e s z o ∧ s ≠ "" ∧ z ≠ "" ∧ (o = "Mac" ∨ o = "Windows").

(** Every pending promise of the batch waits for a request that was sent
    for its zid. *)
Definition batch_requests (e : process_env) (st : state) : Prop :=
  ∀ i p z, batch st !! i = Some (Pending p z) →
    p ∈ calls (trace st) ∧ ∃ s o, p = updateParams e s z o.

(** ** The sequential script (process_device_names.js)

    The earlier version of the job reads each device before it updates
    it and awaits every store call in turn, inside a try/catch per row.
    Since nothing runs concurrently, a run is a fold over the rows; each
    row comes with what the store does for it: whether the [get] and the
    [update] (when reached) succeed or throw.  Attribute values are
    strings, as everywhere in this model. *)

Module Seq.

(** [const ENV = process.env.ENV || "dev"] *)
Definition ENV (e : process_env) : string := Str.or_else (env_ENV e) "dev".

(** [const TABLE_NAME = `${ENV}-user`] *)
Definition TABLE_NAME (e : process_env) : string := ENV e +:+ "-user".

Record get_params := {
  TableName : string;
  Key : string * string;                          (* pk, sk *)
  ProjectionExpression : string;
  ExpressionAttributeNames : gmap string string;
}.

(** The attribute names a projection expression lists: the parts between
    commas, without their leading blanks, placeholders resolved. *)
Definition projected (p : get_params) : list string :=
  omap (λ t, let t := Str.trim_start t in
             match t with
             | String "#" _ => ExpressionAttributeNames p !! t
             | _ => Some t
             end)
       (Str.split "," (ProjectionExpression p)).

(** [response.Item] of [docClient.get(p)]: the stored item restricted to
    the projected attributes, nothing when the key is absent. *)
Definition get (p : get_params)
    (db : gmap (string * (string * string)) (gmap string string))
    : option (gmap string string) :=
  filter (λ kv, kv.1 ∈ projected p) <$> db !! (TableName p, Key p).

Definition getParams (e : process_env) (suid zid : string) : get_params :=
  {| TableName := TABLE_NAME e;
     Key := (suid, "device#" +:+ zid);
     ProjectionExpression := "pk, sk, #name, recordType, #type, os";
     ExpressionAttributeNames := <["#name" := "name"]> (<["#type" := "type"]> ∅) |}.

Definition getDynamoDbItem (e : process_env) (suid zid : string)
    (db : gmap (string * (string * string)) (gmap string string))
    : option (gmap string string) :=
  get (getParams e suid zid) db.

(** [item.name && item.name.toLowerCase() === "desktop agent" &&
    !item.name.includes("Mac") && !item.name.includes("Windows")] *)
Definition shouldUpdateItem (item : gmap string string) : bool :=
  match item !! "name" with
  | Some n =>
      Str.truthy (Some n)
      && String.eqb (Str.toLowerCase n) "desktop agent"
      && negb (Str.includes n "Mac")
      && negb (Str.includes n "Windows")
  | None => false
  end.

(** The request of this script's [updateItemWithOs]: the os value is
    stored as the classifier returned it. *)
Definition updateParams (e : process_env) (suid zid osValue : string)
    : Dynamo.update_params :=
  let newName := "Desktop Agent (" +:+ osValue +:+ ")" in
  {| Dynamo.TableName := TABLE_NAME e;
     Dynamo.Key := (suid, "device#" +:+ zid);
     Dynamo.UpdateExpression := "SET #name = :name, #os = :os";
     Dynamo.ExpressionAttributeNames := <["#name" := "name"]> (<["#os" := "os"]> ∅);
     Dynamo.ExpressionAttributeValues :=
       <[":name" := newName]> (<[":os" := osValue]> ∅) |}.

Inductive message :=
| MsgMissing (r : row)                (* Skipping record with missing data: .. *)
| MsgProcessing (suid zid sourceApp : string)  (* Processing suid=.., zid=.., sourceApp=.. *)
| MsgNoItem (suid zid : string)       (* No matching item for suid=.., zid=.. *)
| MsgNoOs (suid zid : string)         (* No OS detected for suid=.., zid=.. *)
| MsgUpdating (suid zid newName : string) (* Updating suid=.., zid=.. with new name=.. *)
| MsgSkipping (suid zid : string)     (* Skipping update for .. as name already includes OS *)
| MsgRowError (suid zid : string)     (* Error processing suid=.., zid=.. *)
| MsgProgress (n : nat)               (* Processed n records *)
| MsgCsvComplete (processed updated : nat). (* CSV complete: Processed .., Updated .. *)

Inductive output :=
| Log (l : level) (m : message)
| Get (p : get_params)                     (* docClient.get(p).promise() *)
| Update (p : Dynamo.update_params).       (* docClient.update(p).promise() *)

Record state := {
  db : gmap (string * (string * string)) (gmap string string);
  processedCount : nat;
  updatedCount : nat;
  trace : list output;     (* oldest first *)
}.

Definition emit (o : output) (st : state) : state :=
  {| db := db st; processedCount := processedCount st;
     updatedCount := updatedCount st; trace := trace st ++ [o] |}.

(** [logProgressIfNeeded(processedCount)] *)
Definition logProgressIfNeeded (st : state) : state :=
  if (processedCount st mod 1000 =? 0)%nat
  then emit (Log INFO (MsgProgress (processedCount st))) st
  else st.

(** What the store does for one row. *)
Record replies := { get_ok : bool; update_ok : bool }.

(** One iteration of the loop of [processCsvFile]. *)
Definition process_row (e : process_env) (r : row) (o : replies) (st : state) : state :=
  let st := {| db := db st; processedCount := S (processedCount st);
               updatedCount := updatedCount st; trace := trace st |} in
  if negb (isValidRow r) then emit (Log WARN (MsgMissing r)) st
  else
    let suid := Str.interp (suid r) in
    let zid := Str.interp (zid r) in
    let sourceApp := Str.interp (sourceApp r) in
    let st := emit (Log INFO (MsgProcessing suid zid sourceApp)) st in
    let st := emit (Get (getParams e suid zid)) st in
    if negb (get_ok o)
    then logProgressIfNeeded (emit (Log ERROR (MsgRowError suid zid)) st)
    else
      match getDynamoDbItem e suid zid (db st) with
      | None => emit (Log INFO (MsgNoItem suid zid)) st
      | Some item =>
          if shouldUpdateItem item then
            match getOsFromSourceApp sourceApp with
            | None => emit (Log INFO (MsgNoOs suid zid)) st
            | Some osValue =>
                let p := updateParams e suid zid osValue in
                let st := emit (Log INFO (MsgUpdating suid zid
                                 ("Desktop Agent (" +:+ osValue +:+ ")"))) st in
                let st := emit (Update p) st in
                match (if update_ok o then Dynamo.update p (db st) else None) with
                | Some db' =>
                    logProgressIfNeeded
                      {| db := db'; processedCount := processedCount st;
                         updatedCount := S (updatedCount st); trace := trace st |}
                | None =>
                    logProgressIfNeeded (emit (Log ERROR (MsgRowError suid zid)) st)
                end
            end
          else logProgressIfNeeded (emit (Log INFO (MsgSkipping suid zid)) st)
      end.

Fixpoint process_rows (e : process_env) (rows : list (row * replies)) (st : state) : state :=
  match rows with
  | [] => st
  | (r, o) :: rest => process_rows e rest (process_row e r o st)
  end.

(** [processCsvFile]: the loop, then [logCompletion]. *)
Definition processCsvFile (e : process_env) (rows : list (row * replies))
    (db0 : gmap (string * (string * string)) (gmap string string)) : state :=
  let st := process_rows e rows
              {| db := db0; processedCount := 0; updatedCount := 0; trace := [] |} in
  emit (Log INFO (MsgCsvComplete (processedCount st) (updatedCount st))) st.

(** The keys whose item would pass [shouldUpdateItem]. *)
Definition eligible (db : gmap (string * (string * string)) (gmap string string))
    : gmap (string * (string * string)) (gmap string string) :=
  filter (λ kv, shouldUpdateItem kv.2 = true) db.

Definition store_calls (tr : list output) : list Dynamo.update_params :=
  omap (λ o, match o with Update p => Some p | _ => None end) tr.

Definition errors (tr : list output) : list message :=
  omap (λ o, match o with Log ERROR m => Some m | _ => None end) tr.

Definition all_ok : replies := {| get_ok := true; update_ok := true |}.

End Seq.

(** The key a row addresses, and what makes the script update it. *)
Definition seq_key (e : process_env) (r : row) : string * (string * string) :=
  (Seq.TABLE_NAME e, (Str.interp (suid r), "device#" +:+ Str.interp (zid r))).

Definition seq_updatable (e : process_env)
    (db : gmap (string * (string * string)) (gmap string string)) (r : row) : Prop :=
  isValidRow r = true
  ∧ is_Some (getOsFromSourceApp (Str.interp (sourceApp r)))
  ∧ ∃ stored, db !! seq_key e r = Some stored ∧ Seq.shouldUpdateItem stored = true.

Definition seq_sample_db : gmap (string * (string * string)) (gmap string string) :=
  {[ ("dev-user", ("u1", "device#z1")) := {[ "name" := "Desktop Agent"; "type" := "desktop" ]};
     ("dev-user", ("u2", "device#z2")) := {[ "name" := "Phone" ]} ]}.

Definition seq_sample_rows : list row :=
  [ mk_row "u1" "z1" "mac"; mk_row "u2" "z2" "windows"; mk_row "u3" "z3" "mac";
    mk_row "u1" "z1" "windows" ].

(** ** The client provisioning script (migrate_client_credentials.mjs)

    The second of the two versions in the file: it lists the secrets,
    keeps the names that look like OAuth or basic-auth clients of the
    environment, and derives one client record from each name. *)

Module Clients.

Definition env : string := "qa".

Definition scopesMapper : gmap string (list string) :=
  <["scim" := ["scim.read"; "scim.write"; "scim.delete"] ]>
  (<["scim-readonly" := ["scim.read"] ]>
  (<["audit" := ["audit.read"; "audit.write"; "audit.delete"] ]>
  (<["ivr" := ["ivr.read"; "ivr.write"; "ivr.delete"] ]>
  (<["ldap" := ["ldap.read"; "ldap.write"; "ldap.delete"] ]> ∅)))).

Record client := {
  client_id : string;
  authMechanism : string;
  createDate : string;
  name : string;
  orgCode : string;
  scopes : list string;
  status : string;
}.

Inductive result :=
| Unsupported                       (* "unsupported client" is logged *)
| TypeError                         (* a property of undefined is read: the call throws *)
| MissingScopes (clientId : string) (* "Missing or invalid scopes for clientId: .." *)
| Created (c : client).             (* "client created", the counter is incremented *)

(** [createClient(secretName, authType)]; [now] stands for
    [new Date().toISOString()].  The PutItem command is built from the
    record but the line that sends it is commented out, so the result of
    a call is the record and the line it logs. *)
Definition createClient (now secretName authType : string) : result :=
  let splitted := Str.split "/" secretName in
  if (length splitted <? 3)%nat then Unsupported
  else
    let orgCode := Str.interp (splitted !! 2%nat) in
    let parsed : option (option string * string) :=
      if String.eqb authType "basic_auth" then
        match splitted !! 3%nat with
        | None => None
        | Some seg =>
            let service := if Str.includes seg "scim" then "scim" else "audit" in
            Some (Some service, orgCode +:+ "-apiuser-" +:+ service +:+ "-basic")
        end
      else
        match splitted !! 4%nat with
        | None => None
        | Some seg =>
            let service := Str.split "-" seg !! 2%nat in
            let service :=
              if Str.includes seg "readonly"
              then Some (Str.interp service +:+ "-readonly") else service in
            Some (service, seg +:+ "-oauth")
        end in
    match parsed with
    | None => TypeError
    | Some (service, clientId) =>
        match scopesMapper !! Str.interp service with
        | None => MissingScopes clientId
        | Some scopes =>
            Created {| client_id := clientId; authMechanism := authType;
                       createDate := now; name := clientId; orgCode := orgCode;
                       scopes := scopes; status := "ACTIVE" |}
        end
    end.

(** The loops of the main block over the two lists of names, inside its
    try/catch: what was created, the two counters, and whether a call
    threw (which ends the block). *)
Record outcome := {
  created : list client;
  oauthProcessed : nat;
  basicAuthProcessed : nat;
  threw : bool;
}.

Definition account (authType : string) (r : result) (o : outcome) : outcome :=
  match r with
  | Created c =>
      {| created := created o ++ [c];
         oauthProcessed :=
           if String.eqb authType "basic_auth" then oauthProcessed o
           else S (oauthProcessed o);
         basicAuthProcessed :=
           if String.eqb authType "basic_auth" then S (basicAuthProcessed o)
           else basicAuthProcessed o;
         threw := false |}
  | TypeError =>
      {| created := created o; oauthProcessed := oauthProcessed o;
         basicAuthProcessed := basicAuthProcessed o; threw := true |}
  | _ => o
  end.

Fixpoint create_all (now authType : string) (names : list string) (o : outcome) : outcome :=
  match names with
  | [] => o
  | n :: rest =>
      if threw o then o
      else create_all now authType rest (account authType (createClient now n authType) o)
  end.

Definition provision (now : string) (oauthClients basicAuthClients : list string) : outcome :=
  create_all now "basic_auth" basicAuthClients
    (create_all now "client_credentials" oauthClients
       {| created := []; oauthProcessed := 0; basicAuthProcessed := 0; threw := false |}).

(** One answer of [ListSecretsCommand]. *)
Record page := {
  SecretList : option (list string);     (* the names, when the field is there *)
  NextToken : option string;
}.

Record listing := {
  oauthClients : list string;
  basicAuthClients : list string;
  totalSecrets : nat;
}.

Definition select (names : list string) (l : listing) : listing :=
  {| oauthClients :=
       oauthClients l
       ++ List.filter (λ n, Str.includes n env && Str.includes n "/oauth/") names;
     basicAuthClients :=
       basicAuthClients l
       ++ List.filter (λ n, Str.includes n env && Str.includes n "BasicAuth") names;
     totalSecrets := totalSecrets l + length names |}.

(** [fetchClients] over the answers the service gives, in order; [None]
    when the answers run out while a next token is still pending. *)
Fixpoint fetchClients (pages : list page) (l : listing) : option listing :=
  match pages with
  | [] => None
  | p :: rest =>
      let l := select (default [] (SecretList p)) l in
      if Str.truthy (NextToken p) then fetchClients rest l else Some l
  end.

Definition no_listing : listing :=
  {| oauthClients := []; basicAuthClients := []; totalSecrets := 0 |}.

(** The main block: the listing, then the two loops.  [None] when the
    listing gets no final answer. *)
Definition main (now : string) (pages : list page) : option (listing * outcome) :=
  match fetchClients pages no_listing with
  | Some l => Some (l, provision now (oauthClients l) (basicAuthClients l))
  | None => None
  end.

End Clients.


(** The first version of the script in the same file: no test of the
    scopes, the record is only logged. *)
Module ClientsV1.

(** What [scopesMapper[service]] evaluates to.  [scopesMapper] is a plain
    object: besides its five own keys, the names of the members of
    [Object.prototype] give inherited values (functions, and the
    prototype itself for "__proto__"), none of which is an array; any
    other name gives [undefined]. *)
Inductive property :=
| Own (scopes : list string)
| Inherited (member : string)
| Undefined.

Definition object_prototype : list string :=
  ["constructor"; "hasOwnProperty"; "isPrototypeOf"; "propertyIsEnumerable";
   "toLocaleString"; "toString"; "valueOf"; "__proto__";
   "__defineGetter__"; "__defineSetter__"; "__lookupGetter__"; "__lookupSetter__"].

Definition get_scopes (service : string) : property :=
  match Clients.scopesMapper !! service with
  | Some scopes => Own scopes
  | None =>
      if bool_decide (service ∈ object_prototype) then Inherited service else Undefined
  end.

Record client := {
  client_id : string;
  authMechanism : string;
  createDate : string;
  name : string;
  orgCode : string;
  scopes : property;                  (* [scopesMapper[service]], whatever it is *)
  status : string;
}.

Inductive result :=
| Unsupported
| TypeError
| Logged (c : client).                (* the counter is incremented, the record logged *)

Definition createClient (now secretName authType : string) : result :=
  let splitted := Str.split "/" secretName in
  if (length splitted <? 3)%nat then Unsupported
  else
    let orgCode := Str.interp (splitted !! 2%nat) in
    let parsed : option (option string * string) :=
      if String.eqb authType "basic_auth" then
        match splitted !! 3%nat with
        | None => None
        | Some seg =>
            let service := if Str.includes seg "scim" then "scim" else "audit" in
            Some (Some service, orgCode +:+ "-apiuser-" +:+ service +:+ "-basic")
        end
      else
        match splitted !! 4%nat with
        | None => None
        | Some seg =>
            let service := Str.split "-" seg !! 2%nat in
            let service :=
              if Str.includes seg "readonly"
              then Some (Str.interp service +:+ "-readonly") else service in
            Some (service, seg +:+ "-oauth")
        end in
    match parsed with
    | None => TypeError
    | Some (service, clientId) =>
        Logged {| client_id := clientId; authMechanism := authType;
                  createDate := now; name := clientId; orgCode := orgCode;
                  scopes := get_scopes (Str.interp service);
                  status := "ACTIVE" |}
    end.

End ClientsV1.

(** The pages [fetchClients] reads: up to the first answer without a
    (non-empty) next token. *)
Fixpoint pages_read (pages : list Clients.page) : list Clients.page :=
  match pages with
  | [] => []
  | p :: rest => p :: (if Str.truthy (Clients.NextToken p) then pages_read rest else [])
  end.

Definition listed (pages : list Clients.page) : list string :=
  concat ((λ p, default [] (Clients.SecretList p)) <$> pages_read pages).

Definition is_oauth_name (n : string) : bool :=
  Str.includes n Clients.env && Str.includes n "/oauth/".
Definition is_basic_name (n : string) : bool :=
  Str.includes n Clients.env && Str.includes n "BasicAuth".

Definition full_scopes (s : string) : list string :=
  [s +:+ ".read"; s +:+ ".write"; s +:+ ".delete"].

Definition sample_pages : list Clients.page :=
  [ {| Clients.SecretList := Some ["qa/ten/dem/oauth/dem-apiuser-ldap"; "dev/ten/dem/oauth/x"];
       Clients.NextToken := Some "t1" |};
    {| Clients.SecretList := None; Clients.NextToken := Some "t2" |};
    {| Clients.SecretList := Some ["qa/ten/dem/auditLogBasicAuth"; "qa/oauth/BasicAuth"];
       Clients.NextToken := Some "" |};
    {| Clients.SecretList := Some ["qa/ten/zzz/oauth/never-read"]; Clients.NextToken := None |} ].

(** * Properties *)

(** ** Sample evaluations *)

Example parseInt_samples :
  map Str.parseInt ["20"; "  -7px"; "0x1F"; "abc"; ""; "0x"; "+"; "12abc"]
  = [Some 20%Z; Some (-7)%Z; Some 31%Z; None; None; None; None; Some 12%Z].
Proof. reflexivity. Qed.

Example getOs_samples :
  map getOsFromSourceApp ["mac"; "Windows"; "MacOS on windows"; "linux"; "WINDOWS 11"]
  = [Some "Mac"; Some "Windows"; Some "Mac"; None; Some "Windows"].
Proof. reflexivity. Qed.

Example split_sample : Str.split " " "SET #a = :a, #b = :b" = ["SET"; "#a"; "="; ":a,"; "#b"; "="; ":b"].
Proof. reflexivity. Qed.

(** ** Substring containment *)

Lemma app_nil_l_s (s : string) : "" +:+ s = s.
Proof. reflexivity. Qed.
Lemma app_cons_s c (a s : string) : String c a +:+ s = String c (a +:+ s).
Proof. reflexivity. Qed.

Lemma prefix_true_iff (a b : string) :
  String.prefix a b = true ↔ ∃ post, b = a +:+ post.
Proof.
  revert b. induction a as [|c a IH]; intros b.
  - split; [intros _; by exists b | by destruct b].
  - destruct b as [|d b]; simpl; [split; [done | by intros [? ?]] |].
    setoid_rewrite app_cons_s.
    destruct (Ascii.ascii_dec c d) as [->|Hne].
    + rewrite IH. split; intros [post Hp]; exists post; congruence.
    + split; [done | intros [post Hp]; congruence].
Qed.


Lemma includes_nil (sub : string) : Str.includes "" sub = String.prefix sub "".
Proof. cbn [Str.includes]. apply orb_false_r. Qed.
Lemma includes_cons c (s sub : string) :
  Str.includes (String c s) sub = String.prefix sub (String c s) || Str.includes s sub.
Proof. reflexivity. Qed.

Lemma includes_true_iff (s sub : string) :
  Str.includes s sub = true ↔ occurs sub s.
Proof.
  unfold occurs. induction s as [|c s IH].
  - rewrite includes_nil, prefix_true_iff. split.
    + intros [post Hp]. by exists EmptyString, post.
    + intros [[|d pre] [post Hp]]; [by exists post | done].
  - rewrite includes_cons, orb_true_iff, prefix_true_iff, IH. split.
    + intros [[post Hp] | (pre & post & Hp)].
      * by exists EmptyString, post.
      * exists (String c pre), post. rewrite app_cons_s. by rewrite Hp.
    + intros [[|d pre] [post Hp]].
      * left. by exists post.
      * right. exists pre, post. rewrite app_cons_s in Hp. congruence.
Qed.

Lemma includes_false_iff (s sub : string) :
  Str.includes s sub = false ↔ ¬ occurs sub s.
Proof. rewrite <- includes_true_iff. by destruct (Str.includes s sub). Qed.

(** ** The update request and its effect on the store *)

Lemma parse_SET_name_os :
  Dynamo.parse_update_expression "SET #name = :name, #os = :os"
  = Some [("#name", ":name"); ("#os", ":os")].
Proof. reflexivity. Qed.

Lemma resolve_name (e : process_env) (suid zid osValue : string) :
  Dynamo.resolve (updateParams e suid zid osValue) ("#name", ":name")
  = Some ("name", "Desktop Agent (" +:+ osValue +:+ ")").
Proof. unfold Dynamo.resolve, updateParams; simpl. by simplify_map_eq. Qed.

Lemma resolve_os (e : process_env) (suid zid osValue : string) :
  Dynamo.resolve (updateParams e suid zid osValue) ("#os", ":os")
  = Some ("os", Str.toLowerCase osValue).
Proof. unfold Dynamo.resolve, updateParams; simpl. by simplify_map_eq. Qed.

Lemma update_updateParams (e : process_env) (suid zid osValue : string)
    (db : gmap (string * (string * string)) (gmap string string)) :
  let k := (TABLE_NAME e, (suid, "device#" +:+ zid)) in
  Dynamo.update (updateParams e suid zid osValue) db
  = Some (<[k := <["os" := Str.toLowerCase osValue]>
                   (<["name" := "Desktop Agent (" +:+ osValue +:+ ")"]>
                      (default (Dynamo.key_item (suid, "device#" +:+ zid)) (db !! k)))]> db).
Proof.
  unfold Dynamo.update.
  change (Dynamo.UpdateExpression (updateParams e suid zid osValue))
    with "SET #name = :name, #os = :os".
  rewrite parse_SET_name_os. cbn [mbind option_bind mapM].
  rewrite resolve_name, resolve_os. reflexivity.
Qed.

Lemma update_twice (e : process_env) (suid zid osValue : string)
    (db db1 : gmap (string * (string * string)) (gmap string string)) :
  Dynamo.update (updateParams e suid zid osValue) db = Some db1 →
  Dynamo.update (updateParams e suid zid osValue) db1 = Some db1.
Proof.
  rewrite !update_updateParams. cbv zeta. intros [= <-].
  rewrite lookup_insert_eq. cbn [default].
  rewrite insert_insert_eq. f_equal. f_equal. unfold id.
  apply map_eq. intros a. rewrite !lookup_insert.
  repeat case_decide; congruence.
Qed.

(** ** Output of the synchronous pieces *)

Lemma calls_snoc_log (tr : list output) (l : level) (m : message) :
  calls (tr ++ [Log l m]) = calls tr.
Proof. unfold calls. rewrite omap_app. simpl. apply app_nil_r. Qed.

Lemma calls_snoc_update (tr : list output) (p : Dynamo.update_params) :
  calls (tr ++ [Update p]) = calls tr ++ [p].
Proof. unfold calls. by rewrite omap_app. Qed.

Lemma trace_log_progress (st : state) :
  calls (trace (log_progress st)) = calls (trace st).
Proof.
  unfold log_progress. destruct (_ =? _)%nat; [|done]. apply calls_snoc_log.
Qed.

Lemma outstanding_snoc (st : state) (b : list promise) (t : promise) :
  batch st = b ++ [t] →
  outstanding st = (length (filter (λ t, is_pending t = true) b)
                    + if is_pending t then 1 else 0)%nat.
Proof.
  unfold outstanding. intros ->. rewrite filter_app, length_app.
  destruct t as [p z|u|]; reflexivity.
Qed.

Section RowFacts.

Variable e : process_env.

Lemma processRow_marked (r : row) (st : state) :
  Str.interp (zid r) ∈ processedDevices st →
  processRow e r st
  = (emit (Log INFO (MsgSkipping (Str.interp (suid r)) (Str.interp (zid r))))
       (emit (Log INFO (MsgProcessing (Str.interp (suid r)) (Str.interp (zid r))
                          (Str.interp (sourceApp r)))) st),
     Fulfilled false).
Proof.
  intros Hin. unfold processRow, shouldUpdateItem. cbn [processedDevices emit].
  by rewrite bool_decide_eq_true_2.
Qed.

Lemma processRow_no_os (r : row) (st : state) :
  Str.interp (zid r) ∉ processedDevices st →
  getOsFromSourceApp (Str.interp (sourceApp r)) = None →
  processRow e r st
  = (emit (Log INFO (MsgNoOs (Str.interp (suid r)) (Str.interp (zid r))))
       (emit (Log INFO (MsgProcessing (Str.interp (suid r)) (Str.interp (zid r))
                          (Str.interp (sourceApp r)))) st),
     Fulfilled false).
Proof.
  intros Hin Hos. unfold processRow, shouldUpdateItem. cbn [processedDevices emit].
  rewrite bool_decide_eq_false_2 by done. cbn [negb]. by rewrite Hos.
Qed.

Lemma processRow_dispatch (r : row) (st : state) (osValue : string) :
  Str.interp (zid r) ∉ processedDevices st →
  getOsFromSourceApp (Str.interp (sourceApp r)) = Some osValue →
  processRow e r st
  = (updateItemWithOs e (Str.interp (suid r)) (Str.interp (zid r)) osValue
       (emit (Log INFO (MsgProcessing (Str.interp (suid r)) (Str.interp (zid r))
                          (Str.interp (sourceApp r)))) st),
     Pending (updateParams e (Str.interp (suid r)) (Str.interp (zid r)) osValue)
       (Str.interp (zid r))).
Proof.
  intros Hin Hos. unfold processRow, shouldUpdateItem. cbn [processedDevices emit].
  rewrite bool_decide_eq_false_2 by done. cbn [negb]. by rewrite Hos.
Qed.

(** The three ways [processRow] can go, as one case analysis. *)
Lemma processRow_cases (r : row) (st : state) :
  let z := Str.interp (zid r) in
  ((z ∈ processedDevices st) ∧ (processRow e r st).2 = Fulfilled false
     ∧ calls (trace (processRow e r st).1) = calls (trace st))
  ∨ ((z ∉ processedDevices st) ∧ getOsFromSourceApp (Str.interp (sourceApp r)) = None
     ∧ (processRow e r st).2 = Fulfilled false
     ∧ calls (trace (processRow e r st).1) = calls (trace st))
  ∨ (∃ osValue, (z ∉ processedDevices st)
     ∧ getOsFromSourceApp (Str.interp (sourceApp r)) = Some osValue
     ∧ (processRow e r st).2 = Pending (updateParams e (Str.interp (suid r)) z osValue) z
     ∧ calls (trace (processRow e r st).1)
       = calls (trace st) ++ [updateParams e (Str.interp (suid r)) z osValue]).
Proof.
  cbv zeta. destruct (decide (Str.interp (zid r) ∈ processedDevices st)) as [Hin|Hin].
  - left. rewrite processRow_marked by done. cbn [fst snd emit trace].
    by rewrite !calls_snoc_log.
  - right. destruct (getOsFromSourceApp (Str.interp (sourceApp r))) as [o|] eqn:Hos.
    + right. exists o. rewrite (processRow_dispatch _ _ o) by done.
      cbn [fst snd emit trace updateItemWithOs].
      by rewrite calls_snoc_update, calls_snoc_log.
    + left. rewrite processRow_no_os by done. cbn [fst snd emit trace].
      by rewrite !calls_snoc_log.
Qed.

Lemma processRow_fields (r : row) (st : state) :
  processedDevices (processRow e r st).1 = processedDevices st
  ∧ db (processRow e r st).1 = db st
  ∧ batch (processRow e r st).1 = batch st
  ∧ processedCount (processRow e r st).1 = processedCount st
  ∧ updatedCount (processRow e r st).1 = updatedCount st
  ∧ pc (processRow e r st).1 = pc st.
Proof.
  unfold processRow. destruct (negb _); [done|].
  by destruct (getOsFromSourceApp _).
Qed.

End RowFacts.

Section StepFacts.

Variable e : process_env.

(** What one loop iteration does to every component of the state. *)
Lemma on_row_spec (r : row) (st : state) :
  let st' := on_row e r st in
  let z := Str.interp (zid r) in
  let s := Str.interp (suid r) in
  processedDevices st' = processedDevices st ∧ db st' = db st
  ∧ processedCount st' = S (processedCount st) ∧ updatedCount st' = updatedCount st
  ∧ ((isValidRow r = false ∧ batch st' = batch st ∧ pc st' = pc st
      ∧ calls (trace st') = calls (trace st))
     ∨ (isValidRow r = true
        ∧ pc st' = (if ge_number (S (length (batch st))) (CONCURRENCY_LIMIT e)
                    then Settling else pc st)
        ∧ (((z ∈ processedDevices st) ∧ batch st' = batch st ++ [Fulfilled false]
            ∧ calls (trace st') = calls (trace st))
           ∨ ((z ∉ processedDevices st)
              ∧ getOsFromSourceApp (Str.interp (sourceApp r)) = None
              ∧ batch st' = batch st ++ [Fulfilled false]
              ∧ calls (trace st') = calls (trace st))
           ∨ (∃ o, (z ∉ processedDevices st)
              ∧ getOsFromSourceApp (Str.interp (sourceApp r)) = Some o
              ∧ batch st' = batch st ++ [Pending (updateParams e s z o) z]
              ∧ calls (trace st') = calls (trace st) ++ [updateParams e s z o])))).
Proof.
  cbv zeta. unfold on_row.
  set (st1 := set_counts (S (processedCount st)) (updatedCount st) st).
  destruct (isValidRow r) eqn:Hv; cbn [negb]; last first.
  { cbn. repeat split; try done. left. repeat split; try done. apply calls_snoc_log. }
  destruct (processRow_fields e r st1) as (Hd & Hdb & Hb & Hpc & Huc & Hc).
  pose proof (processRow_cases e r st1) as Hcases. cbv zeta in Hcases.
  destruct (processRow e r st1) as [st2 p] eqn:Hpr. cbn [fst snd] in *.
  assert (Hlen : length (batch (set_batch (batch st2 ++ [p]) st2)) = S (length (batch st))).
  { cbn [set_batch batch]. rewrite Hb, length_app. cbn. lia. }
  rewrite Hlen.
  assert (Hfields : ∀ st3,
    st3 = (if ge_number (S (length (batch st))) (CONCURRENCY_LIMIT e)
           then set_pc Settling (set_batch (batch st2 ++ [p]) st2)
           else log_progress (set_batch (batch st2 ++ [p]) st2)) →
    processedDevices st3 = processedDevices st ∧ db st3 = db st
    ∧ processedCount st3 = S (processedCount st) ∧ updatedCount st3 = updatedCount st
    ∧ batch st3 = batch st ++ [p]
    ∧ calls (trace st3) = calls (trace st2)
    ∧ pc st3 = (if ge_number (S (length (batch st))) (CONCURRENCY_LIMIT e)
                then Settling else pc st)).
  { intros st3 ->. destruct (ge_number _ _).
    - cbn. by rewrite Hd, Hdb, Hb, Hpc, Huc.
    - unfold log_progress. destruct (_ =? _)%nat; cbn;
        rewrite ?calls_snoc_log; by rewrite Hd, Hdb, Hb, Hpc, Huc, Hc. }
  destruct (Hfields _ eq_refl) as (F1 & F2 & F3 & F4 & F5 & F6 & F7).
  repeat split; try done. right. repeat split; try done.
  destruct Hcases as [(Hin & -> & Hcalls) | [(Hin & Hos & -> & Hcalls) | (o & Hin & Hos & -> & Hcalls)]].
  - left. repeat split; try done. by rewrite F6, Hcalls.
  - right; left. repeat split; try done. by rewrite F6, Hcalls.
  - right; right. exists o. repeat split; try done. by rewrite F6, Hcalls.
Qed.

Lemma run_app (st : state) (a b : list event) :
  run e st (a ++ b) = run e st a ≫= λ st', run e st' b.
Proof.
  revert st. induction a as [|ev a IH]; intros st; [done|].
  cbn [run app]. destruct (step e st ev) as [st'|]; [apply IH | done].
Qed.

(** A property kept by every step holds after every run. *)
Lemma run_preserves (P : state → Prop) :
  (∀ st ev st', P st → step e st ev = Some st' → P st') →
  ∀ evs st st', P st → run e st evs = Some st' → P st'.
Proof.
  intros Hstep evs. induction evs as [|ev evs IH]; intros st st' HP Hrun.
  - by injection Hrun as <-.
  - cbn [run] in Hrun. destruct (step e st ev) as [st1|] eqn:Hs; [|done].
    eapply IH; [|exact Hrun]. eauto.
Qed.

Lemma step_exited (c : nat) (st : state) (ev : event) :
  pc st = Exited c → step e st ev = None.
Proof. intros H. unfold step. by rewrite H. Qed.

Lemma run_exited (c : nat) (st st' : state) (evs : list event) :
  pc st = Exited c → run e st evs = Some st' → evs = [] ∧ st' = st.
Proof.
  intros H. destruct evs as [|ev evs]; cbn [run].
  - by intros [= <-].
  - by rewrite (step_exited c).
Qed.

(** [resume] spelled out for both outcomes. *)
Lemma resume_spec (i : nat) (ok : bool) (st st' : state) :
  resume i ok st = Some st' →
  ∃ p z, batch st !! i = Some (Pending p z)
  ∧ pc st' = pc st ∧ trace st' = trace st
  ∧ processedCount st' = processedCount st ∧ updatedCount st' = updatedCount st
  ∧ (if ok
     then Dynamo.update p (db st) = Some (db st')
          ∧ processedDevices st' = {[z]} ∪ processedDevices st
          ∧ batch st' = <[i := Fulfilled true]> (batch st)
     else db st' = db st ∧ processedDevices st' = processedDevices st
          ∧ batch st' = <[i := Rejected]> (batch st)).
Proof.
  unfold resume. destruct (batch st !! i) as [[p z|u|]|] eqn:Hi; try done.
  intros H. exists p, z. split; [done|]. destruct ok.
  - destruct (Dynamo.update p (db st)) as [db'|] eqn:Hu; [|done].
    cbn in H. injection H as <-. by cbn.
  - injection H as <-. by cbn.
Qed.

(** [reply] is [resume], except that an unhandled rejection may end the
    process. *)
Lemma reply_spec (i : nat) (ok : bool) (st st' : state) :
  reply e i ok st = Some st' →
  ∃ p z, batch st !! i = Some (Pending p z)
  ∧ (pc st' = pc st
     ∨ (pc st = Reading ∧ ok = false
        ∧ unhandled_rejections e = ThrowOnUnhandled ∧ pc st' = Exited 1))
  ∧ trace st' = trace st
  ∧ processedCount st' = processedCount st ∧ updatedCount st' = updatedCount st
  ∧ (if ok
     then Dynamo.update p (db st) = Some (db st')
          ∧ processedDevices st' = {[z]} ∪ processedDevices st
          ∧ batch st' = <[i := Fulfilled true]> (batch st)
     else db st' = db st ∧ processedDevices st' = processedDevices st
          ∧ batch st' = <[i := Rejected]> (batch st)).
Proof.
  unfold reply. destruct (resume i ok st) as [st1|] eqn:Hr; [|done].
  destruct (resume_spec _ _ _ _ Hr) as (p & z & Hi & Hpc & Htr & Hn & Hu & Hok).
  cbn [mbind option_bind]. intros H. exists p, z. split; [done|].
  destruct (pc st) eqn:Hp; destruct ok; destruct (unhandled_rejections e) eqn:Hm;
    injection H as <-; cbn [set_pc pc trace processedCount updatedCount db
                            processedDevices batch];
    (split; [first [by left | right; done]|]); done.
Qed.

(** A reply that is not an unhandled rejection is [resume]. *)
Lemma reply_handled (i : nat) (ok : bool) (st : state) :
  pc st ≠ Reading ∨ ok = true ∨ unhandled_rejections e = WarnOnUnhandled →
  reply e i ok st = resume i ok st.
Proof.
  unfold reply. destruct (resume i ok st) as [st1|]; [|done]. cbn [mbind option_bind].
  destruct (pc st), ok, (unhandled_rejections e); try done.
  by intros [?|[?|?]].
Qed.

(** An unhandled rejection on a runtime that throws. *)
Lemma reply_unhandled (i : nat) (st : state) :
  pc st = Reading → unhandled_rejections e = ThrowOnUnhandled →
  reply e i false st = set_pc (Exited 1) <$> resume i false st.
Proof.
  intros Hp Hm. unfold reply. rewrite Hp, Hm.
  by destruct (resume i false st).
Qed.

End StepFacts.

(** ** The OS classifier (C6) *)

Lemma on_row_no_os_logged (e : process_env) (r : row) (st : state) :
  isValidRow r = true →
  Str.interp (zid r) ∉ processedDevices st →
  getOsFromSourceApp (Str.interp (sourceApp r)) = None →
  Log INFO (MsgNoOs (Str.interp (suid r)) (Str.interp (zid r))) ∈ trace (on_row e r st).
Proof.
  intros Hv Hz Hos. unfold on_row. rewrite Hv. cbn [negb].
  rewrite processRow_no_os by done.
  destruct (ge_number _ _); [cbn; set_solver|].
  unfold log_progress. destruct (_ =? _)%nat; cbn; set_solver.
Qed.

(** C6: the classifier answers "Mac" when the lowercased source contains
    "mac", otherwise "Windows" when it contains "windows", otherwise
    nothing (so "Mac" wins when both occur); a valid row for which it
    answers nothing leads to no store call: the row's promise is fulfilled
    with [updated = false], the store is untouched, and "No OS detected"
    is logged. *)
Theorem classifier_rule_order (e : process_env) (a : string) :
  (occurs "mac" (Str.toLowerCase a) → getOsFromSourceApp a = Some "Mac")
  ∧ (¬ occurs "mac" (Str.toLowerCase a) → occurs "windows" (Str.toLowerCase a) →
     getOsFromSourceApp a = Some "Windows")
  ∧ (¬ occurs "mac" (Str.toLowerCase a) → ¬ occurs "windows" (Str.toLowerCase a) →
     getOsFromSourceApp a = None)
  ∧ (getOsFromSourceApp a = None →
     ∀ (r : row) (st : state), isValidRow r = true → sourceApp r = Some a →
       calls (trace (on_row e r st)) = calls (trace st)
       ∧ db (on_row e r st) = db st
       ∧ batch (on_row e r st) = batch st ++ [Fulfilled false]
       ∧ (Str.interp (zid r) ∉ processedDevices st →
          Log INFO (MsgNoOs (Str.interp (suid r)) (Str.interp (zid r)))
            ∈ trace (on_row e r st))).
Proof.
  split; [|split; [|split]].
  - unfold getOsFromSourceApp. intros H%includes_true_iff. by rewrite H.
  - unfold getOsFromSourceApp.
    intros Hm%includes_false_iff Hw%includes_true_iff. by rewrite Hm, Hw.
  - unfold getOsFromSourceApp.
    intros Hm%includes_false_iff Hw%includes_false_iff. by rewrite Hm, Hw.
  - intros Hnone r st Hv Ha.
    assert (Hos : getOsFromSourceApp (Str.interp (sourceApp r)) = None)
      by (by rewrite Ha).
    destruct (on_row_spec e r st) as (_ & Hdb & _ & _ & [(Hv' & _) | (_ & _ & Hc)]);
      [congruence|].
    destruct Hc as [(_ & Hb & Hc) | [(_ & _ & Hb & Hc) | (o & _ & Ho & _)]];
      [| | congruence].
    + repeat split; try done. intros Hz. by apply on_row_no_os_logged.
    + repeat split; try done. intros Hz. by apply on_row_no_os_logged.
Qed.

Lemma classifier_rule_order_witness :
  getOsFromSourceApp "MacOS on Windows" = Some "Mac"
  ∧ getOsFromSourceApp "WINDOWS 11" = Some "Windows"
  ∧ calls (trace (on_row env_default (mk_row "u6" "z6" "linux")
                    (main env_default file_present ∅))) = [].
Proof.
  split; [|split].
  - apply (classifier_rule_order env_default "MacOS on Windows").
    apply includes_true_iff. reflexivity.
  - apply (classifier_rule_order env_default "WINDOWS 11").
    + apply includes_false_iff. reflexivity.
    + apply includes_true_iff. reflexivity.
  - apply (classifier_rule_order env_default "linux"); reflexivity.
Defined.

(** ** The store update executor (C7, C8) *)

(** C7: [updateItemWithOs] sends exactly one request; it addresses the
    item (pk = suid, sk = "device#" + zid) of the table, carries no
    condition (it succeeds whatever the stored item is), and its effect is
    to set [name] to "Desktop Agent (<osTag>)" and [os] to the lowercased
    osTag, leaving every other attribute and every other item as it was. *)
Theorem updateItemWithOs_request (e : process_env) (suid zid osTag : string) (st : state) :
  let k := (TABLE_NAME e, (suid, "device#" +:+ zid)) in
  ∃ p, calls (trace (updateItemWithOs e suid zid osTag st)) = calls (trace st) ++ [p]
  ∧ Dynamo.TableName p = TABLE_NAME e
  ∧ Dynamo.Key p = (suid, "device#" +:+ zid)
  ∧ ∀ db0 : gmap (string * (string * string)) (gmap string string),
      ∃ db1 it, Dynamo.update p db0 = Some db1
      ∧ db1 !! k = Some it
      ∧ it !! "name" = Some ("Desktop Agent (" +:+ osTag +:+ ")")
      ∧ it !! "os" = Some (Str.toLowerCase osTag)
      ∧ (∀ a, a ≠ "name" → a ≠ "os" →
           it !! a = default (Dynamo.key_item (suid, "device#" +:+ zid)) (db0 !! k) !! a)
      ∧ (∀ k', k' ≠ k → db1 !! k' = db0 !! k').
Proof.
  cbv zeta. exists (updateParams e suid zid osTag). split; [|split; [done|split; [done|]]].
  - unfold updateItemWithOs. cbn [emit trace]. apply calls_snoc_update.
  - intros db0. eexists _, _. rewrite update_updateParams. cbv zeta.
    split; [reflexivity|]. split; [apply lookup_insert_eq|].
    split; [by rewrite lookup_insert_ne, lookup_insert_eq|].
    split; [by rewrite lookup_insert_eq|].
    split.
    + intros a Hn Ho. by rewrite !lookup_insert_ne.
    + intros k' Hk. by rewrite lookup_insert_ne.
Qed.

(** C8: applying the update of [updateItemWithOs] a second time with the
    same (suid, zid, osTag) leaves the store as the first application left
    it, whatever the store held before. *)
Theorem update_idempotent (e : process_env) (suid zid osTag : string)
    (db0 : gmap (string * (string * string)) (gmap string string)) :
  ∃ db1, Dynamo.update (updateParams e suid zid osTag) db0 = Some db1
  ∧ Dynamo.update (updateParams e suid zid osTag) db1 = Some db1.
Proof.
  destruct (Dynamo.update (updateParams e suid zid osTag) db0) as [db1|] eqn:H.
  - exists db1. split; [done|]. by eapply update_twice.
  - by rewrite update_updateParams in H.
Qed.

(** ** Steps of the pipeline, case by case *)

Section StepCases.

Variable e : process_env.

Lemma step_inv (st : state) (ev : event) (st' : state) :
  step e st ev = Some st' →
  (∃ i ok, ev = StoreReply i ok ∧ (∀ c, pc st ≠ Exited c) ∧ reply e i ok st = Some st')
  ∨ (∃ r, ev = RowRead r ∧ pc st = Reading ∧ st' = on_row e r st)
  ∨ (ev = StreamEnd ∧ pc st = Reading ∧ batch st ≠ [] ∧ st' = set_pc Flushing st)
  ∨ (ev = StreamEnd ∧ pc st = Reading ∧ batch st = [] ∧ st' = finish st)
  ∨ (ev = StreamError ∧ pc st = Reading
     ∧ st' = set_pc (Exited 1) (emit (Log ERROR MsgUnhandled) st))
  ∨ (ev = AllSettled ∧ pc st = Settling ∧ outstanding st = 0
     ∧ st' = log_progress (set_pc Reading (set_batch [] (count_results st))))
  ∨ (ev = AllSettled ∧ pc st = Flushing ∧ outstanding st = 0
     ∧ st' = finish (count_results st)).
Proof.
  unfold step. intros H.
  destruct (pc st) eqn:Hpc; destruct ev as [r| | |i ok|]; try done.
  - right; left. exists r. by injection H as <-.
  - destruct (batch st) as [|t b] eqn:Hb; cbn in H; injection H as <-.
    + do 3 right; left. done.
    + do 2 right; left. done.
  - do 4 right; left. by injection H as <-.
  - left. exists i, ok. done.
  - left. exists i, ok. done.
  - destruct (outstanding st =? 0)%nat eqn:Ho; [|done].
    apply Nat.eqb_eq in Ho. do 5 right; left. by injection H as <-.
  - left. exists i, ok. done.
  - destruct (outstanding st =? 0)%nat eqn:Ho; [|done].
    apply Nat.eqb_eq in Ho. do 6 right. by injection H as <-.
Qed.

Lemma finish_fields (st : state) :
  processedDevices (finish st) = processedDevices st ∧ db (finish st) = db st
  ∧ batch (finish st) = batch st ∧ processedCount (finish st) = processedCount st
  ∧ updatedCount (finish st) = updatedCount st ∧ pc (finish st) = Exited 0
  ∧ calls (trace (finish st)) = calls (trace st)
  ∧ Log INFO MsgSummary ∈ trace (finish st).
Proof.
  unfold finish. cbn. repeat split.
  - by rewrite !calls_snoc_log.
  - set_solver.
Qed.

Lemma log_progress_fields (st : state) :
  processedDevices (log_progress st) = processedDevices st
  ∧ db (log_progress st) = db st ∧ batch (log_progress st) = batch st
  ∧ processedCount (log_progress st) = processedCount st
  ∧ updatedCount (log_progress st) = updatedCount st
  ∧ pc (log_progress st) = pc st
  ∧ calls (trace (log_progress st)) = calls (trace st).
Proof.
  unfold log_progress. destruct (_ =? _)%nat; cbn; [|done].
  repeat split. apply calls_snoc_log.
Qed.

(** Every step keeps what is marked, and sends a request only for a row
    whose zid is not marked. *)
Lemma step_calls (st : state) (ev : event) (st' : state) :
  step e st ev = Some st' →
  processedDevices st ⊆ processedDevices st'
  ∧ (calls (trace st') = calls (trace st)
     ∨ ∃ r o, ev = RowRead r ∧ (Str.interp (zid r) ∉ processedDevices st)
       ∧ calls (trace st')
         = calls (trace st) ++ [updateParams e (Str.interp (suid r)) (Str.interp (zid r)) o]).
Proof.
  intros H. destruct (step_inv _ _ _ H) as
    [(i & ok & -> & _ & Hr) | [(r & -> & Hpc & ->) | [(-> & _ & _ & ->) |
    [(-> & _ & _ & ->) | [(-> & _ & ->) | [(-> & _ & _ & ->) | (-> & _ & _ & ->)]]]]]].
  - destruct (reply_spec _ _ _ _ _ Hr) as (p & z & _ & _ & Htr & _ & _ & Hok).
    rewrite Htr. split; [|by left].
    destruct ok; [destruct Hok as (_ & -> & _); set_solver | by destruct Hok as (_ & -> & _)].
  - destruct (on_row_spec e r st) as (Hd & _ & _ & _ & Hc). rewrite Hd. split; [done|].
    destruct Hc as [(_ & _ & _ & Hc) | (_ & _ & [(_ & _ & Hc) | [(_ & _ & _ & Hc) | (o & Hz & _ & _ & Hc)]])];
      [by left | by left | by left |].
    right. by exists r, o.
  - split; [done | by left].
  - destruct (finish_fields st) as (-> & _ & _ & _ & _ & _ & -> & _). split; [done | by left].
  - cbn. split; [done | left; apply calls_snoc_log].
  - destruct (log_progress_fields (set_pc Reading (set_batch [] (count_results st))))
      as (-> & _ & _ & _ & _ & _ & ->). split; [done | by left].
  - destruct (finish_fields (count_results st)) as (-> & _ & _ & _ & _ & _ & -> & _).
    split; [done | by left].
Qed.

End StepCases.

Lemma append_inj_r (a x y : string) : a +:+ x = a +:+ y → x = y.
Proof.
  induction a as [|c a IH]; [done|]. rewrite !app_cons_s. intros [= H]. auto.
Qed.

(** ** The dedup tracker (C1, C2) *)

(** Once a zid is marked, no later request of the run addresses it. *)
Lemma no_call_for_marked (e : process_env) (z : string) (evs : list event) (st st' : state) :
  z ∈ processedDevices st → run e st evs = Some st' →
  z ∈ processedDevices st'
  ∧ ∃ new, calls (trace st') = calls (trace st) ++ new
    ∧ ∀ q, q ∈ new → (Dynamo.Key q).2 ≠ "device#" +:+ z.
Proof.
  revert st. induction evs as [|ev evs IH]; intros st Hz Hrun.
  - injection Hrun as <-. split; [done|]. exists []. split; [by rewrite app_nil_r|].
    intros q Hq. by apply elem_of_nil in Hq.
  - cbn [run] in Hrun. destruct (step e st ev) as [st1|] eqn:Hs; [|done].
    cbn in Hrun. destruct (step_calls _ _ _ _ Hs) as (Hsub & Hcalls).
    destruct (IH st1 (Hsub _ Hz) Hrun) as (Hz' & new & Hnew & Hfree).
    split; [done|].
    destruct Hcalls as [Hsame | (r & o & -> & Hnot & Hone)].
    + exists new. by rewrite Hnew, Hsame.
    + exists (updateParams e (Str.interp (suid r)) (Str.interp (zid r)) o :: new).
      split; [by rewrite Hnew, Hone, <- app_assoc|].
      intros q [->|Hq]%elem_of_cons; [|by apply Hfree].
      cbn. intros Heq%append_inj_r. congruence.
Qed.

Lemma on_row_skip_logged (e : process_env) (r : row) (st : state) :
  isValidRow r = true →
  Str.interp (zid r) ∈ processedDevices st →
  Log INFO (MsgSkipping (Str.interp (suid r)) (Str.interp (zid r))) ∈ trace (on_row e r st).
Proof.
  intros Hv Hz. unfold on_row. rewrite Hv. cbn [negb].
  rewrite processRow_marked by done.
  destruct (ge_number _ _); [cbn; set_solver|].
  unfold log_progress. destruct (_ =? _)%nat; cbn; set_solver.
Qed.

(** C1 (as amended): the tracker is not marked at admission but when the
    row's update completes with success; a valid row is rejected without
    a store call (and "Skipping update" is logged) exactly when its zid
    is marked at that moment, and is dispatched otherwise; a failed
    update leaves the tracker as it was. *)
Theorem tracker_marked_on_success (e : process_env) (r : row) (st : state) :
  isValidRow r = true →
  let z := Str.interp (zid r) in
  let s := Str.interp (suid r) in
  processedDevices (on_row e r st) = processedDevices st
  ∧ (z ∈ processedDevices st →
       calls (trace (on_row e r st)) = calls (trace st)
       ∧ batch (on_row e r st) = batch st ++ [Fulfilled false]
       ∧ Log INFO (MsgSkipping s z) ∈ trace (on_row e r st))
  ∧ (z ∉ processedDevices st →
     ∀ o, getOsFromSourceApp (Str.interp (sourceApp r)) = Some o →
       calls (trace (on_row e r st)) = calls (trace st) ++ [updateParams e s z o]
       ∧ batch (on_row e r st) = batch st ++ [Pending (updateParams e s z o) z])
  ∧ (∀ i p z' ok st', batch st !! i = Some (Pending p z') →
       step e st (StoreReply i ok) = Some st' →
       processedDevices st'
       = if ok then {[z']} ∪ processedDevices st else processedDevices st).
Proof.
  intros Hv. cbv zeta.
  destruct (on_row_spec e r st) as (Hd & _ & _ & _ & [(Hv' & _) | (_ & _ & Hc)]);
    [congruence|].
  split; [done|]. split; [|split].
  - intros Hz. destruct Hc as [(_ & Hb & Hc) | [(Hn & _) | (o & Hn & _)]]; [|done|done].
    split; [done|]. split; [done|]. by apply on_row_skip_logged.
  - intros Hz o Ho.
    destruct Hc as [(Hn & _) | [(_ & Hos & _) | (o' & _ & Ho' & Hb & Hc)]];
      [done | congruence |].
    assert (o' = o) as -> by congruence. done.
  - intros i p z' ok st' Hi Hs.
    destruct (step_inv _ _ _ _ Hs) as [(i' & ok' & [= <- <-] & _ & Hr) | Hrest];
      [|by destruct Hrest as [(? & ? & _) | [(? & _) | [(? & _) | [(? & _) | [(? & _) | (? & _)]]]]]].
    destruct (reply_spec _ _ _ _ _ Hr) as (p' & z'' & Hi' & _ & _ & _ & _ & Hok).
    assert (z'' = z') as -> by congruence.
    destruct ok; destruct Hok as (_ & Hp & _); exact Hp.
Qed.

Lemma tracker_marked_on_success_witness :
  isValidRow (mk_row "u1" "z1" "mac") = true
  ∧ processedDevices (on_row env_default (mk_row "u1" "z1" "mac")
                        (main env_default file_present ∅))
    = processedDevices (main env_default file_present ∅).
Proof.
  split; [reflexivity|].
  apply (tracker_marked_on_success env_default (mk_row "u1" "z1" "mac")
           (main env_default file_present ∅)).
  reflexivity.
Defined.

(** C1 as stated fails: the first row's update fails, nothing is marked,
    and the second row with the same zid is dispatched. *)
Lemma second_row_dispatched_after_failure :
  ∃ st, run env_default (main env_default file_present ∅)
          [RowRead (mk_row "u1" "z1" "mac"); StoreReply 0 false;
           RowRead (mk_row "u1" "z1" "mac")] = Some st
  ∧ calls (trace st)
    = [updateParams env_default "u1" "z1" "Mac"; updateParams env_default "u1" "z1" "Mac"]
  ∧ processedDevices st = ∅
  ∧ batch st = [Rejected; Pending (updateParams env_default "u1" "z1" "Mac") "z1"].
Proof. eexists. split; [vm_compute; reflexivity|]. by vm_compute. Qed.

(** C2 (as amended): once an update for a zid has completed with success,
    no later request of the run addresses that zid. *)
Theorem no_dispatch_after_success (e : process_env) (st st' : state) (i : nat)
    (p : Dynamo.update_params) (z : string) (evs : list event) :
  batch st !! i = Some (Pending p z) →
  run e st (StoreReply i true :: evs) = Some st' →
  ∃ new, calls (trace st') = calls (trace st) ++ new
  ∧ ∀ q, q ∈ new → (Dynamo.Key q).2 ≠ "device#" +:+ z.
Proof.
  intros Hi Hrun. cbn [run] in Hrun.
  destruct (step e st (StoreReply i true)) as [st1|] eqn:Hs; [|done]. cbn in Hrun.
  destruct (step_inv _ _ _ _ Hs) as [(i' & ok' & [= <- <-] & _ & Hr) | Hrest];
    [|by destruct Hrest as [(? & ? & _) | [(? & _) | [(? & _) | [(? & _) | [(? & _) | (? & _)]]]]]].
  destruct (reply_spec _ _ _ _ _ Hr) as (p' & z' & Hi' & _ & Htr & _ & _ & _ & Hd & _).
  assert (z' = z) as -> by congruence.
  assert (Hz : z ∈ processedDevices st1).
  { rewrite Hd. apply elem_of_union_l, elem_of_singleton. reflexivity. }
  destruct (no_call_for_marked e z evs st1 st' Hz Hrun) as (_ & new & Hnew & Hfree).
  exists new. by rewrite <- Htr.
Qed.

Lemma no_dispatch_after_success_witness :
  ∃ st', run env_default
           (on_row env_default (mk_row "u1" "z1" "mac") (main env_default file_present ∅))
           [StoreReply 0 true; RowRead (mk_row "u9" "z1" "windows")] = Some st'
  ∧ ∃ new, calls (trace st')
           = calls (trace (on_row env_default (mk_row "u1" "z1" "mac")
                             (main env_default file_present ∅))) ++ new
    ∧ ∀ q, q ∈ new → (Dynamo.Key q).2 ≠ "device#z1".
Proof.
  eexists. split; [vm_compute; reflexivity|].
  apply (no_dispatch_after_success env_default _ _ 0
           (updateParams env_default "u1" "z1" "Mac") "z1"
           [RowRead (mk_row "u9" "z1" "windows")]).
  - reflexivity.
  - vm_compute; reflexivity.
Defined.

(** C2 as stated fails: two rows with the same zid read while the first
    update is still in flight are both dispatched. *)
Lemma same_zid_dispatched_twice_in_window :
  ∃ st, run env_default (main env_default file_present ∅)
          [RowRead (mk_row "u1" "z1" "mac"); RowRead (mk_row "u1" "z1" "mac")] = Some st
  ∧ calls (trace st)
    = [updateParams env_default "u1" "z1" "Mac"; updateParams env_default "u1" "z1" "Mac"]
  ∧ outstanding st = 2.
Proof. eexists. split; [vm_compute; reflexivity|]. by vm_compute. Qed.

(** ** The window (C3, C10) *)

Lemma outstanding_le_length (st : state) : (outstanding st ≤ length (batch st))%nat.
Proof. apply length_filter. Qed.

Lemma main_fields (e : process_env) (ex : string → bool)
    (db0 : gmap (string * (string * string)) (gmap string string)) :
  batch (main e ex db0) = [] ∧ processedDevices (main e ex db0) = ∅
  ∧ calls (trace (main e ex db0)) = []
  ∧ processedCount (main e ex db0) = 0 ∧ updatedCount (main e ex db0) = 0
  ∧ pc (main e ex db0)
    = (if ex (Str.or_else (env_FILE_PATH e) "./logs-insights-results.csv")
       then Reading else Exited 1).
Proof. unfold main. by destruct (ex _). Qed.

Lemma window_inv_main (e : process_env) (W : Z) (ex : string → bool)
    (db0 : gmap (string * (string * string)) (gmap string string)) :
  window_inv W (main e ex db0).
Proof.
  destruct (main_fields e ex db0) as (Hb & _ & _ & _ & _ & _).
  unfold window_inv, outstanding. rewrite Hb. cbn. repeat split; [lia | by left].
Qed.

Local Ltac close_inv :=
  first [ done | lia | by left | (intros Hx; congruence) | (intros _; right; lia) ].

Lemma window_inv_step (e : process_env) (W : Z) (st : state) (ev : event) (st' : state) :
  CONCURRENCY_LIMIT e = Some W →
  window_inv W st → step e st ev = Some st' → window_inv W st'.
Proof.
  intros HW (Hlen & Hrd & Hex) H. unfold window_inv.
  destruct (step_inv _ _ _ _ H) as
    [(i & ok & -> & Hne & Hr) | [(r & -> & Hpc & ->) | [(-> & Hpc & Hb & ->) |
    [(-> & Hpc & Hb & ->) | [(-> & Hpc & ->) | [(-> & Hpc & Ho & ->) | (-> & Hpc & Ho & ->)]]]]]].
  - destruct (reply_spec _ _ _ _ _ Hr) as (p & z & _ & Hpc' & _ & _ & _ & Hok).
    assert (Hl : length (batch st') = length (batch st)).
    { destruct ok; destruct Hok as (_ & _ & ->); apply length_insert. }
    rewrite Hl. split; [done|].
    destruct Hpc' as [Hpc' | (_ & _ & _ & Hpc')]; rewrite Hpc';
      [|split; intros Hx; congruence].
    split; [|intros Hx; by destruct (Hne 0)].
    intros Hp. destruct (Hrd Hp) as [Hnil | Hlt]; [|by right].
    left. apply length_zero_iff_nil. rewrite Hl, Hnil. done.
  - destruct (on_row_spec e r st) as (_ & _ & _ & _ & Hc).
    destruct Hc as [(_ & -> & -> & _) | (_ & Hpc' & Hc)].
    { split; [done|]. split; [done|]. intros Hx; congruence. }
    assert (Hb : length (batch (on_row e r st)) = S (length (batch st))).
    { destruct Hc as [(_ & -> & _) | [(_ & _ & -> & _) | (o & _ & _ & -> & _)]];
        rewrite length_app; cbn; lia. }
    rewrite Hpc', Hb, HW. unfold ge_number.
    destruct (Hrd Hpc) as [Hnil | Hlt].
    + rewrite Hnil. cbn [length].
      destruct (W <=? Z.of_nat 1)%Z eqn:Hle;
        [apply Z.leb_le in Hle | apply Z.leb_gt in Hle];
        (split; [|split]); close_inv.
    + destruct (W <=? Z.of_nat (S (length (batch st))))%Z eqn:Hle;
        [apply Z.leb_le in Hle | apply Z.leb_gt in Hle];
        (split; [|split]); close_inv.
  - cbn. (split; [|split]); close_inv.
  - destruct (finish_fields st) as (_ & _ & Hb' & _ & _ & Hpc' & _).
    unfold outstanding. rewrite Hb', Hpc', Hb. cbn. (split; [|split]); close_inv.
  - cbn. (split; [|split]); close_inv.
  - destruct (log_progress_fields (set_pc Reading (set_batch [] (count_results st))))
      as (_ & _ & Hb' & _ & _ & Hpc' & _).
    unfold outstanding. rewrite Hb', Hpc'. cbn. (split; [|split]); close_inv.
  - destruct (finish_fields (count_results st)) as (_ & _ & Hb' & _ & _ & Hpc' & _).
    unfold outstanding in *. rewrite Hb', Hpc'. cbn. (split; [|split]); close_inv.
Qed.

Lemma window_inv_run (e : process_env) (W : Z) (evs : list event) (st st' : state) :
  CONCURRENCY_LIMIT e = Some W →
  window_inv W st → run e st evs = Some st' → window_inv W st'.
Proof.
  intros HW. apply (run_preserves e (window_inv W)).
  intros st0 ev st1. by apply window_inv_step.
Qed.

(** C3 (as amended): when CONCURRENCY_LIMIT is the number [W], never more
    than [max W 1] store updates are outstanding (so never more than [W]
    for [W ≥ 1], 20 by default); while a full window settles no row is
    admitted, the window closes only when nothing is outstanding, a window
    being read is never full, and the final flush leaves nothing
    outstanding at exit. *)
Theorem window_bound (e : process_env) (W : Z) (ex : string → bool)
    (db0 : gmap (string * (string * string)) (gmap string string))
    (evs : list event) (st : state) :
  CONCURRENCY_LIMIT e = Some W →
  run e (main e ex db0) evs = Some st →
  (Z.of_nat (outstanding st) ≤ Z.max W 1)%Z
  ∧ (pc st = Reading → (Z.of_nat (length (batch st)) < Z.max W 1)%Z)
  ∧ (pc st = Settling → ∀ r, step e st (RowRead r) = None)
  ∧ (∀ st', step e st AllSettled = Some st' →
       outstanding st = 0
       ∧ ((pc st = Settling ∧ pc st' = Reading ∧ batch st' = [])
          ∨ (pc st = Flushing ∧ pc st' = Exited 0)))
  ∧ (pc st = Exited 0 → outstanding st = 0).
Proof.
  intros HW Hrun.
  destruct (window_inv_run e W evs _ _ HW (window_inv_main e W ex db0) Hrun)
    as (Hlen & Hrd & Hex).
  pose proof (outstanding_le_length st) as Hle.
  split; [lia|]. split; [|split; [|split; [|done]]].
  - intros Hp. destruct (Hrd Hp) as [-> | Hlt]; [cbn; lia | lia].
  - intros Hp r. unfold step. by rewrite Hp.
  - intros st' Hs. destruct (step_inv _ _ _ _ Hs) as
      [(i & ok & [=] & _) | [(r & [=] & _) | [([=] & _) |
      [([=] & _) | [([=] & _) | [(_ & Hpc & Ho & ->) | (_ & Hpc & Ho & ->)]]]]]].
    + split; [done|]. left.
      destruct (log_progress_fields (set_pc Reading (set_batch [] (count_results st))))
        as (_ & _ & Hb' & _ & _ & Hpc' & _).
      by rewrite Hb', Hpc'.
    + split; [done|]. right.
      by destruct (finish_fields (count_results st)) as (_ & _ & _ & _ & _ & -> & _).
Qed.

Lemma window_bound_witness :
  CONCURRENCY_LIMIT env_default = Some 20%Z
  ∧ ∃ st, run env_default (main env_default file_present ∅)
            [RowRead (mk_row "u1" "z1" "mac"); RowRead (mk_row "u2" "z2" "windows")]
          = Some st
    ∧ (Z.of_nat (outstanding st) ≤ Z.max 20 1)%Z.
Proof.
  split; [reflexivity|]. eexists. split; [vm_compute; reflexivity|].
  apply (window_bound env_default 20 file_present ∅
           [RowRead (mk_row "u1" "z1" "mac"); RowRead (mk_row "u2" "z2" "windows")]).
  - reflexivity.
  - vm_compute; reflexivity.
Defined.

(** C3 as stated fails for a limit that is not a positive number: with
    CONCURRENCY_LIMIT=0 one update is outstanding, more than the limit;
    with a limit that is not a number 21 updates are outstanding at once,
    more than the default 20. *)
Lemma window_bound_fails_for_limit_0 :
  (CONCURRENCY_LIMIT (env_limit "0") = Some 0%Z
   ∧ ∃ st, run (env_limit "0") (main (env_limit "0") file_present ∅)
             [RowRead (mk_row "u1" "z1" "mac")] = Some st
     ∧ outstanding st = 1
     ∧ ¬ (Z.of_nat (outstanding st) ≤ 0)%Z)
  ∧ (CONCURRENCY_LIMIT (env_limit "abc") = None
     ∧ ∃ st, run (env_limit "abc") (main (env_limit "abc") file_present ∅)
               (map RowRead (replicate 21 (mk_row "u1" "z1" "mac"))) = Some st
       ∧ outstanding st = 21).
Proof.
  split.
  - split; [reflexivity|]. eexists. split; [vm_compute; reflexivity|].
    split; [by vm_compute|]. vm_compute. intros H. by apply H.
  - split; [reflexivity|]. eexists. split; [vm_compute; reflexivity|].
    by vm_compute.
Qed.

(** *** A limit that is not a number *)

Lemma split_radix_not_digit (c : ascii) (r : string) :
  Str.digit_value 10 c = None → Str.split_radix (String c r) = (10%Z, String c r).
Proof.
  intros H. destruct c as [[] [] [] [] [] [] [] []];
    first [reflexivity | by vm_compute in H].
Qed.

Lemma non_numeric_parseInt (s : string) :
  non_numeric s = true → Str.parseInt s = None ∧ Str.or_else (Some s) "20" = s.
Proof.
  unfold non_numeric, Str.parseInt. destruct s as [|a s]; [done|].
  destruct (Str.split_sign (Str.trim_start (String a s))) as [sg s2]. cbn [snd].
  destruct s2 as [|c r]; [done|].
  intros H%negb_true_iff%bool_decide_eq_false.
  assert (Hd : Str.digit_value 10 c = None).
  { destruct (Str.digit_value 10 c); [|done]. by destruct H. }
  rewrite split_radix_not_digit by done. cbn [Str.parse_digits]. by rewrite Hd.
Qed.

Lemma filter_classifiable_cons (r : row) (rows : list row) :
  length (filter (λ r, classifiable r = true) (r :: rows))
  = ((if classifiable r then 1 else 0)
     + length (filter (λ r, classifiable r = true) rows))%nat.
Proof.
  rewrite filter_cons. destruct (classifiable r); by case_decide.
Qed.

Section NotANumber.

Variable e : process_env.
Hypothesis limit_nan : CONCURRENCY_LIMIT e = None.

Lemma nan_never_settling (evs : list event) (st st' : state) :
  pc st ≠ Settling → run e st evs = Some st' → pc st' ≠ Settling.
Proof.
  revert evs st st'. apply (run_preserves e (λ st, pc st ≠ Settling)).
  intros st ev st' Hp H. destruct (step_inv _ _ _ _ H) as
    [(i & ok & -> & Hne & Hr) | [(r & -> & Hpc & ->) | [(-> & Hpc & Hb & ->) |
    [(-> & Hpc & Hb & ->) | [(-> & Hpc & ->) | [(-> & Hpc & Ho & ->) | (-> & Hpc & Ho & ->)]]]]]];
    try done.
  - destruct (reply_spec _ _ _ _ _ Hr) as (p & z & _ & [Hpc' | (_ & _ & _ & Hpc')] & _);
      by rewrite Hpc'.
  - destruct (on_row_spec e r st) as (_ & _ & _ & _ & [(_ & _ & -> & _) | (_ & -> & _)]);
      [done|]. rewrite limit_nan. cbn. by rewrite Hpc.
Qed.

(** Reading rows while no reply arrives: every classifiable row adds an
    outstanding update and the loop never stops to settle. *)
Lemma nan_rows_all_started (rows : list row) (st : state) :
  pc st = Reading → processedDevices st = ∅ →
  ∃ st', run e st (map RowRead rows) = Some st'
  ∧ pc st' = Reading ∧ processedDevices st' = ∅
  ∧ outstanding st'
    = (outstanding st + length (filter (λ r, classifiable r = true) rows))%nat
  ∧ length (calls (trace st'))
    = (length (calls (trace st)) + length (filter (λ r, classifiable r = true) rows))%nat.
Proof.
  revert st. induction rows as [|r rows IH]; intros st Hpc Hd.
  - exists st. cbn. repeat split; try done; lia.
  - cbn [map run]. assert (Hs : step e st (RowRead r) = Some (on_row e r st))
      by (unfold step; by rewrite Hpc).
    rewrite Hs. cbn [mbind option_bind].
    destruct (on_row_spec e r st) as (Hd' & _ & _ & _ & Hc).
    assert (Hone : pc (on_row e r st) = Reading
      ∧ outstanding (on_row e r st)
        = (outstanding st + if classifiable r then 1 else 0)%nat
      ∧ length (calls (trace (on_row e r st)))
        = (length (calls (trace st)) + if classifiable r then 1 else 0)%nat).
    { unfold classifiable.
      destruct Hc as [(Hv & Hb & Hp & Hc) | (Hv & Hp & Hc)].
      - rewrite Hv, Hp, Hc. unfold outstanding. rewrite Hb. cbn. split; [done|]. lia.
      - rewrite Hv, Hp, limit_nan. cbn [ge_number andb]. split; [done|].
        destruct Hc as [(Hz & _) | [(_ & Hos & Hb & Hc) | (o & _ & Hos & Hb & Hc)]].
        + rewrite Hd in Hz. by apply not_elem_of_empty in Hz.
        + rewrite Hc, Hos, (outstanding_snoc _ _ _ Hb).
          rewrite bool_decide_eq_false_2 by (intros Hne; by apply Hne).
          cbn. done.
        + rewrite Hc, Hos, (outstanding_snoc _ _ _ Hb), length_app.
          rewrite bool_decide_eq_true_2 by done. cbn. done. }
    destruct Hone as (Hpc1 & Ho1 & Hc1).
    destruct (IH (on_row e r st) Hpc1) as (st' & Hrun & Hpc' & Hd2 & Ho2 & Hc2);
      [by rewrite Hd'|].
    exists st'. rewrite filter_classifiable_cons.
    repeat split; try done; lia.
Qed.

End NotANumber.

(** C10: when CONCURRENCY_LIMIT is set to a string that does not start
    with a number, [parseInt] gives NaN, the test [batch.length >=
    CONCURRENCY_LIMIT] is false for every length, the loop never stops to
    settle a window (the only [Promise.allSettled] that resolves is the
    final flush), and while rows are read every classifiable row's update
    is started: as many updates are outstanding as the input has such
    rows, any number [n] of them. *)
Theorem nan_limit_unbounded (e : process_env) (s : string) (ex : string → bool)
    (db0 : gmap (string * (string * string)) (gmap string string)) :
  env_CONCURRENCY_LIMIT e = Some s → non_numeric s = true →
  Str.parseInt s = None
  ∧ CONCURRENCY_LIMIT e = None
  ∧ (∀ n, ge_number n (CONCURRENCY_LIMIT e) = false)
  ∧ (∀ evs st, run e (main e ex db0) evs = Some st →
       pc st ≠ Settling
       ∧ ∀ st', step e st AllSettled = Some st' → pc st = Flushing ∧ pc st' = Exited 0)
  ∧ (ex (Str.or_else (env_FILE_PATH e) "./logs-insights-results.csv") = true →
     (∀ rows, ∃ st, run e (main e ex db0) (map RowRead rows) = Some st
        ∧ pc st = Reading
        ∧ outstanding st = length (filter (λ r, classifiable r = true) rows)
        ∧ length (calls (trace st)) = length (filter (λ r, classifiable r = true) rows))
     ∧ (∀ n, ∃ st, run e (main e ex db0)
                     (map RowRead (replicate n (mk_row "u" "z" "mac"))) = Some st
          ∧ outstanding st = n)).
Proof.
  intros Hs Hn. destruct (non_numeric_parseInt s Hn) as (Hp & Hor).
  assert (Hlim : CONCURRENCY_LIMIT e = None).
  { unfold CONCURRENCY_LIMIT. by rewrite Hs, Hor. }
  destruct (main_fields e ex db0) as (Hb & Hd & Hc & _ & _ & Hpc).
  split; [done|]. split; [done|]. split; [by rewrite Hlim|]. split.
  - intros evs st Hrun.
    assert (Hns : pc st ≠ Settling).
    { eapply (nan_never_settling e Hlim evs (main e ex db0)); [|done].
      rewrite Hpc. by destruct (ex _). }
    split; [done|]. intros st' Hst.
    destruct (step_inv _ _ _ _ Hst) as
      [(i & ok & [=] & _) | [(r & [=] & _) | [([=] & _) |
      [([=] & _) | [([=] & _) | [(_ & Hpc' & _) | (_ & Hpc' & _ & ->)]]]]]];
      [done|].
    split; [done|].
    by destruct (finish_fields (count_results st)) as (_ & _ & _ & _ & _ & -> & _).
  - intros Hex. rewrite Hex in Hpc.
    assert (Hrows : ∀ rows, ∃ st, run e (main e ex db0) (map RowRead rows) = Some st
        ∧ pc st = Reading
        ∧ outstanding st = length (filter (λ r, classifiable r = true) rows)
        ∧ length (calls (trace st)) = length (filter (λ r, classifiable r = true) rows)).
    { intros rows.
      destruct (nan_rows_all_started e Hlim rows (main e ex db0) Hpc Hd)
        as (st & Hrun & Hpc' & _ & Ho & Hcl).
      exists st. unfold outstanding in Ho. rewrite Hb in Ho. rewrite Hc in Hcl.
      cbn in Ho, Hcl. done. }
    split; [done|]. intros n.
    destruct (Hrows (replicate n (mk_row "u" "z" "mac"))) as (st & Hrun & _ & Ho & _).
    exists st. split; [done|]. rewrite Ho.
    clear. induction n as [|n IH]; [done|].
    cbn [replicate]. rewrite filter_classifiable_cons, IH. done.
Qed.

Lemma nan_limit_unbounded_witness :
  non_numeric "abc" = true
  ∧ CONCURRENCY_LIMIT (env_limit "abc") = None
  ∧ ∃ st, run (env_limit "abc") (main (env_limit "abc") file_present ∅)
            (map RowRead (replicate 25 (mk_row "u" "z" "mac"))) = Some st
    ∧ outstanding st = 25.
Proof.
  pose proof (nan_limit_unbounded (env_limit "abc") "abc" file_present ∅
                eq_refl eq_refl) as (_ & Hlim & _ & _ & Hrows).
  split; [reflexivity|]. split; [exact Hlim|].
  exact (proj2 (Hrows eq_refl) 25).
Defined.

(** ** Failures and termination (C4, C9) *)

Lemma pending_count_insert (b : list promise) (i : nat) (p : Dynamo.update_params)
    (z : string) (t : promise) :
  b !! i = Some (Pending p z) → is_pending t = false →
  S (length (filter (λ t, is_pending t = true) (<[i := t]> b)))
  = length (filter (λ t, is_pending t = true) b).
Proof.
  intros Hi Ht. revert i Hi. induction b as [|a b IH]; intros [|i] Hi; try done.
  - cbn in Hi. injection Hi as ->. cbn [insert list_insert].
    rewrite !filter_cons. rewrite Ht. cbn [is_pending].
    rewrite decide_False by done. rewrite decide_True by done. done.
  - cbn in Hi. cbn [insert list_insert]. rewrite !filter_cons.
    specialize (IH i Hi). unfold insert in IH.
    destruct (decide (is_pending a = true)); cbn [length]; by rewrite <- ?IH.
Qed.

Section Completion.

Variable e : process_env.

Lemma step_reply_open (st : state) (i : nat) (ok : bool) :
  pc st = Reading ∨ pc st = Settling ∨ pc st = Flushing →
  step e st (StoreReply i ok) = reply e i ok st.
Proof. unfold step. by intros [-> | [-> | ->]]. Qed.

(** The store's answer to the update of the row just read. *)
Lemma reply_phase (r : row) (ok : bool) (st : state) :
  ok = true ∨ unhandled_rejections e = WarnOnUnhandled →
  pc st = Reading → outstanding st = 0 →
  let st1 := on_row e r st in
  let reply := if isValidRow r && last_is_pending st1
               then [StoreReply (length (batch st1) - 1) ok] else [] in
  ∃ st2, run e st1 reply = Some st2
  ∧ (pc st2 = Reading ∨ pc st2 = Settling) ∧ outstanding st2 = 0
  ∧ processedCount st2 = S (processedCount st).
Proof.
  intros Hh Hpc Ho. cbv zeta.
  destruct (on_row_spec e r st) as (Hd & Hdb & Hn & _ & Hc).
  assert (Hpc1 : isValidRow r = true →
            pc (on_row e r st)
            = (if ge_number (S (length (batch st))) (CONCURRENCY_LIMIT e)
               then Settling else pc st) →
            pc (on_row e r st) = Reading ∨ pc (on_row e r st) = Settling).
  { intros _ ->. destruct (ge_number _ _); [by right | by left]. }
  destruct Hc as [(Hv & Hb & Hp & _) | (Hv & Hp & Hc)].
  { rewrite Hv. cbn [andb]. exists (on_row e r st). cbn [run].
    unfold outstanding in *. rewrite Hb, Hp. auto. }
  specialize (Hpc1 Hv Hp). rewrite Hv. cbn [andb].
  assert (Hskip : batch (on_row e r st) = batch st ++ [Fulfilled false] →
    ∃ st2, run e (on_row e r st)
             (if last_is_pending (on_row e r st)
              then [StoreReply (length (batch (on_row e r st)) - 1) ok] else []) = Some st2
    ∧ (pc st2 = Reading ∨ pc st2 = Settling) ∧ outstanding st2 = 0
    ∧ processedCount st2 = S (processedCount st)).
  { intros Hb. unfold last_is_pending. rewrite Hb, last_snoc. cbn [is_pending run].
    exists (on_row e r st). rewrite (outstanding_snoc _ _ _ Hb).
    unfold outstanding in Ho. rewrite Ho. auto. }
  destruct Hc as [(_ & Hb & _) | [(_ & _ & Hb & _) | (o & _ & _ & Hb & _)]]; [auto | auto |].
  unfold last_is_pending. rewrite Hb, last_snoc. cbn [is_pending].
  rewrite length_app. cbn [length].
  replace (length (batch st) + 1 - 1)%nat with (length (batch st)) by lia.
  cbn [run]. rewrite step_reply_open by (destruct Hpc1; auto).
  rewrite reply_handled by (destruct Hh; auto).
  unfold resume. rewrite Hb, list_lookup_middle by done.
  assert (Hins : ∀ t, <[length (batch st) := t]> (batch st ++ [Pending
                    (updateParams e (Str.interp (suid r)) (Str.interp (zid r)) o)
                    (Str.interp (zid r))]) = batch st ++ [t]).
  { intros t. rewrite insert_app_r_alt by done. by rewrite Nat.sub_diag. }
  rewrite !Hins. unfold outstanding in Ho.
  destruct ok.
  - rewrite update_updateParams. cbv zeta. cbn [mbind option_bind].
    eexists. split; [reflexivity|].
    unfold outstanding. cbn [set_batch set_store batch pc processedCount].
    rewrite filter_app, length_app, Ho. auto.
  - eexists. split; [reflexivity|].
    unfold outstanding. cbn [set_batch set_store batch pc processedCount].
    rewrite filter_app, length_app, Ho. auto.
Qed.

(** A full window whose tasks have all settled is closed. *)
Lemma settle_phase (st : state) :
  pc st = Reading ∨ pc st = Settling → outstanding st = 0 →
  ∃ st3, run e st (match pc st with Settling => [AllSettled] | _ => [] end) = Some st3
  ∧ pc st3 = Reading ∧ outstanding st3 = 0 ∧ processedCount st3 = processedCount st.
Proof.
  intros [Hpc | Hpc] Ho; rewrite Hpc.
  - by exists st.
  - cbn [run]. unfold step. rewrite Hpc, Ho. cbn [Nat.eqb mbind option_bind].
    eexists. split; [reflexivity|].
    destruct (log_progress_fields (set_pc Reading (set_batch [] (count_results st))))
      as (_ & _ & Hb' & Hn' & _ & Hpc' & _).
    unfold outstanding. by rewrite Hb', Hn', Hpc'.
Qed.

(** Under the eager schedule every input is processed to the end when no
    update fails; on a runtime that only warns about unhandled
    rejections, whatever the store answers. *)
Lemma eager_completes (rows : list (row * bool)) (st : state) :
  unhandled_rejections e = WarnOnUnhandled ∨ Forall (λ ro, ro.2 = true) rows →
  pc st = Reading → outstanding st = 0 →
  ∃ st', run e st (eager e st rows) = Some st'
  ∧ pc st' = Exited 0
  ∧ processedCount st' = (processedCount st + length rows)%nat
  ∧ Log INFO MsgSummary ∈ trace st'.
Proof.
  intros Hh. revert st. induction rows as [|[r ok] rows IH]; intros st Hpc Ho.
  - cbn [eager run]. unfold step at 1. rewrite Hpc.
    destruct (0 <? length (batch st))%nat.
    + cbn [mbind option_bind run]. unfold step. cbn [set_pc pc].
      change (outstanding (set_pc Flushing st)) with (outstanding st). rewrite Ho.
      cbn [Nat.eqb mbind option_bind]. eexists. split; [reflexivity|].
      destruct (finish_fields (count_results (set_pc Flushing st)))
        as (_ & _ & _ & Hn & _ & Hp & _ & Hl).
      rewrite Hn, Hp. cbn. repeat split; [lia | done].
    + cbn [mbind option_bind run]. eexists. split; [reflexivity|].
      destruct (finish_fields st) as (_ & _ & _ & Hn & _ & Hp & _ & Hl).
      rewrite Hn, Hp. repeat split; [cbn; lia | done].
  - cbn [eager]. cbn [run].
    assert (Hs : step e st (RowRead r) = Some (on_row e r st))
      by (unfold step; by rewrite Hpc).
    rewrite Hs. cbn [mbind option_bind].
    assert (Hok : ok = true ∨ unhandled_rejections e = WarnOnUnhandled).
    { destruct Hh as [Hw | Hall]; [by right | left].
      by apply Forall_cons in Hall as [Hok _]. }
    assert (Hrest : unhandled_rejections e = WarnOnUnhandled
                    ∨ Forall (λ ro, ro.2 = true) rows).
    { destruct Hh as [Hw | Hall]; [by left | right].
      by apply Forall_cons in Hall as [_ Hall]. }
    destruct (reply_phase r ok st Hok Hpc Ho) as (st2 & Hrun2 & Hpc2 & Ho2 & Hn2).
    cbv zeta in Hrun2. rewrite Hrun2. cbn [default from_option id].
    destruct (settle_phase st2 Hpc2 Ho2) as (st3 & Hrun3 & Hpc3 & Ho3 & Hn3).
    rewrite Hrun3. cbn [default from_option id].
    rewrite run_app, Hrun2. cbn [mbind option_bind].
    rewrite run_app, Hrun3. cbn [mbind option_bind].
    destruct (IH Hrest st3 Hpc3 Ho3) as (st' & Hrun & Hp' & Hn' & Hl').
    exists st'. repeat split; try done. rewrite Hn', Hn3, Hn2. cbn [length]. lia.
Qed.

End Completion.

Section Windowed.

Variable e : process_env.
Variable fails : Dynamo.update_params → bool.

Lemma reply_is_Some (i : nat) (ok : bool) (st : state) :
  is_Some (reply e i ok st) ↔ is_Some (resume i ok st).
Proof.
  unfold reply. destruct (resume i ok st) as [st1|]; cbn [mbind option_bind].
  - destruct (pc st), ok, (unhandled_rejections e); split; by eauto.
  - done.
Qed.

Lemma insert_middle (b1 b2 : list promise) (t t' : promise) :
  <[length b1 := t']> (b1 ++ t :: b2) = (b1 ++ [t']) ++ b2.
Proof.
  rewrite insert_app_r_alt by done. rewrite Nat.sub_diag.
  by rewrite <- app_assoc.
Qed.

Lemma settled_outstanding (b : list promise) :
  Forall (λ t, is_pending t = false) b →
  length (filter (λ t, is_pending t = true) b) = 0.
Proof.
  induction 1 as [|t b Ht _ IH]; [done|].
  rewrite filter_cons. rewrite decide_False by congruence. done.
Qed.

(** While the script waits in [Promise.allSettled], the tasks of the batch
    can all be answered, with success or failure, and the script still
    waits there. *)
Lemma answers_run (b2 b1 : list promise) (st : state) :
  pc st = Settling ∨ pc st = Flushing →
  batch st = b1 ++ b2 → Forall sendable b2 →
  ∃ st', run e st (answers fails (length b1) b2) = Some st'
  ∧ pc st' = pc st ∧ processedCount st' = processedCount st
  ∧ ∃ b2', batch st' = b1 ++ b2' ∧ Forall (λ t, is_pending t = false) b2'.
Proof.
  revert b1 st. induction b2 as [|t b2 IH]; intros b1 st Hpc Hb Hs.
  - exists st. repeat split; try done. by exists [].
  - apply Forall_cons in Hs as [Ht Hs].
    assert (Hnext : ∀ t' st1, is_pending t' = false →
              pc st1 = pc st → processedCount st1 = processedCount st →
              batch st1 = (b1 ++ [t']) ++ b2 →
              ∃ st', run e st1 (answers fails (S (length b1)) b2) = Some st'
              ∧ pc st' = pc st ∧ processedCount st' = processedCount st
              ∧ ∃ b2', batch st' = b1 ++ b2' ∧ Forall (λ t, is_pending t = false) b2').
    { intros t' st1 Ht' Hpc1 Hn1 Hb1.
      destruct (IH (b1 ++ [t']) st1) as (st' & Hrun & Hpc' & Hn' & b2' & Hb' & Hall);
        [by rewrite Hpc1 | done | done |].
      rewrite length_app in Hrun. cbn [length] in Hrun. rewrite Nat.add_1_r in Hrun.
      exists st'. split; [done|]. split; [congruence|]. split; [congruence|].
      exists (t' :: b2'). split; [by rewrite Hb', <- app_assoc | by constructor]. }
    destruct t as [p z|u|].
    + cbn [answers run].
      rewrite step_reply_open by (destruct Hpc; auto).
      rewrite reply_handled by (left; destruct Hpc; congruence).
      unfold resume. rewrite Hb, list_lookup_middle by done.
      destruct (negb (fails p)).
      * destruct (Ht (db st)) as [db' Hu]. rewrite Hu. cbn [mbind option_bind].
        rewrite insert_middle. by apply (Hnext (Fulfilled true)).
      * cbn [mbind option_bind]. rewrite insert_middle. by apply (Hnext Rejected).
    + cbn [answers]. apply (Hnext (Fulfilled u) st); try done.
      by rewrite Hb, <- app_assoc.
    + cbn [answers]. apply (Hnext Rejected st); try done.
      by rewrite Hb, <- app_assoc.
Qed.

Lemma sendable_updateParams (s z o zid : string) :
  sendable (Pending (updateParams e s z o) zid).
Proof. intros d. rewrite update_updateParams. by eexists. Qed.

Lemma on_row_sendable (r : row) (st : state) :
  Forall sendable (batch st) → Forall sendable (batch (on_row e r st)).
Proof.
  intros Hs.
  destruct (on_row_spec e r st) as (_ & _ & _ & _ & [(_ & -> & _) | (_ & _ & Hc)]);
    [done|].
  destruct Hc as [(_ & -> & _) | [(_ & _ & -> & _) | (o & _ & _ & -> & _)]];
    apply Forall_app; (split; [done|]); apply Forall_singleton; try done.
  apply sendable_updateParams.
Qed.

(** A window (or the last, partial one) is answered and closed. *)
Lemma window_closes (st : state) :
  pc st = Settling ∨ pc st = Flushing → Forall sendable (batch st) →
  ∃ st', run e st (answers fails 0 (batch st) ++ [AllSettled]) = Some st'
  ∧ processedCount st' = processedCount st
  ∧ ((pc st = Settling ∧ pc st' = Reading ∧ batch st' = [])
     ∨ (pc st = Flushing ∧ pc st' = Exited 0 ∧ Log INFO MsgSummary ∈ trace st')).
Proof.
  intros Hpc Hs.
  destruct (answers_run (batch st) [] st Hpc eq_refl Hs)
    as (st1 & Hrun & Hpc1 & Hn1 & b & Hb & Hall).
  cbn [length app] in Hrun, Hb.
  rewrite run_app, Hrun. cbn [mbind option_bind run].
  assert (Ho : outstanding st1 = 0).
  { unfold outstanding. rewrite Hb. by apply settled_outstanding. }
  unfold step. rewrite Hpc1. destruct Hpc as [Hpc | Hpc]; rewrite Hpc, Ho; cbn [Nat.eqb].
  - eexists. split; [reflexivity|].
    destruct (log_progress_fields (set_pc Reading (set_batch [] (count_results st1))))
      as (_ & _ & Hb' & Hn' & _ & Hpc' & _).
    rewrite Hn', Hb', Hpc'. cbn. split; [done|]. left. done.
  - eexists. split; [reflexivity|].
    destruct (finish_fields (count_results st1)) as (_ & _ & _ & Hn' & _ & Hpc' & _ & Hl).
    rewrite Hn', Hpc'. cbn. split; [done|]. right. done.
Qed.

(** Under the windowed schedule every input is processed to the end,
    whatever the store answers and whatever the runtime does with
    unhandled rejections: there are none. *)
Lemma windowed_completes (rows : list row) (st : state) :
  pc st = Reading → Forall sendable (batch st) →
  ∃ st', run e st (windowed e fails st rows) = Some st'
  ∧ pc st' = Exited 0
  ∧ processedCount st' = (processedCount st + length rows)%nat
  ∧ Log INFO MsgSummary ∈ trace st'.
Proof.
  revert st. induction rows as [|r rows IH]; intros st Hpc Hs.
  - cbn [windowed run]. unfold step at 1. rewrite Hpc.
    destruct (0 <? length (batch st))%nat.
    + cbn [mbind option_bind].
      destruct (window_closes (set_pc Flushing st)) as (st' & Hrun & Hn & Hend);
        [by right | done |].
      cbn [set_pc batch pc processedCount] in Hrun, Hn, Hend.
      destruct Hend as [(? & _) | (_ & Hx & Hl)]; [done|].
      exists st'. split; [done|]. split; [done|]. split; [cbn; lia | done].
    + cbn [mbind option_bind run]. eexists. split; [reflexivity|].
      destruct (finish_fields st) as (_ & _ & _ & Hn & _ & Hp & _ & Hl).
      rewrite Hn, Hp. repeat split; [cbn; lia | done].
  - cbn [windowed run].
    assert (Hstep : step e st (RowRead r) = Some (on_row e r st))
      by (unfold step; by rewrite Hpc).
    rewrite Hstep. cbn [mbind option_bind].
    pose proof (on_row_sendable r st Hs) as Hs1.
    destruct (on_row_spec e r st) as (_ & _ & Hn1 & _ & Hc).
    assert (Hpc1 : pc (on_row e r st) = Reading ∨ pc (on_row e r st) = Settling).
    { destruct Hc as [(_ & _ & -> & _) | (_ & -> & _)]; [by left|].
      destruct (ge_number _ _); [by right | by left]. }
    assert (Hmid : ∃ st2,
      run e (on_row e r st)
        match pc (on_row e r st) with
        | Settling => answers fails 0 (batch (on_row e r st)) ++ [AllSettled]
        | _ => []
        end = Some st2
      ∧ pc st2 = Reading ∧ Forall sendable (batch st2)
      ∧ processedCount st2 = S (processedCount st)).
    { destruct Hpc1 as [Hp | Hp]; rewrite Hp.
      - exists (on_row e r st). done.
      - destruct (window_closes (on_row e r st)) as (st2 & Hrun & Hn & Hend);
          [by left | done |].
        destruct Hend as [(_ & Hp2 & Hb2) | (? & _)]; [|congruence].
        exists st2. split; [done|]. split; [done|]. split; [by rewrite Hb2 | congruence]. }
    destruct Hmid as (st2 & Hrun2 & Hpc2 & Hs2 & Hn2).
    rewrite Hrun2. cbn [default from_option id].
    rewrite run_app, Hrun2. cbn [mbind option_bind].
    destruct (IH st2 Hpc2 Hs2) as (st' & Hrun & Hx & Hn' & Hl).
    exists st'. repeat split; try done. rewrite Hn', Hn2. cbn [length]. lia.
Qed.

End Windowed.

Section ExitCodes.

Variable e : process_env.

Lemma summary_snoc (o : output) (tr : list output) :
  o ≠ Log INFO MsgSummary →
  Log INFO MsgSummary ∈ tr ++ [o] → Log INFO MsgSummary ∈ tr.
Proof.
  intros Hne [H | H%list_elem_of_singleton]%elem_of_app; [done | congruence].
Qed.

Lemma on_row_no_summary (r : row) (st : state) :
  Log INFO MsgSummary ∈ trace (on_row e r st) → Log INFO MsgSummary ∈ trace st.
Proof.
  unfold on_row. destruct (negb (isValidRow r)).
  { cbn. by intros H%summary_snoc. }
  unfold processRow, updateItemWithOs.
  destruct (negb (shouldUpdateItem _ _)); [|destruct (getOsFromSourceApp _)];
    cbn [set_batch batch length]; destruct (ge_number _ _);
    unfold log_progress; try destruct (_ =? _)%nat; cbn; intros H;
    repeat (apply summary_snoc in H; [|done]); exact H.
Qed.

(** Where a step leaves the script: still running, exited with 0 after
    the summary, or exited with 1 because the stream threw or because an
    update failed with no handler on its promise. *)
Lemma step_pc (st : state) (ev : event) (st' : state) :
  step e st ev = Some st' →
  running st'
  ∨ (pc st' = Exited 0 ∧ (ev = StreamEnd ∨ ev = AllSettled)
     ∧ Log INFO MsgSummary ∈ trace st')
  ∨ (pc st' = Exited 1
     ∧ (ev = StreamError
        ∨ (unhandled_rejections e = ThrowOnUnhandled ∧ pc st = Reading
           ∧ ∃ i, ev = StoreReply i false))).
Proof.
  intros H. unfold running. destruct (step_inv _ _ _ _ H) as
    [(i & ok & -> & Hne & Hr) | [(r & -> & Hpc & ->) | [(-> & Hpc & Hb & ->) |
    [(-> & Hpc & Hb & ->) | [(-> & Hpc & ->) | [(-> & Hpc & Ho & ->) | (-> & Hpc & Ho & ->)]]]]]].
  - destruct (reply_spec _ _ _ _ _ Hr) as (p & z & _ & [Hpc' | (Hp & -> & Hm & Hx)] & _).
    + left. rewrite Hpc'. destruct (pc st) as [| | |c]; auto. by destruct (Hne c).
    + right; right. split; [done|]. right. eauto.
  - left.
    destruct (on_row_spec e r st) as (_ & _ & _ & _ & [(_ & _ & -> & _) | (_ & -> & _)]);
      [auto|]. destruct (ge_number _ _); auto.
  - left. cbn. auto.
  - right; left. destruct (finish_fields st) as (_ & _ & _ & _ & _ & -> & _ & Hl). auto.
  - right; right. cbn. auto.
  - left.
    destruct (log_progress_fields (set_pc Reading (set_batch [] (count_results st))))
      as (_ & _ & _ & _ & _ & -> & _). cbn. auto.
  - right; left.
    destruct (finish_fields (count_results st)) as (_ & _ & _ & _ & _ & -> & _ & Hl). auto.
Qed.

(** The summary is printed by the step that exits with 0 only. *)
Lemma step_no_summary (st : state) (ev : event) (st' : state) :
  step e st ev = Some st' → pc st' ≠ Exited 0 →
  Log INFO MsgSummary ∈ trace st' → Log INFO MsgSummary ∈ trace st.
Proof.
  intros H Hx. destruct (step_inv _ _ _ _ H) as
    [(i & ok & -> & Hne & Hr) | [(r & -> & Hpc & ->) | [(-> & Hpc & Hb & ->) |
    [(-> & Hpc & Hb & ->) | [(-> & Hpc & ->) | [(-> & Hpc & Ho & ->) | (-> & Hpc & Ho & ->)]]]]]].
  - by destruct (reply_spec _ _ _ _ _ Hr) as (p & z & _ & _ & -> & _).
  - apply on_row_no_summary.
  - done.
  - by destruct (finish_fields st) as (_ & _ & _ & _ & _ & Hp & _).
  - cbn. by intros Hl%summary_snoc.
  - unfold log_progress. destruct (_ =? _)%nat; cbn; [|done].
    by intros Hl%summary_snoc.
  - by destruct (finish_fields (count_results st)) as (_ & _ & _ & _ & _ & Hp & _).
Qed.

Lemma run_no_summary (evs : list event) (st st' : state) :
  run e st evs = Some st' → pc st' ≠ Exited 0 →
  Log INFO MsgSummary ∈ trace st' → Log INFO MsgSummary ∈ trace st.
Proof.
  revert st. induction evs as [|ev evs IH]; intros st Hr Hx Hl.
  - by injection Hr as <-.
  - cbn [run] in Hr. destruct (step e st ev) as [st1|] eqn:Hs; [|done]. cbn in Hr.
    apply (step_no_summary _ _ _ Hs); [|by apply IH].
    intros H0. destruct (run_exited e 0 st1 st' evs H0 Hr) as (_ & ->). done.
Qed.

(** The exit code of a run that ends, and the event that ended it. *)
Lemma exit_code_run (evs : list event) (st st' : state) (c : nat) :
  running st → run e st evs = Some st' → pc st' = Exited c →
  (c = 0 ∧ (last evs = Some StreamEnd ∨ last evs = Some AllSettled)
   ∧ Log INFO MsgSummary ∈ trace st')
  ∨ (c = 1
     ∧ (last evs = Some StreamError
        ∨ (unhandled_rejections e = ThrowOnUnhandled
           ∧ ∃ i, last evs = Some (StoreReply i false)))).
Proof.
  revert st. induction evs as [|ev evs IH]; intros st Hrun Hr Hc.
  - injection Hr as <-. destruct Hrun as [H | [H | H]]; congruence.
  - cbn [run] in Hr. destruct (step e st ev) as [st1|] eqn:Hs; [|done]. cbn in Hr.
    destruct (step_pc _ _ _ Hs) as [Hrun1 | [(Hx & Hev & Hl) | (Hx & Hev)]].
    + destruct evs as [|ev2 evs].
      { injection Hr as <-. destruct Hrun1 as [H | [H | H]]; congruence. }
      change (last (ev :: ev2 :: evs)) with (last (ev2 :: evs)).
      by apply (IH st1).
    + destruct (run_exited e 0 st1 st' evs Hx Hr) as (-> & ->).
      left. split; [congruence|]. cbn. split; [|done].
      destruct Hev as [-> | ->]; auto.
    + destruct (run_exited e 1 st1 st' evs Hx Hr) as (-> & ->).
      right. split; [congruence|]. cbn.
      destruct Hev as [-> | (Hm & _ & i & ->)]; [by left | right; eauto].
Qed.

End ExitCodes.

(** C4 (as amended): a failed update whose promise has a handler (the
    script is waiting in [Promise.allSettled], or the runtime only warns
    about unhandled rejections) only turns that task's promise into a
    rejected one: the other tasks of the window, the store, the tracker,
    the counters and the log are as before, the script is suspended
    where it was, the other tasks can still be answered, and the window
    (or the final flush) closes as soon as nothing is outstanding,
    counting the fulfilled updates only.  When the store answers while
    windows settle, every input is processed to exit code 0 whatever the
    answers are; on a runtime that only warns, also when it answers
    before the next row is read. *)
Theorem failure_is_isolated (e : process_env) (st : state) (i : nat)
    (p : Dynamo.update_params) (z : string) :
  running st → batch st !! i = Some (Pending p z) →
  pc st ≠ Reading ∨ unhandled_rejections e = WarnOnUnhandled →
  ∃ st', step e st (StoreReply i false) = Some st'
  ∧ batch st' = <[i := Rejected]> (batch st)
  ∧ (∀ j, j ≠ i → batch st' !! j = batch st !! j)
  ∧ pc st' = pc st ∧ db st' = db st ∧ processedDevices st' = processedDevices st
  ∧ summary st' = summary st ∧ trace st' = trace st
  ∧ S (outstanding st') = outstanding st
  ∧ (∀ j ok, j ≠ i → is_Some (step e st (StoreReply j ok)) →
       ∃ st'', step e st' (StoreReply j ok) = Some st''
       ∧ (pc st' ≠ Reading ∨ ok = true ∨ unhandled_rejections e = WarnOnUnhandled →
          pc st'' = pc st'))
  ∧ (outstanding st' = 0 → pc st' = Settling →
       ∃ st'', step e st' AllSettled = Some st'' ∧ pc st'' = Reading ∧ batch st'' = []
       ∧ updatedCount st''
         = (updatedCount st'
            + length (filter (λ t, counts_as_updated t = true) (batch st')))%nat)
  ∧ (outstanding st' = 0 → pc st' = Flushing →
       ∃ st'', step e st' AllSettled = Some st'' ∧ pc st'' = Exited 0)
  ∧ (∀ fails rows st0, pc st0 = Reading → batch st0 = [] →
       ∃ st1, run e st0 (windowed e fails st0 rows) = Some st1 ∧ pc st1 = Exited 0
       ∧ processedCount st1 = (processedCount st0 + length rows)%nat)
  ∧ (unhandled_rejections e = WarnOnUnhandled →
     ∀ rows st0, pc st0 = Reading → outstanding st0 = 0 →
       ∃ st1, run e st0 (eager e st0 rows) = Some st1 ∧ pc st1 = Exited 0
       ∧ processedCount st1 = (processedCount st0 + length rows)%nat).
Proof.
  intros Hrun Hi Hh.
  exists (set_batch (<[i := Rejected]> (batch st)) st).
  assert (Hs : step e st (StoreReply i false)
               = Some (set_batch (<[i := Rejected]> (batch st)) st)).
  { rewrite step_reply_open by done. rewrite reply_handled by (destruct Hh; auto).
    unfold resume. by rewrite Hi. }
  split; [done|]. cbn [set_batch batch pc db processedDevices trace].
  split; [done|]. split; [intros j Hj; by apply list_lookup_insert_ne|].
  do 5 (split; [done|]).
  split; [unfold outstanding; cbn [set_batch batch]; by eapply pending_count_insert|].
  split; [|split; [|split; [|split]]].
  - intros j ok Hj Hsome. rewrite step_reply_open in Hsome by done.
    apply reply_is_Some in Hsome.
    assert (Hres : ∃ st2, resume j ok (set_batch (<[i := Rejected]> (batch st)) st) = Some st2
                          ∧ pc st2 = pc st).
    { unfold resume in *. cbn [set_batch batch db].
      rewrite list_lookup_insert_ne by congruence.
      destruct (batch st !! j) as [[p' z'|u|]|]; try by destruct Hsome.
      destruct ok; [|by eexists].
      destruct (Dynamo.update p' (db st)); [by eexists | by destruct Hsome]. }
    destruct Hres as (st2 & Hres & Hpc2).
    rewrite step_reply_open by done. unfold reply. rewrite Hres.
    cbn [mbind option_bind set_batch pc].
    destruct (pc st) eqn:Hp, ok, (unhandled_rejections e) eqn:Hm;
      eexists; (split; [reflexivity|]); intros Hh'; cbn [set_pc pc]; try done;
      by destruct Hh' as [?|[?|?]].
  - intros Ho Hpc. unfold step. cbn [set_batch pc]. rewrite Hpc, Ho.
    cbn [Nat.eqb]. eexists. split; [reflexivity|].
    destruct (log_progress_fields (set_pc Reading (set_batch []
                (count_results (set_batch (<[i:=Rejected]> (batch st)) st)))))
      as (_ & _ & -> & _ & -> & -> & _). done.
  - intros Ho Hpc. unfold step. cbn [set_batch pc]. rewrite Hpc, Ho.
    cbn [Nat.eqb]. eexists. split; [reflexivity|].
    by destruct (finish_fields (count_results (set_batch (<[i:=Rejected]> (batch st)) st)))
      as (_ & _ & _ & _ & _ & -> & _).
  - intros fails rows st0 Hpc0 Hb0.
    destruct (windowed_completes e fails rows st0 Hpc0) as (st1 & H1 & H2 & H3 & _).
    { rewrite Hb0. constructor. }
    by exists st1.
  - intros Hw rows st0 Hpc0 Ho0.
    destruct (eager_completes e rows st0 (or_introl Hw) Hpc0 Ho0) as (st1 & H1 & H2 & H3 & _).
    by exists st1.
Qed.

Lemma failure_is_isolated_witness :
  let st := set_pc Flushing (on_row env_throw (mk_row "u1" "z1" "mac")
                               (main env_throw file_present ∅)) in
  ∃ st', step env_throw st (StoreReply 0 false) = Some st'
  ∧ batch st' = [Rejected] ∧ pc st' = Flushing ∧ outstanding st' = 0.
Proof.
  cbv zeta.
  destruct (failure_is_isolated env_throw
              (set_pc Flushing (on_row env_throw (mk_row "u1" "z1" "mac")
                                  (main env_throw file_present ∅)))
              0 (updateParams env_throw "u1" "z1" "Mac") "z1")
    as (st' & Hs & Hb & _ & Hpc & _ & _ & _ & _ & Ho & _).
  - right; right. reflexivity.
  - reflexivity.
  - left. vm_compute. discriminate.
  - exists st'. split; [exact Hs|]. split; [exact Hb|]. split; [exact Hpc|].
    injection Ho as Ho. exact Ho.
Defined.

(** C4 as stated fails: a failed update leaves no trace in the log and no
    record in the summary; the run ends as if the row had been skipped.
    The failure arrives after the end of the stream, while the script
    waits in [Promise.allSettled], so this is what happens on every
    runtime. *)
Lemma failed_update_is_silent :
  (∃ st, run env_default (main env_default file_present ∅)
           [RowRead (mk_row "u1" "z1" "mac"); StreamEnd; StoreReply 0 false; AllSettled]
         = Some st
   ∧ pc st = Exited 0
   ∧ batch st = [Rejected]
   ∧ logged ERROR (trace st) = []
   ∧ logged WARN (trace st) = []
   ∧ logged INFO (trace st)
     = [MsgStarting "qa-user" "./logs-insights-results.csv";
        MsgProcessing "u1" "z1" "mac"; MsgCsvComplete 1 0; MsgSummary;
        MsgTotalProcessed 1; MsgTotalUpdated 0; MsgSetSize 0; MsgExecutionTime])
  ∧ (∃ st, run env_throw (main env_throw file_present ∅)
             [RowRead (mk_row "u1" "z1" "mac"); StreamEnd; StoreReply 0 false; AllSettled]
           = Some st
     ∧ pc st = Exited 0
     ∧ batch st = [Rejected]
     ∧ logged ERROR (trace st) = []
     ∧ logged WARN (trace st) = []
     ∧ summary st = (1, 0)).
Proof.
  split; (eexists; split; [vm_compute; reflexivity|]); by vm_compute.
Qed.

(** C9: when the input file does not exist the process exits with code 1
    having logged only the error: no row is read, no store call is made
    and no summary is printed.  When it exists, every input is processed
    to exit code 0 with the summary printed if no update fails, or if
    the store answers while windows settle, or if the runtime only warns
    about unhandled rejections.  On a runtime that throws on them, an
    update that fails while the loop waits for the next row ends the
    process with exit code 1 and no summary.  A run that ends does so
    with code 0 after the end of the stream, or with code 1 because the
    stream threw or because of such a failed update, the summary being
    printed in the first case only. *)
Theorem exit_codes (e : process_env) (ex : string → bool)
    (db0 : gmap (string * (string * string)) (gmap string string)) :
  let path := Str.or_else (env_FILE_PATH e) "./logs-insights-results.csv" in
  (ex path = false →
     pc (main e ex db0) = Exited 1
     ∧ trace (main e ex db0) = [Log ERROR (MsgNotFound path)]
     ∧ ∀ evs st, run e (main e ex db0) evs = Some st →
         evs = [] ∧ calls (trace st) = [] ∧ Log INFO MsgSummary ∉ trace st)
  ∧ (ex path = true →
     (∀ rows, unhandled_rejections e = WarnOnUnhandled ∨ Forall (λ ro, ro.2 = true) rows →
        ∃ st, run e (main e ex db0) (eager e (main e ex db0) rows) = Some st
        ∧ pc st = Exited 0 ∧ processedCount st = length rows
        ∧ Log INFO MsgSummary ∈ trace st)
     ∧ (∀ fails rows,
        ∃ st, run e (main e ex db0) (windowed e fails (main e ex db0) rows) = Some st
        ∧ pc st = Exited 0 ∧ processedCount st = length rows
        ∧ Log INFO MsgSummary ∈ trace st)
     ∧ (unhandled_rejections e = ThrowOnUnhandled →
        ∀ evs st i p z, run e (main e ex db0) evs = Some st →
          pc st = Reading → batch st !! i = Some (Pending p z) →
          ∃ st', run e (main e ex db0) (evs ++ [StoreReply i false]) = Some st'
          ∧ pc st' = Exited 1 ∧ trace st' = trace st
          ∧ Log INFO MsgSummary ∉ trace st')
     ∧ (∀ evs st c, run e (main e ex db0) evs = Some st → pc st = Exited c →
          (c = 0 ∧ (last evs = Some StreamEnd ∨ last evs = Some AllSettled)
           ∧ Log INFO MsgSummary ∈ trace st)
          ∨ (c = 1 ∧ (Log INFO MsgSummary ∉ trace st)
             ∧ (last evs = Some StreamError
                ∨ (unhandled_rejections e = ThrowOnUnhandled
                   ∧ ∃ i, last evs = Some (StoreReply i false)))))).
Proof.
  cbv zeta. split; intros Hex.
  - assert (Hm : main e ex db0
                 = set_pc (Exited 1)
                     (emit (Log ERROR (MsgNotFound
                        (Str.or_else (env_FILE_PATH e) "./logs-insights-results.csv")))
                        {| processedDevices := ∅; db := db0; batch := [];
                           processedCount := 0; updatedCount := 0; pc := Reading;
                           trace := [] |})).
    { unfold main. by rewrite Hex. }
    rewrite Hm. cbn [set_pc emit pc trace app]. split; [done|]. split; [done|].
    intros evs st Hrun.
    eapply (run_exited e 1) in Hrun; [|reflexivity]. destruct Hrun as (-> & ->).
    cbn. split; [done|]. split; [done|].
    intros [[=]|Hin%elem_of_nil]%elem_of_cons. done.
  - destruct (main_fields e ex db0) as (Hb & _ & _ & Hn & _ & Hpc). rewrite Hex in Hpc.
    assert (Hstart : Log INFO MsgSummary ∉ trace (main e ex db0)).
    { unfold main. rewrite Hex. cbn.
      intros [[=]|Hin%elem_of_nil]%elem_of_cons. done. }
    assert (Hquiet : ∀ evs st, run e (main e ex db0) evs = Some st →
              pc st ≠ Exited 0 → Log INFO MsgSummary ∉ trace st).
    { intros evs st Hrun Hx Hl. apply Hstart. by eapply run_no_summary. }
    split; [|split; [|split]].
    + intros rows Hh. destruct (eager_completes e rows (main e ex db0) Hh Hpc)
        as (st & Hrun & Hx & Hcount & Hl).
      { unfold outstanding. by rewrite Hb. }
      exists st. rewrite Hcount, Hn. done.
    + intros fails rows. destruct (windowed_completes e fails rows (main e ex db0) Hpc)
        as (st & Hrun & Hx & Hcount & Hl).
      { rewrite Hb. constructor. }
      exists st. rewrite Hcount, Hn. done.
    + intros Hm evs st i p z Hrun Hp Hi.
      rewrite run_app, Hrun. cbn [mbind option_bind run].
      rewrite step_reply_open by (by left).
      rewrite reply_unhandled by done. unfold resume. rewrite Hi.
      cbn [fmap option_fmap option_map mbind option_bind].
      eexists. split; [reflexivity|]. cbn [set_pc set_batch pc trace].
      split; [done|]. split; [done|].
      apply (Hquiet evs st Hrun). by rewrite Hp.
    + intros evs st c Hrun Hc.
      destruct (exit_code_run e evs (main e ex db0) st c) as [(-> & Hl & Hs) | (-> & Hl)];
        [by left | done | done | by left |].
      right. split; [done|]. split; [|done].
      apply (Hquiet evs st Hrun). by rewrite Hc.
Qed.

Lemma exit_codes_witness :
  pc (main env_throw file_absent ∅) = Exited 1
  ∧ ∃ st, run env_throw (main env_throw file_present ∅)
            ([RowRead (mk_row "u1" "z1" "mac")] ++ [StoreReply 0 false]) = Some st
    ∧ pc st = Exited 1 ∧ Log INFO MsgSummary ∉ trace st.
Proof.
  destruct (exit_codes env_throw file_absent ∅) as (Habsent & _).
  destruct (exit_codes env_throw file_present ∅) as (_ & Hpresent).
  split; [exact (proj1 (Habsent eq_refl))|].
  destruct (proj1 (proj2 (proj2 (Hpresent eq_refl))) eq_refl
              [RowRead (mk_row "u1" "z1" "mac")]
              (on_row env_throw (mk_row "u1" "z1" "mac") (main env_throw file_present ∅))
              0 (updateParams env_throw "u1" "z1" "Mac") "z1")
    as (st & Hrun & Hx & _ & Hl).
  - vm_compute. reflexivity.
  - reflexivity.
  - reflexivity.
  - exists st. split; [exact Hrun|]. split; [exact Hx | exact Hl].
Defined.

(** The same answers on the two kinds of runtime: the update of the first
    row fails before the second row is read. *)
Example failed_update_while_reading :
  (∃ st, run env_default (main env_default file_present ∅)
           [RowRead (mk_row "u1" "z1" "mac"); StoreReply 0 false;
            RowRead (mk_row "u2" "z2" "windows"); StoreReply 1 true;
            StreamEnd; AllSettled] = Some st
   ∧ pc st = Exited 0 ∧ summary st = (2, 1))
  ∧ (∃ st, run env_throw (main env_throw file_present ∅)
             [RowRead (mk_row "u1" "z1" "mac"); StoreReply 0 false] = Some st
     ∧ pc st = Exited 1 ∧ summary st = (1, 0)
     ∧ logged INFO (trace st)
       = [MsgStarting "qa-user" "./logs-insights-results.csv";
          MsgProcessing "u1" "z1" "mac"]
     ∧ logged ERROR (trace st) = []
     ∧ run env_throw st [RowRead (mk_row "u2" "z2" "windows")] = None).
Proof.
  split; (eexists; split; [vm_compute; reflexivity|]); by vm_compute.
Qed.

(** ** The summary (C5) *)

Lemma rows_of_cons (ev : event) (evs : list event) :
  rows_of (ev :: evs)
  = match ev with RowRead r => r :: rows_of evs | _ => rows_of evs end.
Proof. by destruct ev. Qed.

Lemma processedCount_run (e : process_env) (evs : list event) (st st' : state) :
  run e st evs = Some st' →
  processedCount st' = (processedCount st + length (rows_of evs))%nat.
Proof.
  revert st. induction evs as [|ev evs IH]; intros st Hrun.
  - injection Hrun as <-. cbn. lia.
  - cbn [run] in Hrun. destruct (step e st ev) as [st1|] eqn:Hs; [|done]. cbn in Hrun.
    rewrite (IH _ Hrun), rows_of_cons.
    destruct (step_inv _ _ _ _ Hs) as
      [(i & ok & -> & Hne & Hr) | [(r & -> & Hpc & ->) | [(-> & Hpc & Hb & ->) |
      [(-> & Hpc & Hb & ->) | [(-> & Hpc & ->) | [(-> & Hpc & Ho & ->) | (-> & Hpc & Ho & ->)]]]]]].
    + by destruct (reply_spec _ _ _ _ _ Hr) as (p & z & _ & _ & _ & -> & _).
    + destruct (on_row_spec e r st) as (_ & _ & -> & _). cbn [length]. lia.
    + done.
    + by destruct (finish_fields st) as (_ & _ & _ & -> & _).
    + done.
    + by destruct (log_progress_fields (set_pc Reading (set_batch [] (count_results st))))
        as (_ & _ & _ & -> & _).
    + by destruct (finish_fields (count_results st)) as (_ & _ & _ & -> & _).
Qed.

(** C5 (as amended): for the scenario's eight rows every run counts
    processed = 8; when every update succeeds before the next row is read
    the summary is processed = 8, updated = 5, with one warning for the
    invalid row, one "No OS detected" and one "Skipping update" line; when
    the updates are still in flight as the duplicate row is read, it is
    dispatched as well and the summary is processed = 8, updated = 6. *)
Theorem scenario_summary :
  (∀ evs st, rows_of evs = scenario_rows →
     run env_default (main env_default file_present ∅) evs = Some st →
     processedCount st = 8)
  ∧ (∃ st, run env_default (main env_default file_present ∅)
             (eager env_default (main env_default file_present ∅) scenario_all_ok)
           = Some st
     ∧ pc st = Exited 0 ∧ summary st = (8, 5)
     ∧ length (calls (trace st)) = 5
     ∧ logged ERROR (trace st) = []
     ∧ logged WARN (trace st) = [MsgMissing (mk_row "" "z7" "mac")]
     ∧ logged INFO (trace st)
       = [MsgStarting "qa-user" "./logs-insights-results.csv";
          MsgProcessing "u1" "z1" "mac"; MsgProcessing "u2" "z2" "MacOS 14";
          MsgProcessing "u3" "z3" "agent-Mac"; MsgProcessing "u4" "z4" "windows";
          MsgProcessing "u5" "z5" "Windows 11";
          MsgProcessing "u6" "z6" "linux"; MsgNoOs "u6" "z6";
          MsgProcessing "u1" "z1" "mac"; MsgSkipping "u1" "z1";
          MsgCsvComplete 8 5; MsgSummary; MsgTotalProcessed 8;
          MsgTotalUpdated 5; MsgSetSize 5; MsgExecutionTime])
  ∧ (∃ st, run env_default (main env_default file_present ∅) scenario_in_flight = Some st
     ∧ pc st = Exited 0 ∧ summary st = (8, 6)
     ∧ length (calls (trace st)) = 6).
Proof.
  split; [|split].
  - intros evs st Hrows Hrun. rewrite (processedCount_run _ _ _ _ Hrun), Hrows.
    reflexivity.
  - eexists. split; [vm_compute; reflexivity|]. by vm_compute.
  - eexists. split; [vm_compute; reflexivity|]. by vm_compute.
Qed.

(** C5 as stated fails: the eight rows are all counted, so no complete run
    on the scenario reports processed = 7. *)
Lemma scenario_summary_is_not_7_5 :
  ¬ (∀ evs st, rows_of evs = scenario_rows →
       run env_default (main env_default file_present ∅) evs = Some st →
       pc st = Exited 0 → summary st = (7, 5)).
Proof.
  intros H.
  destruct (run env_default (main env_default file_present ∅)
              (eager env_default (main env_default file_present ∅) scenario_all_ok))
    as [st|] eqn:Hrun; [|by vm_compute in Hrun].
  assert (Hrows : rows_of (eager env_default (main env_default file_present ∅)
                             scenario_all_ok) = scenario_rows) by (by vm_compute).
  assert (Hpc : pc st = Exited 0).
  { vm_compute in Hrun. injection Hrun as <-. reflexivity. }
  specialize (H _ st Hrows Hrun Hpc).
  pose proof (processedCount_run _ _ _ _ Hrun) as Hn. rewrite Hrows in Hn.
  unfold summary in H. injection H as H7 _. rewrite H7 in Hn. cbn in Hn. lia.
Qed.

(** * Further properties of the concurrent script *)

(** ** Rows read, warnings, progress lines *)

Lemma logged_app (l : level) (a b : list output) :
  logged l (a ++ b) = logged l a ++ logged l b.
Proof. unfold logged. apply omap_app. Qed.

Lemma on_row_warnings (e : process_env) (r : row) (st : state) :
  logged WARN (trace (on_row e r st))
  = logged WARN (trace st) ++ (if isValidRow r then [] else [MsgMissing r]).
Proof.
  unfold on_row, processRow, updateItemWithOs, log_progress.
  destruct (isValidRow r); cbn [negb];
    repeat match goal with
      | |- context [if ?b then _ else _] => destruct b
      | |- context [match getOsFromSourceApp ?a with _ => _ end] =>
          destruct (getOsFromSourceApp a)
      end;
    cbn [emit set_batch set_pc set_counts trace fst snd];
    rewrite ?logged_app; cbn; by rewrite ?app_nil_r.
Qed.

Lemma step_warnings (e : process_env) (st : state) (ev : event) (st' : state) :
  step e st ev = Some st' →
  logged WARN (trace st')
  = logged WARN (trace st)
    ++ match ev with
       | RowRead r => if isValidRow r then [] else [MsgMissing r]
       | _ => []
       end.
Proof.
  intros H. destruct (step_inv _ _ _ _ H) as
    [(i & ok & -> & Hne & Hr) | [(r & -> & Hpc & ->) | [(-> & Hpc & Hb & ->) |
    [(-> & Hpc & Hb & ->) | [(-> & Hpc & ->) | [(-> & Hpc & Ho & ->) | (-> & Hpc & Ho & ->)]]]]]].
  - destruct (reply_spec _ _ _ _ _ Hr) as (p & z & _ & _ & -> & _). by rewrite app_nil_r.
  - apply on_row_warnings.
  - cbn [set_pc trace]. by rewrite app_nil_r.
  - unfold finish. cbn [emit set_pc trace]. rewrite !logged_app. cbn.
    by rewrite !app_nil_r.
  - cbn [emit set_pc trace]. rewrite logged_app. cbn. by rewrite !app_nil_r.
  - unfold log_progress. destruct (_ =? _)%nat;
      cbn [emit set_pc set_batch set_counts count_results trace];
      rewrite ?logged_app; cbn; by rewrite ?app_nil_r.
  - unfold finish. cbn [emit set_pc set_counts count_results trace].
    rewrite !logged_app. cbn. by rewrite !app_nil_r.
Qed.

Lemma run_warnings (e : process_env) (evs : list event) (st st' : state) :
  run e st evs = Some st' →
  logged WARN (trace st')
  = logged WARN (trace st)
    ++ (MsgMissing <$> filter (λ r, isValidRow r = false) (rows_of evs)).
Proof.
  revert st. induction evs as [|ev evs IH]; intros st Hrun.
  - injection Hrun as <-. cbn. by rewrite app_nil_r.
  - cbn [run] in Hrun. destruct (step e st ev) as [st1|] eqn:Hs; [|done]. cbn in Hrun.
    rewrite (IH _ Hrun), (step_warnings _ _ _ _ Hs), rows_of_cons, <- app_assoc.
    f_equal. destruct ev as [r| | |i ok|]; try done.
    rewrite filter_cons. destruct (isValidRow r); by case_decide.
Qed.

(** X1: every row the stream delivers is counted, valid or not, and the
    warnings logged are exactly the rows that fail [isValidRow], in the
    order they were read. *)
Theorem rows_counted_and_warned (e : process_env) (ex : string → bool)
    (db0 : gmap (string * (string * string)) (gmap string string))
    (evs : list event) (st : state) :
  ex (Str.or_else (env_FILE_PATH e) "./logs-insights-results.csv") = true →
  run e (main e ex db0) evs = Some st →
  processedCount st = length (rows_of evs)
  ∧ logged WARN (trace st)
    = MsgMissing <$> filter (λ r, isValidRow r = false) (rows_of evs).
Proof.
  intros Hex Hrun. split.
  - rewrite (processedCount_run _ _ _ _ Hrun).
    by destruct (main_fields e ex db0) as (_ & _ & _ & -> & _).
  - rewrite (run_warnings _ _ _ _ Hrun). unfold main. by rewrite Hex.
Qed.

Lemma rows_counted_and_warned_witness :
  ∃ st, run env_default (main env_default file_present ∅)
          [RowRead (mk_row "" "z7" "mac"); RowRead (mk_row "u1" "z1" "mac")] = Some st
  ∧ processedCount st = 2
  ∧ logged WARN (trace st) = [MsgMissing (mk_row "" "z7" "mac")].
Proof.
  eexists. split; [vm_compute; reflexivity|].
  apply (rows_counted_and_warned env_default file_present ∅
           [RowRead (mk_row "" "z7" "mac"); RowRead (mk_row "u1" "z1" "mac")]).
  - reflexivity.
  - vm_compute; reflexivity.
Defined.

(** ** The updated count and the tracker *)

Lemma successes_cons (ev : event) (evs : list event) :
  successes (ev :: evs) = ((if is_success ev then 1 else 0) + successes evs)%nat.
Proof.
  unfold successes. rewrite filter_cons. destruct (is_success ev); by case_decide.
Qed.

Lemma fulfilled_updates_insert (b : list promise) (i : nat) (p : Dynamo.update_params)
    (z : string) (t : promise) :
  b !! i = Some (Pending p z) →
  fulfilled_updates (<[i := t]> b)
  = (fulfilled_updates b + if counts_as_updated t then 1 else 0)%nat.
Proof.
  unfold fulfilled_updates. revert i. induction b as [|a b IH]; intros [|i] Hi; try done.
  - cbn in Hi. injection Hi as ->. cbn [insert list_insert]. rewrite !filter_cons.
    cbn [counts_as_updated]. rewrite (decide_False (P := false = true)) by done.
    destruct (counts_as_updated t); case_decide; try done; cbn [length]; lia.
  - cbn in Hi. change (<[S i:=t]> (a :: b)) with (a :: <[i:=t]> b).
    rewrite !filter_cons. specialize (IH i Hi).
    destruct (decide (counts_as_updated a = true)); cbn [length]; rewrite IH; lia.
Qed.

Lemma fulfilled_updates_snoc (b : list promise) (t : promise) :
  fulfilled_updates (b ++ [t])
  = (fulfilled_updates b + if counts_as_updated t then 1 else 0)%nat.
Proof.
  unfold fulfilled_updates. rewrite filter_app, length_app.
  rewrite filter_cons, filter_nil. destruct (counts_as_updated t); by case_decide.
Qed.

Lemma fulfilled_updates_nil : fulfilled_updates [] = 0.
Proof. reflexivity. Qed.

Section Accounting.

Variable e : process_env.

(** What is counted plus what waits in the batch to be counted grows by
    one with every successful reply, and by nothing else. *)
Lemma step_credit (st : state) (ev : event) (st' : state) :
  step e st ev = Some st' → pc st' ≠ Exited 1 →
  (updatedCount st'
   + match pc st' with Exited _ => 0 | _ => fulfilled_updates (batch st') end
   = updatedCount st + fulfilled_updates (batch st)
     + if is_success ev then 1 else 0)%nat.
Proof.
  intros H Hx. destruct (step_inv _ _ _ _ H) as
    [(i & ok & -> & Hne & Hr) | [(r & -> & Hpc & ->) | [(-> & Hpc & Hb & ->) |
    [(-> & Hpc & Hb & ->) | [(-> & Hpc & ->) | [(-> & Hpc & Ho & ->) | (-> & Hpc & Ho & ->)]]]]]].
  - destruct (reply_spec _ _ _ _ _ Hr)
      as (p & z & Hi & [Hpc' | (_ & _ & _ & Hx')] & _ & _ & Hu & Hok); [|congruence].
    rewrite Hpc', Hu.
    assert (Hb : fulfilled_updates (batch st')
                 = (fulfilled_updates (batch st) + if ok then 1 else 0)%nat).
    { destruct ok; destruct Hok as (_ & _ & ->);
        by rewrite (fulfilled_updates_insert _ _ p z). }
    rewrite Hb. destruct (pc st) as [| | |c]; [| | |by destruct (Hne c)];
      destruct ok; cbn [is_success]; lia.
  - destruct (on_row_spec e r st) as (_ & _ & _ & Hu & Hc). rewrite Hu. cbn [is_success].
    destruct Hc as [(_ & -> & -> & _) | (_ & -> & Hc)].
    { rewrite Hpc. lia. }
    assert (Hb : fulfilled_updates (batch (on_row e r st)) = fulfilled_updates (batch st)).
    { destruct Hc as [(_ & -> & _) | [(_ & _ & -> & _) | (o & _ & _ & -> & _)]];
        rewrite fulfilled_updates_snoc; cbn; lia. }
    rewrite Hb, Hpc. destruct (ge_number _ _); lia.
  - cbn [set_pc pc batch updatedCount is_success]. lia.
  - destruct (finish_fields st) as (_ & _ & _ & _ & -> & -> & _).
    rewrite Hb. unfold fulfilled_updates. cbn [is_success filter list_filter length]. lia.
  - by cbn in Hx.
  - destruct (log_progress_fields (set_pc Reading (set_batch [] (count_results st))))
      as (_ & _ & -> & _ & -> & -> & _).
    cbn [set_pc set_batch set_counts count_results pc batch updatedCount is_success].
    unfold fulfilled_updates. cbn [filter list_filter length]. lia.
  - destruct (finish_fields (count_results st)) as (_ & _ & _ & _ & -> & -> & _).
    cbn [set_counts count_results updatedCount is_success].
    unfold fulfilled_updates. lia.
Qed.

Lemma run_credit (evs : list event) (st st' : state) :
  running st → run e st evs = Some st' → pc st' ≠ Exited 1 →
  (updatedCount st'
   + match pc st' with Exited _ => 0 | _ => fulfilled_updates (batch st') end
   = updatedCount st + fulfilled_updates (batch st) + successes evs)%nat.
Proof.
  revert st. induction evs as [|ev evs IH]; intros st Hrun Hr Hx.
  - injection Hr as <-. unfold successes. cbn.
    destruct Hrun as [-> | [-> | ->]]; lia.
  - cbn [run] in Hr. destruct (step e st ev) as [st1|] eqn:Hs; [|done]. cbn in Hr.
    rewrite successes_cons.
    destruct (step_pc _ _ _ _ Hs) as [Hrun1 | [(Hx0 & _) | (Hx1 & _)]].
    + rewrite (IH st1 Hrun1 Hr Hx).
      assert (Hn1 : pc st1 ≠ Exited 1) by (destruct Hrun1 as [H | [H | H]]; congruence).
      pose proof (step_credit _ _ _ Hs Hn1) as Hc.
      destruct Hrun1 as [H | [H | H]]; rewrite H in Hc; lia.
    + destruct (run_exited e 0 st1 st' evs Hx0 Hr) as (-> & ->).
      assert (Hn1 : pc st1 ≠ Exited 1) by congruence.
      pose proof (step_credit _ _ _ Hs Hn1) as Hc. unfold successes. cbn. lia.
    + destruct (run_exited e 1 st1 st' evs Hx1 Hr) as (-> & ->). done.
Qed.

Lemma step_tracker_size (st : state) (ev : event) (st' : state) :
  step e st ev = Some st' →
  (size (processedDevices st')
   ≤ size (processedDevices st) + if is_success ev then 1 else 0)%nat.
Proof.
  intros H. destruct (step_inv _ _ _ _ H) as
    [(i & ok & -> & Hne & Hr) | [(r & -> & Hpc & ->) | [(-> & Hpc & Hb & ->) |
    [(-> & Hpc & Hb & ->) | [(-> & Hpc & ->) | [(-> & Hpc & Ho & ->) | (-> & Hpc & Ho & ->)]]]]]].
  - destruct (reply_spec _ _ _ _ _ Hr) as (p & z & _ & _ & _ & _ & _ & Hok).
    destruct ok; destruct Hok as (_ & -> & _); cbn [is_success]; [|lia].
    rewrite size_union_alt, size_singleton.
    assert (Hsub : processedDevices st ∖ {[z]} ⊆ processedDevices st)
      by apply subseteq_difference_l, reflexivity.
    pose proof (subseteq_size _ _ Hsub) as Hs. lia.
  - destruct (on_row_spec e r st) as (-> & _). cbn. lia.
  - cbn. lia.
  - destruct (finish_fields st) as (-> & _). cbn. lia.
  - cbn. lia.
  - destruct (log_progress_fields (set_pc Reading (set_batch [] (count_results st))))
      as (-> & _). cbn. lia.
  - destruct (finish_fields (count_results st)) as (-> & _). cbn. lia.
Qed.

Lemma run_tracker_size (evs : list event) (st st' : state) :
  run e st evs = Some st' →
  (size (processedDevices st') ≤ size (processedDevices st) + successes evs)%nat.
Proof.
  revert st. induction evs as [|ev evs IH]; intros st Hr.
  - injection Hr as <-. lia.
  - cbn [run] in Hr. destruct (step e st ev) as [st1|] eqn:Hs; [|done]. cbn in Hr.
    rewrite successes_cons. pose proof (IH _ Hr). pose proof (step_tracker_size _ _ _ Hs).
    lia.
Qed.

End Accounting.

(** X2: when a run ends with exit code 0, the updated count of the summary
    is the number of store updates that succeeded; while the run goes on,
    that number is what is already counted plus the fulfilled updates
    waiting in the batch. *)
Theorem updated_count_is_successes (e : process_env) (ex : string → bool)
    (db0 : gmap (string * (string * string)) (gmap string string))
    (evs : list event) (st : state) :
  ex (Str.or_else (env_FILE_PATH e) "./logs-insights-results.csv") = true →
  run e (main e ex db0) evs = Some st →
  (pc st = Exited 0 → updatedCount st = successes evs)
  ∧ (running st →
     (updatedCount st + fulfilled_updates (batch st))%nat = successes evs).
Proof.
  intros Hex Hrun.
  destruct (main_fields e ex db0) as (Hb & _ & _ & _ & Hu & Hpc). rewrite Hex in Hpc.
  assert (Hm : running (main e ex db0)) by (by left).
  split.
  - intros Hx. assert (Hn : pc st ≠ Exited 1) by congruence.
    pose proof (run_credit e evs _ _ Hm Hrun Hn) as Hc.
    rewrite Hx, Hu, Hb, fulfilled_updates_nil in Hc. lia.
  - intros Hr. assert (Hn : pc st ≠ Exited 1) by (destruct Hr as [H | [H | H]]; congruence).
    pose proof (run_credit e evs _ _ Hm Hrun Hn) as Hc.
    rewrite Hu, Hb, fulfilled_updates_nil in Hc.
    destruct Hr as [H | [H | H]]; rewrite H in Hc; lia.
Qed.

Lemma updated_count_is_successes_witness :
  let evs := [RowRead (mk_row "u1" "z1" "mac"); RowRead (mk_row "u2" "z2" "windows");
              StoreReply 1 true; StoreReply 0 false; StreamEnd; AllSettled] in
  let m := main env_default file_present ∅ in
  let st := default m (run env_default m evs) in
  pc st = Exited 0 ∧ updatedCount st = 1.
Proof.
  cbv zeta. split; [vm_compute; reflexivity|].
  assert (Hrun : run env_default (main env_default file_present ∅)
            [RowRead (mk_row "u1" "z1" "mac"); RowRead (mk_row "u2" "z2" "windows");
             StoreReply 1 true; StoreReply 0 false; StreamEnd; AllSettled]
          = Some (default (main env_default file_present ∅)
              (run env_default (main env_default file_present ∅)
                 [RowRead (mk_row "u1" "z1" "mac"); RowRead (mk_row "u2" "z2" "windows");
                  StoreReply 1 true; StoreReply 0 false; StreamEnd; AllSettled])))
    by (vm_compute; reflexivity).
  apply (proj1 (updated_count_is_successes env_default file_present ∅ _ _ eq_refl Hrun)).
  vm_compute; reflexivity.
Defined.

(** X3: the tracker never holds more zids than updates have succeeded, so
    in a run that ends with exit code 0 the "Processed devices in set"
    figure is at most the updated count (it is smaller when one zid was
    updated more than once). *)
Theorem tracker_size_at_most_updated (e : process_env) (ex : string → bool)
    (db0 : gmap (string * (string * string)) (gmap string string))
    (evs : list event) (st : state) :
  ex (Str.or_else (env_FILE_PATH e) "./logs-insights-results.csv") = true →
  run e (main e ex db0) evs = Some st →
  (size (processedDevices st) ≤ successes evs)%nat
  ∧ (pc st = Exited 0 → (size (processedDevices st) ≤ updatedCount st)%nat).
Proof.
  intros Hex Hrun.
  pose proof (run_tracker_size e evs _ _ Hrun) as Hs.
  destruct (main_fields e ex db0) as (_ & Hd & _). rewrite Hd, size_empty in Hs.
  split; [lia|]. intros Hx.
  destruct (main_fields e ex db0) as (Hb & _ & _ & _ & Hu & Hpc). rewrite Hex in Hpc.
  assert (Hn : pc st ≠ Exited 1) by congruence.
  pose proof (run_credit e evs _ _ (or_introl Hpc) Hrun Hn) as Hc.
  rewrite Hx, Hu, Hb, fulfilled_updates_nil in Hc. lia.
Qed.

Lemma tracker_size_at_most_updated_witness :
  let m := main env_default file_present ∅ in
  let st := default m (run env_default m scenario_in_flight) in
  (size (processedDevices st) ≤ updatedCount st)%nat
  ∧ size (processedDevices st) = 5 ∧ updatedCount st = 6.
Proof.
  cbv zeta.
  assert (Hrun : run env_default (main env_default file_present ∅) scenario_in_flight
                 = Some (default (main env_default file_present ∅)
                           (run env_default (main env_default file_present ∅)
                              scenario_in_flight)))
    by (vm_compute; reflexivity).
  split; [|split; vm_compute; reflexivity].
  apply (tracker_size_at_most_updated env_default file_present ∅ scenario_in_flight
           _ eq_refl Hrun).
  vm_compute; reflexivity.
Defined.

(** ** What is sent to the store, and what the store keeps *)

Lemma getOsFromSourceApp_values (a o : string) :
  getOsFromSourceApp a = Some o → o = "Mac" ∨ o = "Windows".
Proof.
  unfold getOsFromSourceApp.
  destruct (Str.includes _ "mac"); [intros [= <-]; by left|].
  destruct (Str.includes _ "windows"); [intros [= <-]; by right | done].
Qed.

Lemma isValidRow_fields (r : row) :
  isValidRow r = true →
  Str.interp (suid r) ≠ "" ∧ Str.interp (zid r) ≠ "" ∧ Str.interp (sourceApp r) ≠ "".
Proof.
  unfold isValidRow. destruct r as [[[|c1 s1]|] [[|c2 s2]|] [[|c3 s3]|]]; by cbn.
Qed.

Section Requests.

Variable e : process_env.

Lemma step_calls_request (st : state) (ev : event) (st' : state) :
  step e st ev = Some st' →
  calls (trace st') = calls (trace st)
  ∨ ∃ p, row_request e p ∧ calls (trace st') = calls (trace st) ++ [p].
Proof.
  intros H. destruct (step_calls _ _ _ _ H) as (_ & [Hsame | (r & o & -> & Hz & Hc)]);
    [by left|].
  destruct (step_inv _ _ _ _ H) as [(i & ok & [=] & _) | [(r' & [= <-] & Hpc & ->) | Hrest]];
    [|by destruct Hrest as [([=] & _) | [([=] & _) | [([=] & _) | [([=] & _) | ([=] & _)]]]]].
  destruct (on_row_spec e r st) as (_ & _ & _ & _ & [(_ & _ & _ & Hc') | (Hv & _ & Hc')]).
  { by left. }
  destruct Hc' as [(_ & _ & Hc') | [(_ & _ & _ & Hc') | (o' & _ & Ho & _ & Hc')]];
    [by left | by left |].
  right. eexists. split; [|exact Hc'].
  destruct (isValidRow_fields r Hv) as (Hs & Hz' & _).
  exists (Str.interp (suid r)), (Str.interp (zid r)), o'.
  split; [done|]. split; [done|]. split; [done|]. by eapply getOsFromSourceApp_values.
Qed.

Lemma step_batch_requests (st : state) (ev : event) (st' : state) :
  step e st ev = Some st' → batch_requests e st → batch_requests e st'.
Proof.
  intros H Hinv. unfold batch_requests in *.
  destruct (step_inv _ _ _ _ H) as
    [(i & ok & -> & Hne & Hr) | [(r & -> & Hpc & ->) | [(-> & Hpc & Hb & ->) |
    [(-> & Hpc & Hb & ->) | [(-> & Hpc & ->) | [(-> & Hpc & Ho & ->) | (-> & Hpc & Ho & ->)]]]]]].
  - destruct (reply_spec _ _ _ _ _ Hr) as (p & z & Hi & _ & -> & _ & _ & Hok).
    intros j q zq Hj. apply (Hinv j).
    assert (Hb : ∃ t, is_pending t = false ∧ batch st' = <[i := t]> (batch st)).
    { destruct ok; destruct Hok as (_ & _ & ->);
        [by exists (Fulfilled true) | by exists Rejected]. }
    destruct Hb as (t & Ht & Hb). rewrite Hb in Hj.
    destruct (decide (i = j)) as [<-|Hij].
    + apply list_lookup_insert_Some in Hj as [(_ & -> & _) | (Hii & _)];
        [done | by destruct Hii].
    + by rewrite list_lookup_insert_ne in Hj.
  - destruct (on_row_spec e r st) as (_ & _ & _ & _ & Hc).
    intros j q zq Hj.
    assert (Hold : ∀ tr, batch st !! j = Some (Pending q zq) →
              calls (trace (on_row e r st)) = calls (trace st) ++ tr →
              q ∈ calls (trace (on_row e r st)) ∧ ∃ s o, q = updateParams e s zq o).
    { intros tr Hj' ->. destruct (Hinv _ _ _ Hj') as (Hin & Hq).
      split; [apply elem_of_app; by left | done]. }
    destruct Hc as [(_ & Hb & _ & Hc) | (_ & _ & Hc)].
    { rewrite Hb in Hj. apply (Hold []); [done | by rewrite app_nil_r]. }
    destruct Hc as [(_ & Hb & Hc) | [(_ & _ & Hb & Hc) | (o & _ & _ & Hb & Hc)]];
      rewrite Hb in Hj; apply lookup_app_Some in Hj as [Hj | (_ & Hj)].
    + apply (Hold []); [done | by rewrite app_nil_r].
    + by destruct (j - length (batch st)) as [|[|n]].
    + apply (Hold []); [done | by rewrite app_nil_r].
    + by destruct (j - length (batch st)) as [|[|n]].
    + by apply (Hold [updateParams e (Str.interp (suid r)) (Str.interp (zid r)) o]).
    + destruct (j - length (batch st)) as [|[|n]]; [|done|done].
      injection Hj as <- <-. rewrite Hc. split; [|by eauto].
      apply elem_of_app. right. by apply list_elem_of_singleton.
  - cbn. done.
  - destruct (finish_fields st) as (_ & _ & -> & _ & _ & _ & -> & _). done.
  - cbn [set_pc emit batch trace]. intros j q zq Hj.
    rewrite calls_snoc_log. by apply (Hinv j).
  - destruct (log_progress_fields (set_pc Reading (set_batch [] (count_results st))))
      as (_ & _ & -> & _). cbn. intros j q zq Hj. done.
  - destruct (finish_fields (count_results st)) as (_ & _ & -> & _ & _ & _ & -> & _).
    cbn. done.
Qed.

End Requests.

(** X5: every request a run sends to the store is for a row with a
    non-empty suid and zid and carries one of the two pairs of values the
    classifier allows: name "Desktop Agent (Mac)" with os "mac", or name
    "Desktop Agent (Windows)" with os "windows". *)
Theorem requests_carry_mac_or_windows (e : process_env) (ex : string → bool)
    (db0 : gmap (string * (string * string)) (gmap string string))
    (evs : list event) (st : state) :
  run e (main e ex db0) evs = Some st →
  ∀ p, p ∈ calls (trace st) →
    ∃ s z, s ≠ "" ∧ z ≠ ""
    ∧ Dynamo.TableName p = TABLE_NAME e ∧ Dynamo.Key p = (s, "device#" +:+ z)
    ∧ Dynamo.UpdateExpression p = "SET #name = :name, #os = :os"
    ∧ ((Dynamo.ExpressionAttributeValues p !! ":name" = Some "Desktop Agent (Mac)"
        ∧ Dynamo.ExpressionAttributeValues p !! ":os" = Some "mac")
       ∨ (Dynamo.ExpressionAttributeValues p !! ":name" = Some "Desktop Agent (Windows)"
          ∧ Dynamo.ExpressionAttributeValues p !! ":os" = Some "windows")).
Proof.
  intros Hrun.
  assert (Hall : Forall (row_request e) (calls (trace st))).
  { revert Hrun. apply (run_preserves e (λ st, Forall (row_request e) (calls (trace st)))).
    - intros st0 ev st1 Hinv Hs.
      destruct (step_calls_request _ _ _ _ Hs) as [-> | (p & Hp & ->)]; [done|].
      apply Forall_app. split; [done|]. by apply Forall_singleton.
    - destruct (main_fields e ex db0) as (_ & _ & -> & _). constructor. }
  intros p Hp. rewrite Forall_forall in Hall.
  destruct (Hall p Hp) as (s & z & o & -> & Hs & Hz & Ho).
  exists s, z. do 5 (split; [done|]).
  destruct Ho as [-> | ->]; [left | right]; split;
    unfold updateParams; cbn [Dynamo.ExpressionAttributeValues];
    by simplify_map_eq.
Qed.

Lemma requests_carry_mac_or_windows_witness :
  ∃ st, run env_default (main env_default file_present ∅)
          [RowRead (mk_row "u4" "z4" "WINDOWS 11")] = Some st
  ∧ ∃ p, calls (trace st) = [p]
    ∧ Dynamo.ExpressionAttributeValues p !! ":os" = Some "windows".
Proof.
  eexists. split; [vm_compute; reflexivity|].
  exists (updateParams env_default "u4" "z4" "Windows"). split; [by vm_compute|].
  destruct (requests_carry_mac_or_windows env_default file_present ∅
              [RowRead (mk_row "u4" "z4" "WINDOWS 11")] _ eq_refl
              (updateParams env_default "u4" "z4" "Windows"))
    as (s & z & _ & _ & _ & _ & _ & [(Hn & _) | (_ & Ho)]).
  - vm_compute. apply list_elem_of_singleton. reflexivity.
  - by vm_compute in Hn.
  - exact Ho.
Defined.

Section StoreFrame.

Variable e : process_env.

Lemma step_db (st : state) (ev : event) (st' : state) :
  step e st ev = Some st' →
  db st' = db st
  ∨ ∃ i p z, ev = StoreReply i true ∧ batch st !! i = Some (Pending p z)
    ∧ Dynamo.update p (db st) = Some (db st').
Proof.
  intros H. destruct (step_inv _ _ _ _ H) as
    [(i & ok & -> & Hne & Hr) | [(r & -> & Hpc & ->) | [(-> & Hpc & Hb & ->) |
    [(-> & Hpc & Hb & ->) | [(-> & Hpc & ->) | [(-> & Hpc & Ho & ->) | (-> & Hpc & Ho & ->)]]]]]].
  - destruct (reply_spec _ _ _ _ _ Hr) as (p & z & Hi & _ & _ & _ & _ & Hok).
    destruct ok; [|left; by destruct Hok as (-> & _)].
    right. exists i, p, z. by destruct Hok as (Hu & _).
  - left. by destruct (on_row_spec e r st) as (_ & -> & _).
  - by left.
  - left. by destruct (finish_fields st) as (_ & -> & _).
  - by left.
  - left. by destruct (log_progress_fields (set_pc Reading (set_batch [] (count_results st))))
      as (_ & -> & _).
  - left. by destruct (finish_fields (count_results st)) as (_ & -> & _).
Qed.

(** What a run keeps of the initial store [db0]. *)
Lemma store_frame_step (db0 : gmap (string * (string * string)) (gmap string string))
    (st : state) (ev : event) (st' : state) :
  step e st ev = Some st' →
  batch_requests e st
  ∧ (∀ k it0, db0 !! k = Some it0 →
       ∃ it, db st !! k = Some it ∧ ∀ a, a ≠ "name" → a ≠ "os" → it !! a = it0 !! a)
  ∧ (∀ k, db st !! k ≠ db0 !! k →
       ∃ p, p ∈ calls (trace st) ∧ k = (Dynamo.TableName p, Dynamo.Key p)) →
  batch_requests e st'
  ∧ (∀ k it0, db0 !! k = Some it0 →
       ∃ it, db st' !! k = Some it ∧ ∀ a, a ≠ "name" → a ≠ "os" → it !! a = it0 !! a)
  ∧ (∀ k, db st' !! k ≠ db0 !! k →
       ∃ p, p ∈ calls (trace st') ∧ k = (Dynamo.TableName p, Dynamo.Key p)).
Proof.
  intros Hs (Hb & Hkeep & Hchg).
  split; [by eapply step_batch_requests|].
  assert (Hmono : ∀ p, p ∈ calls (trace st) → p ∈ calls (trace st')).
  { intros p Hp. destruct (step_calls_request _ _ _ _ Hs) as [-> | (q & _ & ->)];
      [done | apply elem_of_app; by left]. }
  destruct (step_db _ _ _ Hs) as [-> | (i & p & z & -> & Hi & Hu)].
  { split; [done|]. intros k Hk. destruct (Hchg k Hk) as (p & Hp & ->). eauto. }
  destruct (Hb _ _ _ Hi) as (Hin & s & o & ->).
  rewrite update_updateParams in Hu. cbv zeta in Hu. injection Hu as <-.
  split.
  - intros k it0 Hk.
    destruct (decide (k = (TABLE_NAME e, (s, "device#" +:+ z)))) as [->|Hne].
    + rewrite lookup_insert_eq. eexists. split; [done|]. intros a Hn Ho.
      rewrite !lookup_insert_ne by done.
      destruct (Hkeep _ _ Hk) as (it & -> & Hit). cbn. by apply Hit.
    + rewrite lookup_insert_ne by done. by apply Hkeep.
  - intros k Hk.
    destruct (decide (k = (TABLE_NAME e, (s, "device#" +:+ z)))) as [->|Hne].
    + exists (updateParams e s z o). split; [by apply Hmono | done].
    + rewrite lookup_insert_ne in Hk by done.
      destruct (Hchg k Hk) as (p & Hp & ->). eauto.
Qed.

End StoreFrame.

(** X6: a run never removes an item of the table and never changes an
    attribute other than [name] and [os] of an item that was there; the
    only keys whose item differs from the initial store are keys of
    requests the run has sent. *)
Theorem store_frame (e : process_env) (ex : string → bool)
    (db0 : gmap (string * (string * string)) (gmap string string))
    (evs : list event) (st : state) :
  run e (main e ex db0) evs = Some st →
  (∀ k it0, db0 !! k = Some it0 →
     ∃ it, db st !! k = Some it ∧ ∀ a, a ≠ "name" → a ≠ "os" → it !! a = it0 !! a)
  ∧ (∀ k, db st !! k ≠ db0 !! k →
       ∃ p, p ∈ calls (trace st) ∧ k = (Dynamo.TableName p, Dynamo.Key p)).
Proof.
  intros Hrun.
  enough (batch_requests e st
    ∧ (∀ k it0, db0 !! k = Some it0 →
         ∃ it, db st !! k = Some it ∧ ∀ a, a ≠ "name" → a ≠ "os" → it !! a = it0 !! a)
    ∧ (∀ k, db st !! k ≠ db0 !! k →
         ∃ p, p ∈ calls (trace st) ∧ k = (Dynamo.TableName p, Dynamo.Key p)))
    as (_ & H1 & H2) by done.
  revert Hrun. apply (run_preserves e (λ st, batch_requests e st
    ∧ (∀ k it0, db0 !! k = Some it0 →
         ∃ it, db st !! k = Some it ∧ ∀ a, a ≠ "name" → a ≠ "os" → it !! a = it0 !! a)
    ∧ (∀ k, db st !! k ≠ db0 !! k →
         ∃ p, p ∈ calls (trace st) ∧ k = (Dynamo.TableName p, Dynamo.Key p)))).
  - intros st0 ev st1 Hinv Hs. by eapply store_frame_step.
  - assert (Hdb : db (main e ex db0) = db0) by (unfold main; by destruct (ex _)).
    destruct (main_fields e ex db0) as (Hb & _). rewrite Hdb.
    split; [|split].
    + intros i p z Hi. by rewrite Hb in Hi.
    + intros k it0 Hk. by exists it0.
    + intros k Hk. done.
Qed.

Lemma store_frame_witness :
  ∃ st, run env_default
          (main env_default file_present
             {[ ("qa-user", ("u1", "device#z1"))
                  := {[ "name" := "Desktop Agent"; "type" := "desktop" ]} ]})
          [RowRead (mk_row "u1" "z1" "mac"); StoreReply 0 true] = Some st
  ∧ ∃ it, db st !! ("qa-user", ("u1", "device#z1")) = Some it
    ∧ it !! "type" = Some "desktop".
Proof.
  eexists. split; [vm_compute; reflexivity|].
  destruct (store_frame env_default file_present
              {[ ("qa-user", ("u1", "device#z1"))
                   := {[ "name" := "Desktop Agent"; "type" := "desktop" ]} ]}
              [RowRead (mk_row "u1" "z1" "mac"); StoreReply 0 true] _ eq_refl)
    as (Hkeep & _).
  destruct (Hkeep ("qa-user", ("u1", "device#z1"))
              {[ "name" := "Desktop Agent"; "type" := "desktop" ]} eq_refl)
    as (it & Hit & Hsame).
  exists it. split; [exact Hit|]. rewrite (Hsame "type"); [reflexivity | done | done].
Defined.

(** X7: the update is sent without reading the item first and without a
    condition, so for a device that is not in the table a successful
    update creates an item that holds nothing but pk, sk, name and os. *)
Theorem missing_item_is_created (e : process_env) (ex : string → bool)
    (db0 : gmap (string * (string * string)) (gmap string string))
    (r : row) (o : string) :
  ex (Str.or_else (env_FILE_PATH e) "./logs-insights-results.csv") = true →
  isValidRow r = true →
  getOsFromSourceApp (Str.interp (sourceApp r)) = Some o →
  db0 !! (TABLE_NAME e, (Str.interp (suid r), "device#" +:+ Str.interp (zid r))) = None →
  ∃ st, run e (main e ex db0) [RowRead r; StoreReply 0 true] = Some st
  ∧ db st !! (TABLE_NAME e, (Str.interp (suid r), "device#" +:+ Str.interp (zid r)))
    = Some (<["os" := Str.toLowerCase o]>
              (<["name" := "Desktop Agent (" +:+ o +:+ ")"]>
                 (<["pk" := Str.interp (suid r)]>
                    (<["sk" := "device#" +:+ Str.interp (zid r)]> ∅)))).
Proof.
  intros Hex Hv Hos Hnone.
  destruct (main_fields e ex db0) as (Hb & Hd & _ & _ & _ & Hpc). rewrite Hex in Hpc.
  assert (Hdb : db (main e ex db0) = db0) by (unfold main; by rewrite Hex).
  cbn [run]. assert (Hs : step e (main e ex db0) (RowRead r)
                          = Some (on_row e r (main e ex db0)))
    by (unfold step; by rewrite Hpc).
  rewrite Hs. cbn [mbind option_bind].
  destruct (on_row_spec e r (main e ex db0)) as (_ & Hdb1 & _ & _ & Hc).
  destruct Hc as [(Hv' & _) | (_ & Hpc1 & Hc)]; [congruence|].
  destruct Hc as [(Hz & _) | [(_ & Hos' & _) | (o' & _ & Ho' & Hb1 & _)]].
  { rewrite Hd in Hz. by apply not_elem_of_empty in Hz. }
  { congruence. }
  assert (o' = o) as -> by congruence.
  rewrite step_reply_open; last first.
  { rewrite Hpc1, Hpc. destruct (ge_number _ _); auto. }
  rewrite reply_handled by (right; by left).
  unfold resume. rewrite Hb1, Hb. cbn [app lookup list_lookup].
  rewrite Hdb1, Hdb, update_updateParams. cbv zeta. cbn [mbind option_bind].
  eexists. split; [reflexivity|].
  cbn [set_batch set_store db]. rewrite lookup_insert_eq, Hnone. reflexivity.
Qed.

Lemma missing_item_is_created_witness :
  ∃ st, run env_default (main env_default file_present ∅)
          [RowRead (mk_row "u1" "z1" "mac"); StoreReply 0 true] = Some st
  ∧ db st !! ("qa-user", ("u1", "device#z1"))
    = Some {[ "os" := "mac"; "name" := "Desktop Agent (Mac)";
              "pk" := "u1"; "sk" := "device#z1" ]}.
Proof.
  exact (missing_item_is_created env_default file_present ∅ (mk_row "u1" "z1" "mac") "Mac"
           eq_refl eq_refl eq_refl eq_refl).
Defined.

(** ** Progress lines *)

Lemma progress_lines_app (a b : list output) :
  progress_lines (a ++ b) = progress_lines a ++ progress_lines b.
Proof. unfold progress_lines. apply omap_app. Qed.

Section Progress.

Variable e : process_env.

Lemma step_progress (st : state) (ev : event) (st' : state) :
  step e st ev = Some st' →
  progress_lines (trace st') = progress_lines (trace st)
  ∨ (progress_lines (trace st') = progress_lines (trace st) ++ [processedCount st']
     ∧ processedCount st' mod 1000 = 0
     ∧ ((∃ r, ev = RowRead r ∧ isValidRow r = true ∧ pc st' ≠ Settling)
        ∨ (ev = AllSettled ∧ pc st = Settling ∧ processedCount st' = processedCount st))).
Proof.
  intros H. destruct (step_inv _ _ _ _ H) as
    [(i & ok & -> & Hne & Hr) | [(r & -> & Hpc & ->) | [(-> & Hpc & Hb & ->) |
    [(-> & Hpc & Hb & ->) | [(-> & Hpc & ->) | [(-> & Hpc & Ho & ->) | (-> & Hpc & Ho & ->)]]]]]].
  - left. by destruct (reply_spec _ _ _ _ _ Hr) as (p & z & _ & _ & -> & _).
  - unfold on_row. destruct (isValidRow r) eqn:Hv; cbn [negb].
    + destruct (processRow e r _) as [st2 p] eqn:Hp.
      assert (Htr : progress_lines (trace st2) = progress_lines (trace st)
                    ∧ processedCount st2 = S (processedCount st) ∧ pc st2 = pc st).
      { revert Hp. unfold processRow, updateItemWithOs.
        destruct (negb _); [|destruct (getOsFromSourceApp _)]; intros [= <- _];
          cbn [emit set_counts trace processedCount pc];
          rewrite !progress_lines_app; cbn; by rewrite !app_nil_r. }
      destruct Htr as (Htr & Hn & Hpc2).
      destruct (ge_number _ _); [left; by cbn|].
      unfold log_progress. cbn [set_batch processedCount trace].
      destruct (_ =? _)%nat eqn:Hm; [|left; by cbn].
      right. apply Nat.eqb_eq in Hm. cbn [emit trace processedCount pc set_batch].
      rewrite progress_lines_app, Htr. cbn. split; [done|]. split; [done|].
      left. exists r. rewrite Hpc2, Hpc. done.
    + left. cbn [emit set_counts trace]. rewrite progress_lines_app. cbn.
      by rewrite app_nil_r.
  - by left.
  - left. unfold finish. cbn [emit set_pc trace]. rewrite !progress_lines_app. cbn.
    by rewrite !app_nil_r.
  - left. cbn [emit set_pc trace]. rewrite progress_lines_app. cbn. by rewrite app_nil_r.
  - unfold log_progress.
    cbn [set_pc set_batch set_counts count_results processedCount trace].
    destruct (_ =? _)%nat eqn:Hm; [|by left].
    right. apply Nat.eqb_eq in Hm. cbn [emit trace processedCount].
    rewrite progress_lines_app. cbn. split; [done|]. split; [done|]. by right.
  - left. unfold finish. cbn [emit set_pc set_counts count_results trace].
    rewrite !progress_lines_app. cbn. by rewrite !app_nil_r.
Qed.

Lemma run_snoc (st0 st' : state) (evs : list event) (ev : event) :
  run e st0 (evs ++ [ev]) = Some st' →
  ∃ st, run e st0 evs = Some st ∧ step e st ev = Some st'.
Proof.
  rewrite run_app. destruct (run e st0 evs) as [st|]; [|done]. cbn [mbind option_bind run].
  intros H. exists st. split; [done|]. by destruct (step e st ev).
Qed.

Lemma rows_of_snoc (evs : list event) (ev : event) :
  rows_of (evs ++ [ev])
  = rows_of evs ++ match ev with RowRead r => [r] | _ => [] end.
Proof. unfold rows_of. rewrite omap_app. by destruct ev. Qed.

End Progress.

(** X4: every "Processed n records" line carries a positive multiple of
    1000 and is written for a valid row: the n-th row read passed
    [isValidRow] (an invalid row never produces a progress line, whatever
    the count). *)
Theorem progress_lines_for_valid_rows (e : process_env) (ex : string → bool)
    (db0 : gmap (string * (string * string)) (gmap string string))
    (evs : list event) (st : state) :
  ex (Str.or_else (env_FILE_PATH e) "./logs-insights-results.csv") = true →
  run e (main e ex db0) evs = Some st →
  ∀ n, n ∈ progress_lines (trace st) →
    n mod 1000 = 0 ∧ 0 < n
    ∧ ∃ r, rows_of evs !! (n - 1) = Some r ∧ isValidRow r = true.
Proof.
  intros Hex.
  enough (Hinv : ∀ evs st, run e (main e ex db0) evs = Some st →
    (∀ n, n ∈ progress_lines (trace st) →
       n mod 1000 = 0 ∧ 0 < n ∧ ∃ r, rows_of evs !! (n - 1) = Some r ∧ isValidRow r = true)
    ∧ (pc st = Settling →
       0 < processedCount st
       ∧ ∃ r, rows_of evs !! (processedCount st - 1) = Some r ∧ isValidRow r = true)).
  { intros Hrun. by destruct (Hinv evs st Hrun). }
  clear evs st. intros evs. induction evs as [|ev evs IH] using rev_ind; intros st Hrun.
  - injection Hrun as <-. unfold main. rewrite Hex. cbn. split; [|done].
    intros n Hn. by apply elem_of_nil in Hn.
  - destruct (run_snoc e _ _ _ _ Hrun) as (st1 & Hrun1 & Hs).
    destruct (IH st1 Hrun1) as (Hlines & Hsett).
    pose proof (processedCount_run _ _ _ _ Hrun1) as Hcount.
    destruct (main_fields e ex db0) as (_ & _ & _ & Hn0 & _). rewrite Hn0 in Hcount.
    cbn in Hcount. rewrite rows_of_snoc.
    assert (Hold : ∀ n, n ∈ progress_lines (trace st1) →
              n mod 1000 = 0 ∧ 0 < n
              ∧ ∃ r, (rows_of evs ++ match ev with RowRead r => [r] | _ => [] end)
                       !! (n - 1) = Some r ∧ isValidRow r = true).
    { intros n Hn. destruct (Hlines n Hn) as (Hm & Hp & r & Hr & Hv).
      split; [done|]. split; [done|]. exists r. split; [|done].
      by apply lookup_app_l_Some. }
    split.
    + intros n Hn.
      destruct (step_progress e _ _ _ Hs) as [Hsame | (Hnew & Hm & Hwhy)].
      { rewrite Hsame in Hn. by apply Hold. }
      rewrite Hnew in Hn. apply elem_of_app in Hn as [Hn | Hn%list_elem_of_singleton];
        [by apply Hold|]. subst n.
      destruct Hwhy as [(r & -> & Hv & _) | (-> & Hpc & Heq)].
      * pose proof (processedCount_run _ _ _ _ Hrun) as Hc'. rewrite Hn0 in Hc'.
        rewrite rows_of_snoc, length_app in Hc'. cbn in Hc'.
        split; [done|]. split; [lia|]. exists r. split; [|done].
        replace (processedCount st - 1) with (length (rows_of evs)) by lia.
        by apply list_lookup_middle.
      * destruct (Hsett Hpc) as (Hpos & r & Hr & Hv). rewrite Heq.
        split; [by rewrite <- Heq|]. split; [done|]. exists r. split; [|done].
        by apply lookup_app_l_Some.
    + intros Hpc.
      destruct (step_inv _ _ _ _ Hs) as
        [(i & ok & -> & Hne & Hr) | [(r & -> & Hpc1 & ->) | [(-> & _ & _ & ->) |
        [(-> & _ & _ & ->) | [(-> & _ & ->) | [(-> & _ & _ & ->) | (-> & _ & _ & ->)]]]]]].
      * destruct (reply_spec _ _ _ _ _ Hr)
          as (p & z & _ & [Hpc' | (_ & _ & _ & Hx')] & _ & Hn' & _); [|congruence].
        rewrite Hpc' in Hpc. destruct (Hsett Hpc) as (Hpos & r & Hr' & Hv).
        rewrite Hn'. split; [done|]. exists r. split; [|done]. by apply lookup_app_l_Some.
      * destruct (on_row_spec e r st1) as (_ & _ & Hn' & _ & Hc).
        destruct Hc as [(_ & _ & Hp & _) | (Hv & _)]; [congruence|].
        rewrite Hn'. split; [lia|]. exists r. split; [|done].
        replace (S (processedCount st1) - 1) with (length (rows_of evs)) by lia.
        by apply list_lookup_middle.
      * done.
      * by destruct (finish_fields st1) as (_ & _ & _ & _ & _ & Hx & _); congruence.
      * done.
      * destruct (log_progress_fields (set_pc Reading (set_batch [] (count_results st1))))
          as (_ & _ & _ & _ & _ & Hx & _). cbn in Hx. congruence.
      * by destruct (finish_fields (count_results st1)) as (_ & _ & _ & _ & _ & Hx & _);
          congruence.
Qed.

Lemma progress_lines_for_valid_rows_witness :
  let evs := map RowRead (replicate 999 (mk_row "" "z0" "mac") ++ [mk_row "u1" "z1" "mac"]) in
  let m := main env_default file_present ∅ in
  progress_lines (trace (default m (run env_default m evs))) = [1000]
  ∧ ∃ r, rows_of evs !! 999 = Some r ∧ isValidRow r = true.
Proof.
  cbv zeta. split; [vm_compute; reflexivity|].
  assert (Hrun : run env_default (main env_default file_present ∅)
            (map RowRead (replicate 999 (mk_row "" "z0" "mac") ++ [mk_row "u1" "z1" "mac"]))
          = Some (default (main env_default file_present ∅)
              (run env_default (main env_default file_present ∅)
                 (map RowRead (replicate 999 (mk_row "" "z0" "mac")
                                 ++ [mk_row "u1" "z1" "mac"])))))
    by (vm_compute; reflexivity).
  destruct (progress_lines_for_valid_rows env_default file_present ∅ _ _ eq_refl Hrun 1000)
    as (_ & _ & Hr).
  - vm_compute. apply list_elem_of_singleton. reflexivity.
  - exact Hr.
Defined.

(** * Properties of the sequential script *)

Lemma toLowerCase_app (a b : string) :
  Str.toLowerCase (a +:+ b) = Str.toLowerCase a +:+ Str.toLowerCase b.
Proof.
  induction a as [|c a IH]; [done|]. rewrite app_cons_s. cbn [Str.toLowerCase].
  by rewrite app_cons_s, IH.
Qed.

Lemma occurs_toLowerCase (sub s : string) :
  occurs sub s → occurs (Str.toLowerCase sub) (Str.toLowerCase s).
Proof.
  intros (pre & post & ->). exists (Str.toLowerCase pre), (Str.toLowerCase post).
  by rewrite !toLowerCase_app.
Qed.

(** ** The sequential script *)

Lemma desktop_agent_has_no_os_tag (n : string) :
  Str.toLowerCase n = "desktop agent" →
  n ≠ "" ∧ Str.includes n "Mac" = false ∧ Str.includes n "Windows" = false.
Proof.
  intros Hn. split; [by intros ->|]. split.
  - apply includes_false_iff. intros H%occurs_toLowerCase. rewrite Hn in H.
    apply includes_true_iff in H. by vm_compute in H.
  - apply includes_false_iff. intros H%occurs_toLowerCase. rewrite Hn in H.
    apply includes_true_iff in H. by vm_compute in H.
Qed.

Lemma shouldUpdateItem_true_iff (item : gmap string string) :
  Seq.shouldUpdateItem item = true
  ↔ ∃ n, item !! "name" = Some n ∧ Str.toLowerCase n = "desktop agent".
Proof.
  unfold Seq.shouldUpdateItem. destruct (item !! "name") as [n|]; last first.
  { split; [done | by intros (n & [=] & _)]. }
  split.
  - intros H. exists n. split; [done|].
    apply andb_true_iff in H as [H _]. apply andb_true_iff in H as [H _].
    apply andb_true_iff in H as [_ H]. by apply String.eqb_eq.
  - intros (n' & [= <-] & Hn).
    destruct (desktop_agent_has_no_os_tag n Hn) as (Hne & -> & ->).
    rewrite Hn. destruct n; [done|]. reflexivity.
Qed.

Lemma renamed_is_not_desktop_agent (o : string) :
  Str.toLowerCase ("Desktop Agent (" +:+ o +:+ ")") ≠ "desktop agent".
Proof.
  rewrite toLowerCase_app.
  change (Str.toLowerCase "Desktop Agent (") with "desktop agent (".
  by rewrite !app_cons_s.
Qed.

Lemma shouldUpdateItem_renamed (o os : string) (item : gmap string string) :
  Seq.shouldUpdateItem (<["os" := os]> (<["name" := "Desktop Agent (" +:+ o +:+ ")"]> item))
  = false.
Proof.
  destruct (Seq.shouldUpdateItem _) eqn:H; [|done].
  apply shouldUpdateItem_true_iff in H as (n & Hn & Hl).
  rewrite lookup_insert_ne, lookup_insert_eq in Hn by done. injection Hn as <-.
  by apply renamed_is_not_desktop_agent in Hl.
Qed.

Lemma projected_getParams (e : process_env) (s z : string) :
  Seq.projected (Seq.getParams e s z) = ["pk"; "sk"; "name"; "recordType"; "type"; "os"].
Proof. reflexivity. Qed.

Lemma getDynamoDbItem_Some (e : process_env) (s z : string)
    (db : gmap (string * (string * string)) (gmap string string))
    (item : gmap string string) :
  Seq.getDynamoDbItem e s z db = Some item →
  ∃ stored, db !! (Seq.TABLE_NAME e, (s, "device#" +:+ z)) = Some stored
  ∧ item !! "name" = stored !! "name"
  ∧ Seq.shouldUpdateItem item = Seq.shouldUpdateItem stored.
Proof.
  unfold Seq.getDynamoDbItem, Seq.get. rewrite projected_getParams.
  cbn [Seq.TableName Seq.Key Seq.getParams].
  destruct (db !! _) as [stored|]; [|done]. intros [= <-].
  exists stored. split; [done|].
  assert (Hn : filter (λ kv : string * string,
                 kv.1 ∈ ["pk"; "sk"; "name"; "recordType"; "type"; "os"])
                 stored !! "name" = stored !! "name").
  { rewrite map_lookup_filter. destruct (stored !! "name") as [n|]; [|done].
    cbn. rewrite option_guard_True; [done|]. set_solver. }
  split; [done|]. unfold Seq.shouldUpdateItem. by rewrite Hn.
Qed.

Lemma seq_update_updateParams (e : process_env) (s z o : string)
    (db : gmap (string * (string * string)) (gmap string string)) :
  let k := (Seq.TABLE_NAME e, (s, "device#" +:+ z)) in
  Dynamo.update (Seq.updateParams e s z o) db
  = Some (<[k := <["os" := o]>
                   (<["name" := "Desktop Agent (" +:+ o +:+ ")"]>
                      (default (Dynamo.key_item (s, "device#" +:+ z)) (db !! k)))]> db).
Proof.
  unfold Dynamo.update.
  change (Dynamo.UpdateExpression (Seq.updateParams e s z o))
    with "SET #name = :name, #os = :os".
  rewrite parse_SET_name_os. cbn [mbind option_bind mapM].
  assert (H1 : Dynamo.resolve (Seq.updateParams e s z o) ("#name", ":name")
               = Some ("name", "Desktop Agent (" +:+ o +:+ ")")).
  { unfold Dynamo.resolve, Seq.updateParams; simpl. by simplify_map_eq. }
  assert (H2 : Dynamo.resolve (Seq.updateParams e s z o) ("#os", ":os") = Some ("os", o)).
  { unfold Dynamo.resolve, Seq.updateParams; simpl. by simplify_map_eq. }
  rewrite H1, H2. reflexivity.
Qed.

Lemma logProgressIfNeeded_fields (st : Seq.state) :
  Seq.db (Seq.logProgressIfNeeded st) = Seq.db st
  ∧ Seq.processedCount (Seq.logProgressIfNeeded st) = Seq.processedCount st
  ∧ Seq.updatedCount (Seq.logProgressIfNeeded st) = Seq.updatedCount st.
Proof. unfold Seq.logProgressIfNeeded. by destruct (_ =? _)%nat. Qed.

(** One iteration either leaves the store and the updated count alone, or
    renames one stored item that passed [shouldUpdateItem] and counts it. *)
Lemma process_row_spec (e : process_env) (r : row) (o : Seq.replies) (st : Seq.state) :
  let st' := Seq.process_row e r o st in
  let k := (Seq.TABLE_NAME e, (Str.interp (suid r), "device#" +:+ Str.interp (zid r))) in
  Seq.processedCount st' = S (Seq.processedCount st)
  ∧ ((Seq.db st' = Seq.db st ∧ Seq.updatedCount st' = Seq.updatedCount st)
     ∨ ∃ stored osv,
         isValidRow r = true ∧ Seq.get_ok o = true ∧ Seq.update_ok o = true
         ∧ Seq.db st !! k = Some stored ∧ Seq.shouldUpdateItem stored = true
         ∧ getOsFromSourceApp (Str.interp (sourceApp r)) = Some osv
         ∧ Seq.db st'
           = <[k := <["os" := osv]>
                      (<["name" := "Desktop Agent (" +:+ osv +:+ ")"]> stored)]> (Seq.db st)
         ∧ Seq.updatedCount st' = S (Seq.updatedCount st)).
Proof.
  cbv zeta. unfold Seq.process_row.
  destruct (isValidRow r) eqn:Hv; cbn [negb]; [|cbn; auto].
  destruct (Seq.get_ok o) eqn:Hg; cbn [negb]; last first.
  { destruct (logProgressIfNeeded_fields (Seq.emit (Seq.Log ERROR
      (Seq.MsgRowError (Str.interp (suid r)) (Str.interp (zid r))))
      (Seq.emit (Seq.Get (Seq.getParams e (Str.interp (suid r)) (Str.interp (zid r))))
      (Seq.emit (Seq.Log INFO (Seq.MsgProcessing (Str.interp (suid r))
         (Str.interp (zid r)) (Str.interp (sourceApp r))))
      {| Seq.db := Seq.db st; Seq.processedCount := S (Seq.processedCount st);
         Seq.updatedCount := Seq.updatedCount st; Seq.trace := Seq.trace st |}))))
      as (-> & -> & ->). cbn. auto. }
  cbn [Seq.emit Seq.db].
  destruct (Seq.getDynamoDbItem e _ _ (Seq.db st)) as [item|] eqn:Hitem; [|cbn; auto].
  destruct (getDynamoDbItem_Some _ _ _ _ _ Hitem) as (stored & Hst & _ & Heq).
  destruct (Seq.shouldUpdateItem item) eqn:Hsh; last first.
  { match goal with |- context [Seq.logProgressIfNeeded ?s] =>
      destruct (logProgressIfNeeded_fields s) as (-> & -> & ->) end. cbn. auto. }
  destruct (getOsFromSourceApp _) as [osv|] eqn:Hos; [|cbn; auto].
  destruct (Seq.update_ok o) eqn:Hu; last first.
  { match goal with |- context [Seq.logProgressIfNeeded ?s] =>
      destruct (logProgressIfNeeded_fields s) as (-> & -> & ->) end. cbn. auto. }
  rewrite seq_update_updateParams. cbv zeta.
  match goal with |- context [Seq.logProgressIfNeeded ?s] =>
    destruct (logProgressIfNeeded_fields s) as (-> & -> & ->) end.
  cbn [Seq.db Seq.processedCount Seq.updatedCount]. split; [done|]. right.
  exists stored, osv. rewrite Hst. cbn. rewrite <- Heq. done.
Qed.

Lemma process_rows_preserves (e : process_env) (P : Seq.state → Prop) :
  (∀ r o st, P st → P (Seq.process_row e r o st)) →
  ∀ rows st, P st → P (Seq.process_rows e rows st).
Proof.
  intros Hstep rows. induction rows as [|[r o] rows IH]; intros st HP; [done|].
  cbn [Seq.process_rows]. apply IH. by apply Hstep.
Qed.

Lemma eligible_renamed (db : gmap (string * (string * string)) (gmap string string))
    (k : string * (string * string)) (stored : gmap string string) (o os : string) :
  db !! k = Some stored → Seq.shouldUpdateItem stored = true →
  S (size (Seq.eligible
             (<[k := <["os" := os]> (<["name" := "Desktop Agent (" +:+ o +:+ ")"]> stored)]>
                db)))
  = size (Seq.eligible db).
Proof.
  intros Hk Hs. unfold Seq.eligible.
  rewrite map_filter_insert_False; last first.
  { cbn. by rewrite shouldUpdateItem_renamed. }
  rewrite map_filter_delete, map_size_delete_Some; last first.
  { exists stored. by apply map_lookup_filter_Some. }
  assert (size (filter (λ kv : string * (string * string) * gmap string string,
                  Seq.shouldUpdateItem kv.2 = true) db) ≠ 0).
  { intros H0%map_size_empty_iff.
    assert (Hin : filter (λ kv : string * (string * string) * gmap string string,
                    Seq.shouldUpdateItem kv.2 = true) db !! k = Some stored)
      by (by apply map_lookup_filter_Some).
    rewrite H0 in Hin. by rewrite lookup_empty in Hin. }
  lia.
Qed.

(** X10: the sequential script never creates or removes an item, changes
    nothing but [name] and [os], and leaves alone every item whose name
    is not "Desktop Agent" (whatever the case of the letters). *)
Theorem seq_store_frame (e : process_env) (rows : list (row * Seq.replies))
    (db0 : gmap (string * (string * string)) (gmap string string)) :
  dom (Seq.db (Seq.processCsvFile e rows db0)) = dom db0
  ∧ ∀ k it0, db0 !! k = Some it0 →
      ∃ it, Seq.db (Seq.processCsvFile e rows db0) !! k = Some it
      ∧ (∀ a, a ≠ "name" → a ≠ "os" → it !! a = it0 !! a)
      ∧ (Seq.shouldUpdateItem it0 = false → it = it0).
Proof.
  unfold Seq.processCsvFile. cbn [Seq.emit Seq.db].
  apply (process_rows_preserves e (λ st,
    dom (Seq.db st) = dom db0
    ∧ ∀ k it0, db0 !! k = Some it0 →
        ∃ it, Seq.db st !! k = Some it
        ∧ (∀ a, a ≠ "name" → a ≠ "os" → it !! a = it0 !! a)
        ∧ (Seq.shouldUpdateItem it0 = false → it = it0))).
  - intros r o st (Hdom & Hkeep).
    destruct (process_row_spec e r o st) as (_ & [(-> & _) | Hupd]); [done|].
    destruct Hupd as (stored & osv & _ & _ & _ & Hst & Hsh & _ & -> & _).
    split.
    + rewrite dom_insert_lookup_L by eauto. done.
    + intros k it0 Hk.
      destruct (Hkeep k it0 Hk) as (it & Hit & Hattr & Hsame).
      destruct (decide (k = (Seq.TABLE_NAME e,
                  (Str.interp (suid r), "device#" +:+ Str.interp (zid r))))) as [->|Hne].
      * rewrite lookup_insert_eq. eexists. split; [done|].
        assert (it = stored) as -> by congruence. split.
        -- intros a Hn Ho. rewrite !lookup_insert_ne by done. by apply Hattr.
        -- intros Hno. rewrite (Hsame Hno) in Hsh. congruence.
      * rewrite lookup_insert_ne by done. eauto.
  - cbn. split; [done|]. intros k it0 Hk. by exists it0.
Qed.

(** X11: every update the sequential script counts turns one item that
    passed [shouldUpdateItem] into one that no longer passes: the updated
    count plus the number of items still passing is the number that
    passed at the start, so no device is counted twice and the updated
    count never exceeds the number of "Desktop Agent" items. *)
Theorem seq_updates_consume_eligible_items (e : process_env)
    (rows : list (row * Seq.replies))
    (db0 : gmap (string * (string * string)) (gmap string string)) :
  (Seq.updatedCount (Seq.processCsvFile e rows db0)
   + size (Seq.eligible (Seq.db (Seq.processCsvFile e rows db0))))%nat
  = size (Seq.eligible db0)
  ∧ Seq.processedCount (Seq.processCsvFile e rows db0) = length rows.
Proof.
  unfold Seq.processCsvFile. cbn [Seq.emit Seq.db Seq.updatedCount Seq.processedCount].
  split.
  - apply (process_rows_preserves e (λ st,
      (Seq.updatedCount st + size (Seq.eligible (Seq.db st)))%nat
      = size (Seq.eligible db0))); [|done].
    intros r o st Hinv.
    destruct (process_row_spec e r o st) as (_ & [(-> & ->) | Hupd]); [done|].
    destruct Hupd as (stored & osv & _ & _ & _ & Hst & Hsh & _ & -> & ->).
    pose proof (eligible_renamed _ _ _ osv osv Hst Hsh). lia.
  - assert (H : ∀ st, Seq.processedCount (Seq.process_rows e rows st)
                = (Seq.processedCount st + length rows)%nat).
    { induction rows as [|[r o] rows IH]; intros st; cbn [Seq.process_rows length]; [lia|].
      rewrite IH. destruct (process_row_spec e r o st) as (-> & _). lia. }
    by rewrite H.
Qed.

(** X8: the two [includes] tests of the sequential [shouldUpdateItem]
    never change its answer: an item passes exactly when it has a name
    whose lowercase form is "desktop agent". *)
Theorem should_update_tests_are_redundant (item : gmap string string) :
  Seq.shouldUpdateItem item
  = match item !! "name" with
    | Some n => String.eqb (Str.toLowerCase n) "desktop agent"
    | None => false
    end.
Proof.
  destruct (Seq.shouldUpdateItem item) eqn:H.
  - apply shouldUpdateItem_true_iff in H as (n & -> & Hn). symmetry.
    by apply String.eqb_eq.
  - destruct (item !! "name") as [n|] eqn:Hname; [|done].
    destruct (String.eqb (Str.toLowerCase n) "desktop agent") eqn:He; [|done].
    apply String.eqb_eq in He.
    assert (Seq.shouldUpdateItem item = true) by (apply shouldUpdateItem_true_iff; eauto).
    congruence.
Qed.

Lemma process_row_updates (e : process_env) (r : row) (st : Seq.state) :
  seq_updatable e (Seq.db st) r →
  ¬ seq_updatable e (Seq.db (Seq.process_row e r Seq.all_ok st)) r.
Proof.
  intros (Hv & [osv Hos] & stored & Hst & Hsh) (_ & _ & stored' & Hst' & Hsh').
  revert Hst' Hsh'. unfold Seq.process_row. rewrite Hv. cbn [negb Seq.get_ok Seq.all_ok].
  cbn [Seq.emit Seq.db].
  destruct (Seq.getDynamoDbItem e _ _ (Seq.db st)) as [item|] eqn:Hitem; last first.
  { unfold Seq.getDynamoDbItem, Seq.get in Hitem.
    cbn [Seq.TableName Seq.Key Seq.getParams] in Hitem. unfold seq_key in Hst.
    by rewrite Hst in Hitem. }
  destruct (getDynamoDbItem_Some _ _ _ _ _ Hitem) as (stored2 & Hst2 & _ & Heq).
  unfold seq_key in *. assert (stored2 = stored) as -> by congruence.
  rewrite Heq, Hsh, Hos. cbn [Seq.update_ok Seq.all_ok].
  rewrite seq_update_updateParams. cbv zeta.
  match goal with |- context [Seq.logProgressIfNeeded ?s] =>
    destruct (logProgressIfNeeded_fields s) as (-> & _) end.
  cbn [Seq.db]. rewrite lookup_insert_eq. intros [= <-].
  by rewrite shouldUpdateItem_renamed.
Qed.

Lemma process_row_keeps_not_updatable (e : process_env) (r r' : row) (o : Seq.replies)
    (st : Seq.state) :
  ¬ seq_updatable e (Seq.db st) r' →
  ¬ seq_updatable e (Seq.db (Seq.process_row e r o st)) r'.
Proof.
  intros Hno (Hv & Hos & stored & Hst & Hsh). apply Hno.
  split; [done|]. split; [done|].
  destruct (process_row_spec e r o st) as (_ & [(Hdb & _) | Hupd]).
  { rewrite Hdb in Hst. eauto. }
  destruct Hupd as (stored0 & osv & _ & _ & _ & Hst0 & Hsh0 & _ & Hdb & _).
  rewrite Hdb in Hst. fold (seq_key e r) in Hst, Hst0.
  destruct (decide (seq_key e r = seq_key e r')) as [Heq|Hne].
  - rewrite Heq, lookup_insert_eq in Hst. injection Hst as <-.
    by rewrite shouldUpdateItem_renamed in Hsh.
  - rewrite lookup_insert_ne in Hst by done. eauto.
Qed.

Lemma process_rows_keeps_not_updatable (e : process_env) (rows : list (row * Seq.replies))
    (r' : row) (st : Seq.state) :
  ¬ seq_updatable e (Seq.db st) r' →
  ¬ seq_updatable e (Seq.db (Seq.process_rows e rows st)) r'.
Proof.
  revert st. induction rows as [|[r o] rows IH]; intros st H; [done|].
  cbn [Seq.process_rows]. apply IH. by apply process_row_keeps_not_updatable.
Qed.

Lemma seq_updatable_dec (e : process_env)
    (db : gmap (string * (string * string)) (gmap string string)) (r : row) :
  seq_updatable e db r ∨ ¬ seq_updatable e db r.
Proof.
  unfold seq_updatable. destruct (isValidRow r); [|right; by intros (? & _)].
  destruct (getOsFromSourceApp _) as [o|]; [|right; by intros (_ & [? ?] & _)].
  destruct (db !! seq_key e r) as [stored|]; [|right; by intros (_ & _ & ? & ? & _)].
  destruct (Seq.shouldUpdateItem stored) eqn:Hs.
  - left. eauto.
  - right. intros (_ & _ & stored' & [= <-] & Hs'). congruence.
Qed.

Lemma first_pass_leaves_nothing_updatable (e : process_env) (rows : list row)
    (st : Seq.state) :
  Forall (λ r, ¬ seq_updatable e
                   (Seq.db (Seq.process_rows e (map (λ r, (r, Seq.all_ok)) rows) st)) r)
         rows.
Proof.
  revert st. induction rows as [|r rows IH]; intros st; [constructor|].
  cbn [map Seq.process_rows]. constructor; [|apply IH].
  apply process_rows_keeps_not_updatable.
  destruct (seq_updatable_dec e (Seq.db st) r) as [Hu | Hn].
  - by apply process_row_updates.
  - by apply process_row_keeps_not_updatable.
Qed.

Lemma pass_without_updatable_rows (e : process_env) (rows : list (row * Seq.replies))
    (st : Seq.state) :
  Forall (λ ro, ¬ seq_updatable e (Seq.db st) ro.1) rows →
  Seq.db (Seq.process_rows e rows st) = Seq.db st
  ∧ Seq.updatedCount (Seq.process_rows e rows st) = Seq.updatedCount st.
Proof.
  revert st. induction rows as [|[r o] rows IH]; intros st Hall; [done|].
  apply Forall_cons in Hall as [Hr Hall]. cbn [Seq.process_rows fst] in *.
  destruct (process_row_spec e r o st) as (_ & [(Hdb & Hu) | Hupd]).
  - destruct (IH (Seq.process_row e r o st)) as (-> & ->); [by rewrite Hdb | done].
  - destruct Hupd as (stored & osv & Hv & _ & _ & Hst & Hsh & Hos & _).
    destruct Hr. split; [done|]. split; [by rewrite Hos | eauto].
Qed.

(** X9: once the sequential script has gone through a file with every
    store call succeeding, going through the same rows again changes
    nothing in the store and counts no update, whatever the store then
    replies. *)
Theorem seq_rerun_changes_nothing (e : process_env) (rows : list row)
    (rows2 : list (row * Seq.replies))
    (db0 : gmap (string * (string * string)) (gmap string string)) :
  rows2.*1 = rows →
  let db1 := Seq.db (Seq.processCsvFile e (map (λ r, (r, Seq.all_ok)) rows) db0) in
  Seq.db (Seq.processCsvFile e rows2 db1) = db1
  ∧ Seq.updatedCount (Seq.processCsvFile e rows2 db1) = 0.
Proof.
  intros <-. cbv zeta. unfold Seq.processCsvFile.
  cbn [Seq.emit Seq.db Seq.updatedCount].
  pose proof (first_pass_leaves_nothing_updatable e (rows2.*1)
    {| Seq.db := db0; Seq.processedCount := 0; Seq.updatedCount := 0; Seq.trace := [] |})
    as Hfirst.
  set (db1 := Seq.db (Seq.process_rows e (map (λ r, (r, Seq.all_ok)) (rows2.*1)) _)) in *.
  apply (pass_without_updatable_rows e rows2
    {| Seq.db := db1; Seq.processedCount := 0; Seq.updatedCount := 0; Seq.trace := [] |}).
  cbn [Seq.db]. rewrite Forall_forall in Hfirst. apply Forall_forall.
  intros [r o] Hin. apply Hfirst. apply list_elem_of_fmap. by exists (r, o).
Qed.

Lemma seq_rerun_changes_nothing_witness :
  let db1 := Seq.db (Seq.processCsvFile env_default
                       (map (λ r, (r, Seq.all_ok)) seq_sample_rows) seq_sample_db) in
  db1 !! ("dev-user", ("u1", "device#z1"))
  = Some {[ "name" := "Desktop Agent (Mac)"; "os" := "Mac"; "type" := "desktop" ]}
  ∧ Seq.updatedCount (Seq.processCsvFile env_default
                        (map (λ r, (r, Seq.all_ok)) seq_sample_rows) db1) = 0.
Proof.
  cbv zeta. split; [vm_compute; reflexivity|].
  apply (seq_rerun_changes_nothing env_default seq_sample_rows
           (map (λ r, (r, Seq.all_ok)) seq_sample_rows) seq_sample_db).
  reflexivity.
Defined.

(** X12: for the same row the two scripts send requests that differ in
    the value of [os] only (and in the default table): the sequential
    script stores the tag as the classifier returns it ("Mac",
    "Windows"), the concurrent one stores its lowercase form. *)
Theorem sibling_requests_differ_in_os (e : process_env) (s z a o : string) :
  getOsFromSourceApp a = Some o →
  Dynamo.Key (Seq.updateParams e s z o) = Dynamo.Key (updateParams e s z o)
  ∧ Dynamo.UpdateExpression (Seq.updateParams e s z o)
    = Dynamo.UpdateExpression (updateParams e s z o)
  ∧ Dynamo.ExpressionAttributeNames (Seq.updateParams e s z o)
    = Dynamo.ExpressionAttributeNames (updateParams e s z o)
  ∧ Dynamo.ExpressionAttributeValues (Seq.updateParams e s z o) !! ":name"
    = Dynamo.ExpressionAttributeValues (updateParams e s z o) !! ":name"
  ∧ Dynamo.ExpressionAttributeValues (Seq.updateParams e s z o) !! ":os" = Some o
  ∧ Dynamo.ExpressionAttributeValues (updateParams e s z o) !! ":os"
    = Some (Str.toLowerCase o)
  ∧ o ≠ Str.toLowerCase o
  ∧ (Str.truthy (env_ENV e) = true →
     Dynamo.TableName (Seq.updateParams e s z o) = Dynamo.TableName (updateParams e s z o))
  ∧ (Str.truthy (env_ENV e) = false →
     Dynamo.TableName (Seq.updateParams e s z o) = "dev-user"
     ∧ Dynamo.TableName (updateParams e s z o) = "qa-user").
Proof.
  intros Ho. do 3 (split; [done|]).
  split; [unfold Seq.updateParams, updateParams; cbn; by simplify_map_eq|].
  split; [unfold Seq.updateParams; cbn; by simplify_map_eq|].
  split; [unfold updateParams; cbn; by simplify_map_eq|].
  split; [by destruct (getOsFromSourceApp_values _ _ Ho) as [-> | ->]|].
  unfold Seq.updateParams, updateParams, Seq.TABLE_NAME, TABLE_NAME, Seq.ENV, ENV.
  cbn [Dynamo.TableName].
  destruct (env_ENV e) as [[|c v]|]; cbn; split; done.
Qed.

Lemma sibling_requests_differ_in_os_witness :
  Dynamo.ExpressionAttributeValues (Seq.updateParams env_default "u1" "z1" "Mac") !! ":os"
  = Some "Mac"
  ∧ Dynamo.ExpressionAttributeValues (updateParams env_default "u1" "z1" "Mac") !! ":os"
    = Some "mac".
Proof.
  destruct (sibling_requests_differ_in_os env_default "u1" "z1" "MacOS 14" "Mac" eq_refl)
    as (_ & _ & _ & _ & Hs & Hc & _).
  split; [exact Hs | exact Hc].
Defined.

Lemma seq_errors_app (a b : list Seq.output) :
  Seq.errors (a ++ b) = Seq.errors a ++ Seq.errors b.
Proof. unfold Seq.errors. apply omap_app. Qed.

Local Ltac close_trace :=
  cbn [Seq.emit Seq.trace Seq.processedCount Seq.updatedCount Seq.db];
  rewrite <- ?app_assoc; eexists; (split; [reflexivity|]);
  (split; [first [done | intros _ _; set_solver] | first [done | by intros ->]]).

Lemma process_row_trace (e : process_env) (r : row) (o : Seq.replies) (st : Seq.state) :
  ∃ out, Seq.trace (Seq.process_row e r o st) = Seq.trace st ++ out
  ∧ (isValidRow r = true → Seq.get_ok o = false →
     Seq.Log ERROR (Seq.MsgRowError (Str.interp (suid r)) (Str.interp (zid r))) ∈ out)
  ∧ (o = Seq.all_ok → Seq.errors out = []).
Proof.
  unfold Seq.process_row, Seq.logProgressIfNeeded.
  destruct (isValidRow r); cbn [negb]; [|close_trace].
  destruct (Seq.get_ok o) eqn:Hg; cbn [negb]; last first.
  { cbn [Seq.emit Seq.processedCount]. destruct (_ =? _)%nat; close_trace. }
  cbn [Seq.emit Seq.db].
  destruct (Seq.getDynamoDbItem _ _ _ _) as [item|]; [|close_trace].
  destruct (Seq.shouldUpdateItem item); last first.
  { cbn [Seq.emit Seq.processedCount]. destruct (_ =? _)%nat; close_trace. }
  destruct (getOsFromSourceApp _) as [osv|]; [|close_trace].
  destruct (Seq.update_ok o) eqn:Hu.
  - rewrite seq_update_updateParams. cbv zeta. cbn [Seq.emit Seq.processedCount].
    destruct (_ =? _)%nat; close_trace.
  - cbn [Seq.emit Seq.processedCount]. destruct (_ =? _)%nat; close_trace.
Qed.

Lemma process_rows_trace (e : process_env) (rows : list (row * Seq.replies))
    (st : Seq.state) :
  ∃ out, Seq.trace (Seq.process_rows e rows st) = Seq.trace st ++ out
  ∧ (∀ r o, (r, o) ∈ rows → isValidRow r = true → Seq.get_ok o = false →
       Seq.Log ERROR (Seq.MsgRowError (Str.interp (suid r)) (Str.interp (zid r))) ∈ out)
  ∧ (Forall (λ ro, ro.2 = Seq.all_ok) rows → Seq.errors out = []).
Proof.
  revert st. induction rows as [|[r o] rows IH]; intros st.
  - exists []. rewrite app_nil_r. split; [done|]. split; [|done].
    intros r o Hin. by apply elem_of_nil in Hin.
  - cbn [Seq.process_rows].
    destruct (process_row_trace e r o st) as (out1 & Htr1 & Herr1 & Hok1).
    destruct (IH (Seq.process_row e r o st)) as (out2 & Htr2 & Herr2 & Hok2).
    exists (out1 ++ out2). rewrite Htr2, Htr1, app_assoc. split; [done|]. split.
    + intros r' o' [[= -> ->] | Hin]%elem_of_cons Hv Hg; apply elem_of_app;
        [left; by apply Herr1 | right; by eapply Herr2].
    + intros [Ho Hall]%Forall_cons. cbn in Ho. rewrite seq_errors_app.
      by rewrite (Hok1 Ho), (Hok2 Hall).
Qed.

(** X13: in the sequential script a row whose read fails is logged as an
    error with the row's suid and zid, and the loop goes on; when every
    store call succeeds no error is logged. *)
Theorem seq_failed_read_is_logged (e : process_env) (rows : list (row * Seq.replies))
    (db0 : gmap (string * (string * string)) (gmap string string)) :
  (∀ r o, (r, o) ∈ rows → isValidRow r = true → Seq.get_ok o = false →
     Seq.Log ERROR (Seq.MsgRowError (Str.interp (suid r)) (Str.interp (zid r)))
       ∈ Seq.trace (Seq.processCsvFile e rows db0))
  ∧ (Forall (λ ro, ro.2 = Seq.all_ok) rows →
     Seq.errors (Seq.trace (Seq.processCsvFile e rows db0)) = [])
  ∧ Seq.processedCount (Seq.processCsvFile e rows db0) = length rows.
Proof.
  unfold Seq.processCsvFile. cbn [Seq.emit Seq.trace Seq.processedCount].
  destruct (process_rows_trace e rows
    {| Seq.db := db0; Seq.processedCount := 0; Seq.updatedCount := 0; Seq.trace := [] |})
    as (out & Htr & Herr & Hok).
  rewrite Htr. cbn [Seq.trace app]. split; [|split].
  - intros r o Hin Hv Hg. apply elem_of_app. left. by eapply Herr.
  - intros Hall. rewrite seq_errors_app, (Hok Hall). done.
  - assert (H : ∀ st, Seq.processedCount (Seq.process_rows e rows st)
                = (Seq.processedCount st + length rows)%nat).
    { clear. induction rows as [|[r o] rows IH]; intros st;
        cbn [Seq.process_rows length]; [lia|].
      rewrite IH. destruct (process_row_spec e r o st) as (-> & _). lia. }
    by rewrite H.
Qed.

(** * Properties of the client provisioning script *)

Example createClient_samples :
  map (λ '(n, t), match Clients.createClient "now" n t with
                | Clients.Created c => Some (Clients.client_id c, Clients.orgCode c, Clients.scopes c)
                | _ => None end)
    [("dev/ten/dem/oauth/dem-apiuser-ldap", "client_credentials");
     ("dev/ten/dem/auditLogBasicAuth", "basic_auth");
     ("qa/ten/dem/oauth/dem-apiuser-scim-readonly", "client_credentials");
     ("qa/ten/dem/oauth/dem-apiuser-audit-readonly", "client_credentials");
     ("qa/ten/dem/ldapBasicAuth", "basic_auth")]
  = [Some ("dem-apiuser-ldap-oauth", "dem", ["ldap.read"; "ldap.write"; "ldap.delete"]);
     Some ("dem-apiuser-audit-basic", "dem", ["audit.read"; "audit.write"; "audit.delete"]);
     Some ("dem-apiuser-scim-readonly-oauth", "dem", ["scim.read"]);
     None;
     Some ("dem-apiuser-audit-basic", "dem", ["audit.read"; "audit.write"; "audit.delete"])].
Proof. vm_compute. reflexivity. Qed.

Example createClient_throws_samples :
  map (λ '(n, t), Clients.createClient "now" n t)
    [("qa/oauth/x", "client_credentials"); ("qa/ten/BasicAuth", "basic_auth"); ("qa/x", "basic_auth")]
  = [Clients.TypeError; Clients.TypeError; Clients.Unsupported].
Proof. vm_compute. reflexivity. Qed.

Example fetchClients_sample :
  Clients.fetchClients sample_pages Clients.no_listing
  = Some {| Clients.oauthClients := ["qa/ten/dem/oauth/dem-apiuser-ldap"; "qa/oauth/BasicAuth"];
            Clients.basicAuthClients := ["qa/ten/dem/auditLogBasicAuth"; "qa/oauth/BasicAuth"];
            Clients.totalSecrets := 4 |}.
Proof. vm_compute. reflexivity. Qed.

(** ** Helper facts *)

Lemma string_length_app (a b : string) :
  String.length (a +:+ b) = String.length a + String.length b.
Proof. induction a as [|c a IH]; [done|]. rewrite app_cons_s. cbn. by rewrite IH. Qed.

Lemma scopesMapper_lookup (k : string) (v : list string) :
  Clients.scopesMapper !! k = Some v →
  (k = "scim-readonly" ∧ v = ["scim.read"]) ∨
  (k ∈ ["scim"; "audit"; "ivr"; "ldap"] ∧ v = full_scopes k).
Proof.
  unfold Clients.scopesMapper.
  rewrite !lookup_insert_Some, lookup_empty.
  intros [[<- <-]|[_ [[<- <-]|[_ [[<- <-]|[_ [[<- <-]|[_ [[<- <-]|[_ ?]]]]]]]]]];
    first [done | by left | right; split; [set_solver | reflexivity]].
Qed.

Lemma scopesMapper_service (s : string) :
  s ∈ ["scim"; "audit"; "ivr"; "ldap"] →
  Clients.scopesMapper !! s = Some (full_scopes s).
Proof.
  rewrite !elem_of_cons, elem_of_nil.
  intros [->|[->|[->|[->|[]]]]]; vm_compute; reflexivity.
Qed.

Lemma readonly_key (s : string) (v : list string) :
  Clients.scopesMapper !! (s +:+ "-readonly") = Some v → s = "scim" ∧ v = ["scim.read"].
Proof.
  intros [[Hk ->]|[Hk _]]%scopesMapper_lookup.
  - split; [|done].
    assert (Hl : String.length s = 4).
    { apply (f_equal String.length) in Hk. rewrite string_length_app in Hk.
      cbn in Hk. lia. }
    destruct s as [|a [|b [|c [|d [|e s]]]]]; try done.
    by injection Hk as -> -> -> ->.
  - exfalso. rewrite !elem_of_cons, elem_of_nil in Hk.
    assert (Hl : (String.length (s +:+ "-readonly") <= 5)%nat).
    { destruct Hk as [->|[->|[->|[->|[]]]]]; cbn; lia. }
    rewrite string_length_app in Hl. cbn in Hl. lia.
Qed.

Lemma split_nonempty c s : Str.split c s ≠ [].
Proof.
  induction s as [|a s IH]; [done|]. cbn.
  destruct (Ascii.eqb a c); [done|]. by destruct (Str.split c s).
Qed.

(** No piece of [s.split(c)] contains the separator. *)
Lemma split_no_separator c s w :
  w ∈ Str.split c s → Str.includes w (String c "") = false.
Proof.
  revert w. induction s as [|a s IH]; intros w.
  - cbn. by intros ->%list_elem_of_singleton.
  - cbn. destruct (Ascii.eqb_spec a c) as [->|Hne].
    + intros [->|Hw]%elem_of_cons; [done | by apply IH].
    + pose proof (split_nonempty c s) as Hn.
      destruct (Str.split c s) as [|w0 ws]; [done|].
      intros [->|Hw]%elem_of_cons.
      * cbn. destruct (ascii_dec c a) as [->|_]; [done|].
        cbn. apply IH. by left.
      * apply IH. by right.
Qed.

(** ** Outcome of [createClient] by the shape of the name *)

Lemma createClient_cases (now n t : string) :
  (Clients.createClient now n t = Clients.Unsupported
     ↔ (length (Str.split "/" n) < 3)%nat)
  ∧ (Clients.createClient now n t = Clients.TypeError
     ↔ length (Str.split "/" n) = 3%nat
       ∨ (length (Str.split "/" n) = 4%nat ∧ t ≠ "basic_auth")).
Proof.
  unfold Clients.createClient.
  destruct (Nat.ltb_spec (length (Str.split "/" n)) 3) as [Hlt|Hge].
  { split; [done|]. split; [done | lia]. }
  destruct (String.eqb_spec t "basic_auth") as [->|Hne].
  - destruct (Str.split "/" n !! 3%nat) as [seg|] eqn:E3.
    + apply lookup_lt_Some in E3. cbv beta iota zeta.
      destruct (Clients.scopesMapper !! _);
        (split; (split; [done | first [lia | intros [?|[? ?]]; first [lia | done]]])).
    + apply lookup_ge_None in E3.
      split; [split; [done | lia] | split; [lia | done]].
  - destruct (Str.split "/" n !! 4%nat) as [seg|] eqn:E4.
    + apply lookup_lt_Some in E4. cbv beta iota zeta.
      destruct (Clients.scopesMapper !! _);
        (split; (split; [done | first [lia | intros [?|[? ?]]; first [lia | done]]])).
    + apply lookup_ge_None in E4.
      split; [split; [done | lia] | split; [intros _ | done]].
      destruct (decide (length (Str.split "/" n) = 3%nat)); [by left | right].
      split; [lia | done].
Qed.

(** X14: [createClient] guards against names of fewer than three
    segments only, then reads the fourth (basic auth) or fifth (OAuth)
    segment.  So it logs "unsupported client" exactly for names of one
    or two segments, and it throws a TypeError exactly for names of
    three segments, and for OAuth also for names of four; every longer
    name gives a client or the "Missing or invalid scopes" line. *)
Theorem createClient_throws_on_short_names (now n t : string) :
  (Clients.createClient now n t = Clients.Unsupported
     ↔ (length (Str.split "/" n) < 3)%nat)
  ∧ (Clients.createClient now n t = Clients.TypeError
     ↔ length (Str.split "/" n) = 3%nat
       ∨ (length (Str.split "/" n) = 4%nat ∧ t ≠ "basic_auth")).
Proof. apply createClient_cases. Qed.

(** X15: for an OAuth name with a fifth segment [seg], the client id is
    [seg]-oauth and the scopes are decided by the third dash-separated
    token of [seg]: without "readonly" in [seg] the token must be scim,
    audit, ivr or ldap and the client gets the three scopes of that
    service; with "readonly" in [seg] the token must be scim and the
    client gets scim.read alone.  In every other case no client is
    made and the missing-scopes line is printed; in particular there is
    no read-only client for audit, ivr or ldap. *)
Theorem oauth_client_scopes (now n t seg : string) :
  t ≠ "basic_auth" →
  Str.split "/" n !! 4%nat = Some seg →
  match Clients.createClient now n t with
  | Clients.Created c =>
      Clients.client_id c = seg +:+ "-oauth" ∧ Clients.name c = seg +:+ "-oauth"
      ∧ Clients.authMechanism c = t ∧ Clients.createDate c = now
      ∧ Clients.orgCode c = Str.interp (Str.split "/" n !! 2%nat)
      ∧ Clients.status c = "ACTIVE"
      ∧ if Str.includes seg "readonly"
        then Str.split "-" seg !! 2%nat = Some "scim" ∧ Clients.scopes c = ["scim.read"]
        else ∃ s, Str.split "-" seg !! 2%nat = Some s
                  ∧ s ∈ ["scim"; "audit"; "ivr"; "ldap"]
                  ∧ Clients.scopes c = full_scopes s
  | Clients.MissingScopes id =>
      id = seg +:+ "-oauth"
      ∧ if Str.includes seg "readonly"
        then Str.split "-" seg !! 2%nat ≠ Some "scim"
        else ∀ s, Str.split "-" seg !! 2%nat = Some s → s ∉ ["scim"; "audit"; "ivr"; "ldap"]
  | _ => False
  end.
Proof.
  intros Hne E4. unfold Clients.createClient.
  pose proof (lookup_lt_Some _ _ _ E4) as Hlen.
  destruct (Nat.ltb_spec (length (Str.split "/" n)) 3) as [Hlt|_]; [lia|].
  destruct (String.eqb_spec t "basic_auth") as [->|_]; [done|].
  rewrite E4.
  destruct (Str.includes seg "readonly") eqn:Ero.
  - destruct (Clients.scopesMapper !! _) as [v|] eqn:Ev; cbn.
    + apply readonly_key in Ev as [Hs ->]. do 6 (split; [done|]).
      split; [|done]. by destruct (Str.split "-" seg !! 2%nat) as [s|]; simplify_eq/=.
    + split; [done|]. intros Hs. rewrite Hs in Ev. by vm_compute in Ev.
  - destruct (Clients.scopesMapper !! _) as [v|] eqn:Ev; cbn.
    + do 6 (split; [done|]).
      apply scopesMapper_lookup in Ev as [[Hk ->]|[Hk ->]].
      * exfalso. destruct (Str.split "-" seg !! 2%nat) as [s|] eqn:Es; [|done].
        cbn in Hk. subst s. apply list_elem_of_lookup_2 in Es.
        by apply split_no_separator in Es.
      * destruct (Str.split "-" seg !! 2%nat) as [s|] eqn:Es.
        -- by exists s.
        -- exfalso. cbn in Hk. rewrite !elem_of_cons, elem_of_nil in Hk.
           by destruct Hk as [?|[?|[?|[?|[]]]]].
    + split; [done|]. intros s Hs Hin.
      rewrite Hs in Ev. cbn in Ev. by rewrite (scopesMapper_service s Hin) in Ev.
Qed.

Lemma oauth_client_scopes_witness :
  Clients.createClient "2025-06-18T05:40:17.000Z"
    "qa/ten/dem/oauth/dem-apiuser-audit-readonly" "client_credentials"
  = Clients.MissingScopes "dem-apiuser-audit-readonly-oauth"
  ∧ Str.split "-" "dem-apiuser-audit-readonly" !! 2%nat ≠ Some "scim".
Proof.
  pose proof (oauth_client_scopes "2025-06-18T05:40:17.000Z"
                "qa/ten/dem/oauth/dem-apiuser-audit-readonly" "client_credentials"
                "dem-apiuser-audit-readonly" ltac:(done) eq_refl) as H.
  split; [vm_compute; reflexivity|].
  vm_compute in H. destruct H as [_ H]. exact H.
Defined.

(** X16: a basic-auth name with a fourth segment always gives a client,
    and only for scim or audit: scim when the fourth segment contains
    "scim", audit for every other segment (a name for ldap or ivr
    included).  The client id is built from the third segment. *)
Theorem basic_auth_is_scim_or_audit (now n seg : string) :
  Str.split "/" n !! 3%nat = Some seg →
  ∃ c service,
    Clients.createClient now n "basic_auth" = Clients.Created c
    ∧ (if Str.includes seg "scim" then service = "scim" else service = "audit")
    ∧ Clients.scopes c = full_scopes service
    ∧ Clients.orgCode c = Str.interp (Str.split "/" n !! 2%nat)
    ∧ Clients.client_id c = Clients.orgCode c +:+ "-apiuser-" +:+ service +:+ "-basic"
    ∧ Clients.name c = Clients.client_id c
    ∧ Clients.authMechanism c = "basic_auth" ∧ Clients.createDate c = now
    ∧ Clients.status c = "ACTIVE".
Proof.
  intros E3. unfold Clients.createClient.
  pose proof (lookup_lt_Some _ _ _ E3) as Hlen.
  destruct (Nat.ltb_spec (length (Str.split "/" n)) 3) as [Hlt|_]; [lia|].
  cbn [String.eqb]. change ("basic_auth" =? "basic_auth")%string with true. cbn iota.
  rewrite E3.
  destruct (Str.includes seg "scim"); eexists; [exists "scim" | exists "audit"];
    (split; [reflexivity|]); cbn; done.
Qed.

Lemma basic_auth_is_scim_or_audit_witness :
  ∃ c, Clients.createClient "2025-06-18T05:40:17.000Z" "qa/ten/dem/ldapBasicAuth" "basic_auth"
       = Clients.Created c
     ∧ Clients.client_id c = "dem-apiuser-audit-basic"
     ∧ Clients.scopes c = ["audit.read"; "audit.write"; "audit.delete"].
Proof.
  destruct (basic_auth_is_scim_or_audit "2025-06-18T05:40:17.000Z"
              "qa/ten/dem/ldapBasicAuth" "ldapBasicAuth" eq_refl)
    as (c & service & Hc & Hs & Hsc & Ho & Hid & _).
  exists c. split; [exact Hc|].
  vm_compute in Hs. subst service.
  split; [rewrite Hid, Ho; reflexivity | exact Hsc].
Defined.

(** ** The two loops of the main block *)

Lemma create_all_threw now t names o :
  Clients.threw o = true → Clients.create_all now t names o = o.
Proof. intros H. destruct names; cbn; [done | by rewrite H]. Qed.

Lemma create_all_app now t a b o :
  Clients.create_all now t (a ++ b) o
  = Clients.create_all now t b (Clients.create_all now t a o).
Proof.
  revert o. induction a as [|n a IH]; intros o; [done|]. cbn.
  destruct (Clients.threw o) eqn:E; [|apply IH].
  by rewrite create_all_threw.
Qed.

Lemma create_all_no_throw now t names o :
  Clients.threw o = false →
  Forall (λ n, Clients.createClient now n t ≠ Clients.TypeError) names →
  Clients.threw (Clients.create_all now t names o) = false.
Proof.
  intros Ho Hall. revert o Ho.
  induction Hall as [|n names Hn _ IH]; intros o Ho; [done|].
  cbn. rewrite Ho. apply IH.
  destruct (Clients.createClient now n t); try done.
Qed.

Lemma createClient_authMechanism now n t c :
  Clients.createClient now n t = Clients.Created c → Clients.authMechanism c = t.
Proof.
  unfold Clients.createClient.
  destruct (length (Str.split "/" n) <? 3)%nat; [done|].
  destruct (if (t =? "basic_auth")%string then _ else _) as [[service id]|]; [|done].
  destruct (Clients.scopesMapper !! _); [|done]. by intros [= <-].
Qed.

Lemma account_spec now n t o :
  ∃ cs, Clients.created (Clients.account t (Clients.createClient now n t) o)
        = Clients.created o ++ cs
        ∧ Forall (λ c, Clients.authMechanism c = t) cs
        ∧ (t ≠ "basic_auth" →
           Clients.basicAuthProcessed (Clients.account t (Clients.createClient now n t) o)
           = Clients.basicAuthProcessed o).
Proof.
  destruct (Clients.createClient now n t) as [| | id|c] eqn:E;
    try (exists []; by rewrite app_nil_r).
  exists [c]. cbn. split; [done|]. split.
  - apply Forall_singleton. by eapply createClient_authMechanism.
  - intros Hne. by destruct (String.eqb_spec t "basic_auth").
Qed.

(** The loops only add to what was created, and a client made by a loop
    carries the loop's authType. *)
Lemma create_all_created now t names o :
  ∃ cs, Clients.created (Clients.create_all now t names o) = Clients.created o ++ cs
        ∧ Forall (λ c, Clients.authMechanism c = t) cs
        ∧ (t ≠ "basic_auth" →
           Clients.basicAuthProcessed (Clients.create_all now t names o)
           = Clients.basicAuthProcessed o).
Proof.
  revert o. induction names as [|n names IH]; intros o.
  - exists []. by rewrite app_nil_r.
  - cbn. destruct (Clients.threw o).
    { exists []. by rewrite app_nil_r. }
    destruct (IH (Clients.account t (Clients.createClient now n t) o))
      as (cs & -> & Hcs & Hb).
    destruct (account_spec now n t o) as (cs0 & -> & Hcs0 & Hb0).
    exists (cs0 ++ cs). rewrite app_assoc. split; [done|].
    split; [by apply Forall_app|].
    intros Hne. by rewrite Hb, Hb0.
Qed.

Lemma provision_throw (now : string)
    (before : list string) (bad : string) (after basic : list string) :
  Forall (λ n, Clients.createClient now n "client_credentials" ≠ Clients.TypeError) before →
  Clients.createClient now bad "client_credentials" = Clients.TypeError →
  Clients.threw (Clients.provision now (before ++ bad :: after) basic) = true
  ∧ Clients.created (Clients.provision now (before ++ bad :: after) basic)
    = Clients.created (Clients.provision now before [])
  ∧ Clients.oauthProcessed (Clients.provision now (before ++ bad :: after) basic)
    = Clients.oauthProcessed (Clients.provision now before [])
  ∧ Clients.basicAuthProcessed (Clients.provision now (before ++ bad :: after) basic) = 0%nat.
Proof.
  intros Hbefore Hbad. unfold Clients.provision.
  rewrite create_all_app.
  set (o0 := {| Clients.created := []; Clients.oauthProcessed := 0;
                Clients.basicAuthProcessed := 0; Clients.threw := false |}).
  pose proof (create_all_no_throw now "client_credentials" before o0 eq_refl Hbefore) as Hno.
  destruct (create_all_created now "client_credentials" before o0) as (cs & _ & _ & Hb).
  specialize (Hb ltac:(done)).
  set (o1 := Clients.create_all now "client_credentials" before o0) in *.
  cbn [Clients.create_all]. rewrite Hno, Hbad. cbn [Clients.account].
  rewrite (create_all_threw now "client_credentials" after) by done.
  rewrite (create_all_threw now "basic_auth" basic) by done.
  cbn. by rewrite Hb.
Qed.

(** X17: the first name for which [createClient] throws ends the main
    block (the catch clause is all that runs after it): what has been
    created is what the names before it gave, the other OAuth names and
    every basic-auth name are left unprocessed. *)
Theorem provision_stops_at_first_throw (now : string)
    (before : list string) (bad : string) (after basic : list string) :
  Forall (λ n, Clients.createClient now n "client_credentials" ≠ Clients.TypeError) before →
  Clients.createClient now bad "client_credentials" = Clients.TypeError →
  Clients.threw (Clients.provision now (before ++ bad :: after) basic) = true
  ∧ Clients.created (Clients.provision now (before ++ bad :: after) basic)
    = Clients.created (Clients.provision now before [])
  ∧ Clients.oauthProcessed (Clients.provision now (before ++ bad :: after) basic)
    = Clients.oauthProcessed (Clients.provision now before [])
  ∧ Clients.basicAuthProcessed (Clients.provision now (before ++ bad :: after) basic) = 0%nat.
Proof. apply provision_throw. Qed.

Lemma provision_stops_at_first_throw_witness :
  let o := Clients.provision "2025-06-18T05:40:17.000Z"
             ["qa/ten/dem/oauth/dem-apiuser-ldap"; "qa/oauth/x"; "qa/ten/dem/oauth/dem-apiuser-scim"]
             ["qa/ten/dem/auditLogBasicAuth"] in
  Clients.threw o = true
  ∧ Clients.client_id <$> Clients.created o = ["dem-apiuser-ldap-oauth"]
  ∧ Clients.basicAuthProcessed o = 0%nat.
Proof.
  destruct (provision_stops_at_first_throw "2025-06-18T05:40:17.000Z"
              ["qa/ten/dem/oauth/dem-apiuser-ldap"] "qa/oauth/x"
              ["qa/ten/dem/oauth/dem-apiuser-scim"] ["qa/ten/dem/auditLogBasicAuth"])
    as (Ht & Hc & _ & Hb).
  - repeat constructor. by vm_compute.
  - vm_compute. reflexivity.
  - cbv zeta. split; [exact Ht|]. split; [|exact Hb].
    cbn [app] in Hc. rewrite Hc. vm_compute. reflexivity.
Defined.

(** ** The listing *)

Lemma select_app (a b : list string) (l : Clients.listing) :
  Clients.select (a ++ b) l = Clients.select b (Clients.select a l).
Proof.
  unfold Clients.select. cbn.
  rewrite !List.filter_app, !app_assoc, length_app. f_equal. lia.
Qed.

Lemma select_nil (l : Clients.listing) : Clients.select [] l = l.
Proof.
  destruct l. unfold Clients.select. cbn. rewrite !app_nil_r. f_equal. lia.
Qed.

Lemma fetchClients_spec (pages : list Clients.page) (l0 : Clients.listing) :
  Clients.fetchClients pages l0
  = if forallb (λ p, Str.truthy (Clients.NextToken p)) pages then None
    else Some (Clients.select (listed pages) l0).
Proof.
  revert l0. induction pages as [|p pages IH]; intros l0; [done|].
  cbn [Clients.fetchClients forallb]. unfold listed. cbn [pages_read].
  destruct (Str.truthy (Clients.NextToken p)).
  - rewrite IH. cbn [andb fmap list_fmap concat].
    destruct (forallb _ pages); [done|].
    by rewrite select_app.
  - cbn [andb fmap list_fmap concat]. by rewrite app_nil_r.
Qed.

(** X18: [fetchClients] reads the answers up to the first one whose
    NextToken is missing or empty and no further.  Of the names read,
    in order, the OAuth list keeps those containing the environment name
    and "/oauth/", the basic-auth list those containing the environment
    name and "BasicAuth" (a name can be in both), and totalSecrets is
    the number of names read; an answer without SecretList adds
    nothing. *)
Theorem fetchClients_selection (pages : list Clients.page) :
  (is_Some (Clients.fetchClients pages Clients.no_listing)
     ↔ Exists (λ p, Str.truthy (Clients.NextToken p) = false) pages)
  ∧ ∀ l, Clients.fetchClients pages Clients.no_listing = Some l →
      Clients.oauthClients l = List.filter is_oauth_name (listed pages)
      ∧ Clients.basicAuthClients l = List.filter is_basic_name (listed pages)
      ∧ Clients.totalSecrets l = length (listed pages).
Proof.
  rewrite fetchClients_spec. split.
  - destruct (forallb _ pages) eqn:E.
    + rewrite forallb_forall in E. split; [by intros [? ?]|].
      intros (p & Hp & Hf)%Exists_exists. apply list_elem_of_In in Hp.
      by rewrite (E p Hp) in Hf.
    + split; [intros _ | by eexists].
      apply Exists_exists.
      assert (Hn : ¬ ∀ p, In p pages → Str.truthy (Clients.NextToken p) = true).
      { intros H. apply forallb_forall in H. congruence. }
      clear E. induction pages as [|p pages IH]; [by destruct Hn|].
      destruct (Str.truthy (Clients.NextToken p)) eqn:Ep.
      * destruct IH as (q & Hq & Hf).
        { intros H. apply Hn. intros q [<-|Hq]; [done | by apply H]. }
        exists q. split; [by right | done].
      * exists p. split; [by left | done].
  - intros l. destruct (forallb _ pages); [done|]. intros [= <-]. by cbn.
Qed.

(** ** Segments of a name *)

Lemma split_length_app c (a b : string) :
  (length (Str.split c (a +:+ b)) + 1
   = length (Str.split c a) + length (Str.split c b))%nat.
Proof.
  induction a as [|x a IH]; [rewrite app_nil_l_s; cbn [Str.split length]; lia|].
  rewrite app_cons_s. cbn [Str.split].
  destruct (Ascii.eqb x c); [cbn [length]; lia|].
  pose proof (split_nonempty c (a +:+ b)). pose proof (split_nonempty c a).
  destruct (Str.split c (a +:+ b)), (Str.split c a); done.
Qed.

Lemma split_length_pos c s : (1 <= length (Str.split c s))%nat.
Proof. pose proof (split_nonempty c s). destruct (Str.split c s); [done | cbn; lia]. Qed.

(** A name that contains "/oauth/" has at least three segments. *)
Lemma oauth_name_segments (n : string) :
  Str.includes n "/oauth/" = true → (3 <= length (Str.split "/" n))%nat.
Proof.
  intros (pre & post & ->)%includes_true_iff.
  pose proof (split_length_app "/" pre ("/oauth/" +:+ post)).
  pose proof (split_length_app "/" "/oauth/" post).
  pose proof (split_length_pos "/" pre). pose proof (split_length_pos "/" post).
  change (length (Str.split "/" "/oauth/")) with 3%nat in *. lia.
Qed.

Lemma first_throw now t (names : list string) :
  Exists (λ n, Clients.createClient now n t = Clients.TypeError) names →
  ∃ before b after,
    names = before ++ b :: after
    ∧ Forall (λ n, Clients.createClient now n t ≠ Clients.TypeError) before
    ∧ Clients.createClient now b t = Clients.TypeError.
Proof.
  induction names as [|n names IH]; intros Hex; [by apply Exists_nil in Hex|].
  destruct (Clients.createClient now n t) eqn:E.
  2: { by exists [], n, names. }
  all: apply Exists_cons in Hex as [Hn|Hex]; [congruence|];
       destruct (IH Hex) as (before & b & after & -> & Hb & Hthrow);
       exists (n :: before), b, after; split; [done|]; split; [|done];
       constructor; [congruence | done].
Qed.

(** X19: one listed secret whose name passes the OAuth filter but has
    fewer than five segments (such as qa/oauth/x) stops the whole run:
    [createClient] throws on it, so no basic-auth client is created at
    all, whatever the basic-auth names are. *)
Theorem short_oauth_name_blocks_basic_auth (now : string)
    (pages : list Clients.page) (bad : string) (l : Clients.listing) (o : Clients.outcome) :
  Clients.main now pages = Some (l, o) →
  bad ∈ listed pages →
  is_oauth_name bad = true →
  (length (Str.split "/" bad) <= 4)%nat →
  Clients.threw o = true
  ∧ Clients.basicAuthProcessed o = 0%nat
  ∧ Forall (λ c, Clients.authMechanism c = "client_credentials") (Clients.created o).
Proof.
  unfold Clients.main. rewrite fetchClients_spec.
  destruct (forallb _ pages); [done|]. intros [= <- <-] Hin Hoauth Hlen.
  cbn [Clients.select Clients.no_listing Clients.oauthClients Clients.basicAuthClients app].
  fold is_oauth_name is_basic_name.
  change (λ n, Str.includes n Clients.env && Str.includes n "/oauth/") with is_oauth_name.
  change (λ n, Str.includes n Clients.env && Str.includes n "BasicAuth") with is_basic_name.
  assert (Hex : Exists (λ n, Clients.createClient now n "client_credentials" = Clients.TypeError)
                  (List.filter is_oauth_name (listed pages))).
  { apply Exists_exists. exists bad. split.
    - apply list_elem_of_In, List.filter_In. split; [by apply list_elem_of_In | done].
    - apply createClient_cases.
      apply andb_true_iff in Hoauth as [_ Hseg%oauth_name_segments].
      destruct (decide (length (Str.split "/" bad) = 3%nat)); [by left | right].
      split; [lia | done]. }
  destruct (first_throw _ _ _ Hex) as (before & b & after & -> & Hbefore & Hthrow).
  destruct (provision_throw now before b after (List.filter is_basic_name (listed pages))
              Hbefore Hthrow) as (-> & -> & _ & ->).
  do 2 (split; [done|]).
  unfold Clients.provision. cbn [Clients.create_all].
  destruct (create_all_created now "client_credentials" before
              {| Clients.created := []; Clients.oauthProcessed := 0;
                 Clients.basicAuthProcessed := 0; Clients.threw := false |})
    as (cs & -> & Hcs & _).
  done.
Qed.

Lemma short_oauth_name_blocks_basic_auth_witness :
  ∃ l o, Clients.main "2025-06-18T05:40:17.000Z" sample_pages = Some (l, o)
       ∧ "qa/oauth/BasicAuth" ∈ Clients.basicAuthClients l
       ∧ length (Clients.basicAuthClients l) = 2%nat
       ∧ Clients.basicAuthProcessed o = 0%nat.
Proof.
  eexists _, _. split; [vm_compute; reflexivity|].
  split; [vm_compute; set_solver|]. split; [reflexivity|].
  eapply (short_oauth_name_blocks_basic_auth "2025-06-18T05:40:17.000Z"
            sample_pages "qa/oauth/BasicAuth").
  - vm_compute. reflexivity.
  - vm_compute. set_solver.
  - vm_compute. reflexivity.
  - vm_compute. lia.
Defined.

(** ** The two versions of [createClient] *)

Example createClient_inherited_member :
  (* a service token that names a member of Object.prototype *)
  (∃ c, ClientsV1.createClient "now" "dev/ten/dem/oauth/dem-apiuser-constructor"
          "client_credentials" = ClientsV1.Logged c
        ∧ ClientsV1.scopes c = ClientsV1.Inherited "constructor")
  ∧ Clients.createClient "now" "dev/ten/dem/oauth/dem-apiuser-constructor"
      "client_credentials"
    = Clients.MissingScopes "dem-apiuser-constructor-oauth".
Proof. split; [eexists; split|]; vm_compute; reflexivity. Qed.

(** X20: the second version of [createClient] differs from the first
    one in one point: where the first version logs a client whose
    scopes are not one of the arrays of [scopesMapper] (they are
    undefined, or a member inherited from [Object.prototype] such as
    constructor) and counts it as processed, the second prints the
    missing-scopes line and makes no client.  Where the first version
    finds an array, the two build the same record; the unsupported names
    and the names that throw are the same. *)
Theorem second_version_adds_scopes_check (now n t : string) :
  match ClientsV1.createClient now n t with
  | ClientsV1.Unsupported => Clients.createClient now n t = Clients.Unsupported
  | ClientsV1.TypeError => Clients.createClient now n t = Clients.TypeError
  | ClientsV1.Logged c1 =>
      match ClientsV1.scopes c1 with
      | ClientsV1.Own scopes =>
          Clients.createClient now n t
          = Clients.Created
              {| Clients.client_id := ClientsV1.client_id c1;
                 Clients.authMechanism := ClientsV1.authMechanism c1;
                 Clients.createDate := ClientsV1.createDate c1;
                 Clients.name := ClientsV1.name c1;
                 Clients.orgCode := ClientsV1.orgCode c1;
                 Clients.scopes := scopes;
                 Clients.status := ClientsV1.status c1 |}
      | ClientsV1.Inherited _ | ClientsV1.Undefined =>
          Clients.createClient now n t = Clients.MissingScopes (ClientsV1.client_id c1)
      end
  end.
Proof.
  unfold ClientsV1.createClient, Clients.createClient.
  destruct (length (Str.split "/" n) <? 3)%nat; [done|].
  destruct (if (t =? "basic_auth")%string then _ else _) as [[service id]|]; [|done].
  cbn [ClientsV1.scopes ClientsV1.client_id ClientsV1.authMechanism ClientsV1.createDate
       ClientsV1.name ClientsV1.orgCode ClientsV1.status].
  unfold ClientsV1.get_scopes.
  destruct (Clients.scopesMapper !! _); [done|]. by case_bool_decide.
Qed.
